(** * Calli: transcript model, segment splitter and formatters

    A shallow embedding of [video_editor/models.py], [video_editor/segmenter.py]
    and [video_editor/formatters.py], together with the parts of the Python
    runtime these modules rely on (str, list slicing, range, float arithmetic),
    and the properties of the specification proved about them. *)

From Stdlib Require Import String Ascii ZArith NArith Bool List Lia.
From Stdlib Require DecimalString DecimalPos DecimalN.
Import ListNotations.

Local Open Scope Z_scope.

(* ================================================================== *)
(** * Python exceptions and fallible computations *)

Inductive exn : Type :=
| ValueError (msg : string)
| IndexError (msg : string)
| ZeroDivisionError (msg : string)
| JSONDecodeError (msg : string)
| OSError (msg : string)
| UnicodeEncodeError (msg : string)
| NotModelled (what : string).

Inductive result (A : Type) : Type :=
| Return (a : A)
| Raise (e : exn).

Arguments Return {A} a.
Arguments Raise {A} e.

Definition bind {A B : Type} (r : result A) (k : A -> result B) : result B :=
  match r with
  | Return a => k a
  | Raise e => Raise e
  end.

Notation "x <- c1 ;; c2" := (bind c1 (fun x => c2))
  (at level 61, c1 at next level, right associativity).

(** The two failures of the splitter.  The source raises [ValueError] for
    both; the specification names them by what they report. *)
Definition InvalidArgument : exn :=
  ValueError "max_words must be greater than 0".

Definition MissingWordTimestamps : exn :=
  ValueError "Word-level timestamps are required to split by max words.".

(* ================================================================== *)
(** * Python [str]: a sequence of Unicode code points *)

Module PyStr.

Definition char : Type := N.
Definition str : Type := list char.

(** A literal of the source, written as a Rocq string of ASCII characters. *)
Definition lit (s : string) : str := map N_of_ascii (list_ascii_of_string s).

(** [str.isspace] on one code point: the characters [str.strip()] removes. *)
Definition isspace (c : char) : bool :=
  (((9 <=? c) && (c <=? 13)) || ((28 <=? c) && (c <=? 32))
   || (c =? 133) || (c =? 160) || (c =? 5760)
   || ((8192 <=? c) && (c <=? 8202))
   || (c =? 8232) || (c =? 8233) || (c =? 8239) || (c =? 8287)
   || (c =? 12288))%N.

Fixpoint lstrip (s : str) : str :=
  match s with
  | [] => []
  | c :: s' => if isspace c then lstrip s' else s
  end.

Definition rstrip (s : str) : str := rev (lstrip (rev s)).

Definition strip (s : str) : str := rstrip (lstrip s).

(** A string is trimmed when it is not empty and neither its first nor its
    last character is white space. *)
Definition trimmed (p : str) : Prop :=
  (exists a, hd_error p = Some a /\ isspace a = false) /\
  (exists b, hd_error (rev p) = Some b /\ isspace b = false).

(** Truth value of a string: non-empty. *)
Definition truthy (s : str) : bool :=
  match s with [] => false | _ :: _ => true end.

(** [sep.join(parts)] *)
Fixpoint join (sep : str) (parts : list str) : str :=
  match parts with
  | [] => []
  | [p] => p
  | p :: ps => p ++ sep ++ join sep ps
  end.

End PyStr.

(* ================================================================== *)
(** * Python lists: indexing, slicing, range *)

Module PyList.

Definition len {A : Type} (l : list A) : Z := Z.of_nat (List.length l).

(** [l[i]], negative indices counting from the end. *)
Definition getitem {A : Type} (l : list A) (i : Z) : result A :=
  let j := if i <? 0 then i + len l else i in
  if (j <? 0) || (len l <=? j) then Raise (IndexError "list index out of range")
  else match nth_error l (Z.to_nat j) with
       | Some a => Return a
       | None => Raise (IndexError "list index out of range")
       end.

(** Clamping of one slice bound, as [PySlice_AdjustIndices] does for step 1. *)
Definition clamp (n i : Z) : Z :=
  if i <? 0 then Z.max 0 (i + n) else Z.min i n.

(** [l[lo:hi]] *)
Definition slice {A : Type} (l : list A) (lo hi : Z) : list A :=
  let lo' := clamp (len l) lo in
  let hi' := clamp (len l) hi in
  firstn (Z.to_nat (hi' - lo')) (skipn (Z.to_nat lo') l).

(** [range(start, stop, step)], as the list of its elements. *)
Definition range (start stop step : Z) : result (list Z) :=
  if step =? 0 then Raise (ValueError "range() arg 3 must not be zero")
  else
    let count :=
      if 0 <? step
      then (if start <? stop then (stop - start - 1) / step + 1 else 0)
      else (if stop <? start then (start - stop - 1) / (- step) + 1 else 0) in
    Return (map (fun k => start + Z.of_nat k * step) (seq 0 (Z.to_nat count))).

(** The number of indices [range(0, n, m)] yields, for [m > 0]. *)
Definition range_count (n m : nat) : nat :=
  match n with
  | O => O
  | S n' => S (n' / m)
  end.

End PyList.

(* ================================================================== *)
(** * Python [float]: finite binary64 values

    Every finite binary64 number is an integer multiple of [2^-1074]; a
    time stamp is modelled by that integer.  Infinities and NaN are not
    time stamps. *)

Module PyFloat.

Definition float : Type := Z.

(** The integer that models [1.0]. *)
Definition one : Z := 2 ^ 1074.

(** A binary64 value has a significand of at most 53 bits: below [2^53]
    units every integer is a value, above it the low bits are zero. *)
Definition is_binary64 (x : float) : bool :=
  let a := Z.abs x in
  (a <? 2 ^ 53) || (a mod 2 ^ (Z.log2 a - 52) =? 0).

(** The integer nearest to [a / b] (for [0 < b]), ties to the even one. *)
Definition rne (a b : Z) : Z :=
  let q := a / b in
  let r := a mod b in
  match 2 * r ?= b with
  | Lt => q
  | Gt => q + 1
  | Eq => if Z.even q then q else q + 1
  end.

(** IEEE 754 round-to-nearest-even of the rational [a / b] units (for
    [0 < b]) to a binary64 value.  The arithmetic of this development stays
    below the overflow threshold, so no infinity is produced. *)
Definition round (a b : Z) : float :=
  let q := Z.abs a / b in
  if q <? 2 ^ 53 then rne a b
  else
    let sh := Z.log2 q - 52 in
    rne a (b * 2 ^ sh) * 2 ^ sh.

(** A decimal literal [num / den] of the source, correctly rounded. *)
Definition of_decimal (num den : Z) : float := round (num * one) den.

(** [float(n)] for a Python int. *)
Definition of_int (n : Z) : float := round (n * one) 1.

Definition add (x y : float) : float := round (x + y) 1.
Definition sub (x y : float) : float := round (x - y) 1.
Definition mul (x y : float) : float := round (x * y) one.
Definition div (x y : float) : float :=
  if y <? 0 then round (- (x * one)) (- y) else round (x * one) y.

(** C [fmod]: exact, with the sign of the dividend. *)
Definition fmod (x y : float) : float := Z.rem x y.

(** C [floor]. *)
Definition floor (x : float) : float := (x / one) * one.

(** [x % y] on floats ([float_rem] of CPython). *)
Definition rem (vx wx : float) : result float :=
  if wx =? 0 then Raise (ZeroDivisionError "float modulo by zero")
  else
    let mod_ := fmod vx wx in
    if negb (mod_ =? 0)
    then (if negb (Bool.eqb (wx <? 0) (mod_ <? 0))
          then Return (add mod_ wx)
          else Return mod_)
    else Return 0.

(** [x // y] on floats ([float_floor_div] of CPython, through
    [_float_div_mod]). *)
Definition floor_div (vx wx : float) : result float :=
  if wx =? 0 then Raise (ZeroDivisionError "float floor division by zero")
  else
    let mod_ := fmod vx wx in
    let div0 := div (sub vx mod_) wx in
    let div_ :=
      if negb (mod_ =? 0) && negb (Bool.eqb (wx <? 0) (mod_ <? 0))
      then sub div0 one
      else div0 in
    if negb (div_ =? 0)
    then
      let floordiv := floor div_ in
      if one / 2 <? sub div_ floordiv
      then Return (add floordiv one)
      else Return floordiv
    else Return 0.

(** [int(x)]: truncation toward zero. *)
Definition to_int (x : float) : Z := Z.quot x one.

End PyFloat.

(* ================================================================== *)
(** * Python values that [to_dict] builds

    A [dict] keeps its keys in insertion order, so it is modelled by an
    association list without repeated keys. *)

Module PyVal.

Import PyStr.

Inductive value : Type :=
| VNone
| VBool (b : bool)
| VInt (z : Z)
| VFloat (x : PyFloat.float)
| VStr (s : str)
| VList (l : list value)
| VDict (items : list (str * value)).

Definition dict : Type := list (str * value).

Definition str_eqb (a b : str) : bool :=
  if list_eq_dec N.eq_dec a b then true else false.

(** [d.get(key)]: [None] when the key is absent. *)
Fixpoint dict_get (key : str) (d : dict) : option value :=
  match d with
  | [] => None
  | (k, v) :: d' => if str_eqb key k then Some v else dict_get key d'
  end.

(** [d[key] = v]: the value of an existing key is replaced where it stands,
    a new key is added at the end. *)
Fixpoint dict_set (key : str) (v : value) (d : dict) : dict :=
  match d with
  | [] => [(key, v)]
  | (k, v') :: d' =>
      if str_eqb key k then (k, v) :: d' else (k, v') :: dict_set key v d'
  end.

(** [list(d.keys())] *)
Definition dict_keys (d : dict) : list str := map fst d.

End PyVal.

(* ================================================================== *)
(** * models.py *)

Module WordTimestamp.
Record t : Type := mk {
  start : PyFloat.float;
  end_ : PyFloat.float;
  word : PyStr.str
}.

(** [WordTimestamp.to_dict] *)
Definition to_dict (self : t) : PyVal.dict :=
  [(PyStr.lit "start", PyVal.VFloat (start self));
   (PyStr.lit "end", PyVal.VFloat (end_ self));
   (PyStr.lit "word", PyVal.VStr (word self))].
End WordTimestamp.

Module TranscriptSegment.
Record t : Type := mk {
  start : PyFloat.float;
  end_ : PyFloat.float;
  text : PyStr.str;
  words : option (list WordTimestamp.t)
}.

(** [TranscriptSegment.to_dict] *)
Definition to_dict (self : t) : PyVal.dict :=
  let data :=
    [(PyStr.lit "start", PyVal.VFloat (start self));
     (PyStr.lit "end", PyVal.VFloat (end_ self));
     (PyStr.lit "text", PyVal.VStr (text self))] in
  match words self with
  | Some ws =>
      PyVal.dict_set (PyStr.lit "words")
        (PyVal.VList
           (map (fun word => PyVal.VDict (WordTimestamp.to_dict word)) ws))
        data
  | None => data
  end.
End TranscriptSegment.

Module Transcript.
Record t : Type := mk {
  segments : list TranscriptSegment.t;
  language : option PyStr.str
}.

(** [Transcript.to_dict] *)
Definition to_dict (self : t) : PyVal.dict :=
  [(PyStr.lit "language",
    match language self with
    | Some code => PyVal.VStr code
    | None => PyVal.VNone
    end);
   (PyStr.lit "segments",
    PyVal.VList
      (map (fun segment => PyVal.VDict (TranscriptSegment.to_dict segment))
           (segments self)))].
End Transcript.

(* ================================================================== *)
(** * segmenter.py *)

Module Segmenter.

Import PyStr PyList.

(** [not segment.words]: the field is [None] or an empty list. *)
Definition not_words (ws : option (list WordTimestamp.t)) : bool :=
  match ws with
  | None => true
  | Some [] => true
  | Some (_ :: _) => false
  end.

(** [[w for w in segment.words if w.word.strip()]] *)
Definition nonblank (w : WordTimestamp.t) : bool :=
  truthy (strip (WordTimestamp.word w)).

Definition filtered_words (ws : option (list WordTimestamp.t))
  : list WordTimestamp.t :=
  match ws with
  | None => []
  | Some l => filter nonblank l
  end.

(** The body of the inner loop (lines 41-53), for one index [i]. *)
Definition chunk_segment (words : list WordTimestamp.t) (max_words i : Z)
  : result TranscriptSegment.t :=
  let chunk := slice words i (i + max_words) in
  first <- getitem chunk 0 ;;
  last <- getitem chunk (-1) ;;
  let start := WordTimestamp.start first in
  let end_ := WordTimestamp.end_ last in
  let text :=
    strip (join (lit " ") (map (fun w => strip (WordTimestamp.word w)) chunk)) in
  Return (TranscriptSegment.mk start end_ text (Some chunk)).

(** The inner loop [for i in range(0, len(words), max_words)], appending to
    [split_segments]. *)
Fixpoint for_chunks (words : list WordTimestamp.t) (max_words : Z)
  (indices : list Z) (split_segments : list TranscriptSegment.t)
  : result (list TranscriptSegment.t) :=
  match indices with
  | [] => Return split_segments
  | i :: indices' =>
      s <- chunk_segment words max_words i ;;
      for_chunks words max_words indices' (split_segments ++ [s])
  end.

(** The body of the outer loop (lines 31-53) for one [segment]: the new value
    of [split_segments], or the exception raised. *)
Definition segment_body (segment : TranscriptSegment.t) (max_words : Z)
  (split_segments : list TranscriptSegment.t)
  : result (list TranscriptSegment.t) :=
  if not_words (TranscriptSegment.words segment)
  then Raise MissingWordTimestamps
  else
    let words := filtered_words (TranscriptSegment.words segment) in
    match words with
    | [] => Return split_segments
    | _ :: _ =>
        indices <- range 0 (len words) max_words ;;
        for_chunks words max_words indices split_segments
    end.

(** The outer loop [for segment in segments]. *)
Fixpoint for_segments (segments : list TranscriptSegment.t) (max_words : Z)
  (split_segments : list TranscriptSegment.t)
  : result (list TranscriptSegment.t) :=
  match segments with
  | [] => Return split_segments
  | segment :: segments' =>
      split_segments' <- segment_body segment max_words split_segments ;;
      for_segments segments' max_words split_segments'
  end.

Definition split_segments_by_max_words
  (segments : list TranscriptSegment.t) (max_words : Z)
  : result (list TranscriptSegment.t) :=
  if max_words <=? 0 then Raise InvalidArgument
  else for_segments segments max_words [].

(** [produced_by max_words segment outs]: [outs] are the segments one
    iteration of the outer loop appends for [segment], whatever was collected
    before. *)
Definition produced_by (max_words : Z) (segment : TranscriptSegment.t)
  (outs : list TranscriptSegment.t) : Prop :=
  forall split_segments,
    segment_body segment max_words split_segments
    = Return (split_segments ++ outs).

(** The word list of a segment, empty when the field is [None]. *)
Definition words_of (s : TranscriptSegment.t) : list WordTimestamp.t :=
  match TranscriptSegment.words s with
  | None => []
  | Some l => l
  end.

End Segmenter.

(* ================================================================== *)
(** * formatters.py *)

Module Formatters.

Import PyStr.

(** [str(n)] for a non-negative int: its decimal digits. *)
Definition decimal (n : N) : str :=
  lit (DecimalString.NilEmpty.string_of_uint (N.to_uint n)).

(** [f"{z:0<width>d}"]: sign, then the digits padded with zeros on the left
    up to [width] characters in all. *)
Definition format_d (width : nat) (z : Z) : str :=
  let sign := if z <? 0 then lit "-" else [] in
  let digits := decimal (Z.to_N (Z.abs z)) in
  let fill := (width - List.length sign - List.length digits)%nat in
  sign ++ repeat 48%N fill ++ digits.

(** The f-string [f"{hours:02d}:{minutes:02d}:{secs:02d},{milliseconds:03d}"]. *)
Definition srt_time_string (hours minutes secs milliseconds : Z) : str :=
  format_d 2 hours ++ lit ":" ++ format_d 2 minutes ++ lit ":"
  ++ format_d 2 secs ++ lit "," ++ format_d 3 milliseconds.

(** [TranscriptFormatter._seconds_to_srt_time] *)
Definition _seconds_to_srt_time (seconds : PyFloat.float) : result str :=
  h <- PyFloat.floor_div seconds (PyFloat.of_int 3600) ;;
  let hours := PyFloat.to_int h in
  r <- PyFloat.rem seconds (PyFloat.of_int 3600) ;;
  m <- PyFloat.floor_div r (PyFloat.of_int 60) ;;
  let minutes := PyFloat.to_int m in
  s <- PyFloat.rem seconds (PyFloat.of_int 60) ;;
  let secs := PyFloat.to_int s in
  f <- PyFloat.rem seconds (PyFloat.of_int 1) ;;
  let milliseconds := PyFloat.to_int (PyFloat.mul f (PyFloat.of_int 1000)) in
  Return (srt_time_string hours minutes secs milliseconds).

(** The four lines [format_srt] appends for one segment. *)
Definition srt_entry (index : Z) (segment : TranscriptSegment.t)
  : result (list str) :=
  start_time <- _seconds_to_srt_time (TranscriptSegment.start segment) ;;
  end_time <- _seconds_to_srt_time (TranscriptSegment.end_ segment) ;;
  Return [format_d 0 index;
          start_time ++ lit " --> " ++ end_time;
          TranscriptSegment.text segment;
          []].

(** The loop [for index, segment in enumerate(transcript.segments, start=1)],
    appending to [srt_lines]; [index] is the number of the next segment. *)
Fixpoint srt_loop (index : Z) (segments : list TranscriptSegment.t)
  (srt_lines : list str) : result (list str) :=
  match segments with
  | [] => Return srt_lines
  | segment :: segments' =>
      entry <- srt_entry index segment ;;
      srt_loop (index + 1) segments' (srt_lines ++ entry)
  end.

(** [TranscriptFormatter.format_srt] *)
Definition format_srt (transcript : Transcript.t) : result str :=
  srt_lines <- srt_loop 1 (Transcript.segments transcript) [] ;;
  Return (join (lit (String (ascii_of_nat 10) EmptyString)) srt_lines).

End Formatters.

(* ================================================================== *)
(** * The SRT output as the specification words it *)

Module SrtSpec.

Import PyStr Formatters.

Definition newline : str := lit (String (ascii_of_nat 10) EmptyString).

(** The time stamp of [seconds]; [_seconds_to_srt_time] raises nothing on
    the finite numbers of this model. *)
Definition time_of (seconds : PyFloat.float) : str :=
  match _seconds_to_srt_time seconds with
  | Return s => s
  | Raise _ => []
  end.

(** The block [<index>\n<start> --> <end>\n<text>\n\n] of one segment. *)
Definition block (index : Z) (segment : TranscriptSegment.t) : str :=
  format_d 0 index ++ newline
  ++ time_of (TranscriptSegment.start segment) ++ lit " --> "
  ++ time_of (TranscriptSegment.end_ segment) ++ newline
  ++ TranscriptSegment.text segment ++ newline ++ newline.

(** The blocks of the segments, numbered from [index] on. *)
Fixpoint blocks (index : Z) (segments : list TranscriptSegment.t) : str :=
  match segments with
  | [] => []
  | segment :: segments' => block index segment ++ blocks (index + 1) segments'
  end.

End SrtSpec.

(* ================================================================== *)
(** * Sample data

    The scenario of the specification: one segment with the words
    [("a", 0.0, 0.5), ("b", 0.5, 1.0), ("c", 1.0, 1.5)], and variations of
    it. *)

Module Scenario.

Import PyStr.

Definition t00 : PyFloat.float := PyFloat.of_decimal 0 10.
Definition t05 : PyFloat.float := PyFloat.of_decimal 5 10.
Definition t10 : PyFloat.float := PyFloat.of_decimal 10 10.
Definition t15 : PyFloat.float := PyFloat.of_decimal 15 10.

Definition word_a : WordTimestamp.t := WordTimestamp.mk t00 t05 (lit "a").
Definition word_b : WordTimestamp.t := WordTimestamp.mk t05 t10 (lit " b").
Definition word_c : WordTimestamp.t := WordTimestamp.mk t10 t15 (lit "c").
Definition word_blank : WordTimestamp.t := WordTimestamp.mk t05 t05 (lit "  ").

Definition segment_abc : TranscriptSegment.t :=
  TranscriptSegment.mk t00 t15 (lit "a b c") (Some [word_a; word_b; word_c]).

(** A segment all of whose words are white space. *)
Definition segment_blank : TranscriptSegment.t :=
  TranscriptSegment.mk t05 t05 (lit "  ") (Some [word_blank; word_blank]).

(** A segment whose word list is present and empty. *)
Definition segment_empty : TranscriptSegment.t :=
  TranscriptSegment.mk t00 t05 (lit "hi") (Some []).

(** A segment without word data. *)
Definition segment_plain : TranscriptSegment.t :=
  TranscriptSegment.mk t00 t05 (lit "hi") None.

(** The transcript of the specification's JSON scenario:
    [Transcript(language=None, segments=[Segment(0.0, 1.2, "hi")])]. *)
Definition segment_hi : TranscriptSegment.t :=
  TranscriptSegment.mk t00 (PyFloat.of_decimal 12 10) (lit "hi") None.

Definition transcript_hi : Transcript.t := Transcript.mk [segment_hi] None.

(** A transcript in French with the text [café], whose last character is
    not an ASCII character. *)
Definition cafe : str := [99; 97; 102; 233]%N.

Definition word_cafe : WordTimestamp.t := WordTimestamp.mk t00 t05 cafe.

Definition segment_cafe : TranscriptSegment.t :=
  TranscriptSegment.mk t00 t05 cafe (Some [word_cafe]).

Definition transcript_cafe : Transcript.t :=
  Transcript.mk [segment_cafe; segment_hi] (Some (lit "fr")).

(** A transcript whose text holds a lone surrogate code point. *)
Definition transcript_surrogate : Transcript.t :=
  Transcript.mk [TranscriptSegment.mk t00 t05 [104; 55357]%N None] None.

End Scenario.

(* ================================================================== *)
(** * The splitter as the specification words it

    These definitions follow the specification's sentences, not the code;
    the theorems below compare the code with them. *)

Module SplitterSpec.

Import PyStr.

(** Consecutive groups of [n] elements, the final group holding the
    remainder. *)
Fixpoint chunks_fuel {A : Type} (fuel n : nat) (l : list A) : list (list A) :=
  match fuel with
  | O => []
  | S fuel' =>
      match l with
      | [] => []
      | _ :: _ => firstn n l :: chunks_fuel fuel' n (skipn n l)
      end
  end.

Definition chunks {A : Type} (n : nat) (l : list A) : list (list A) :=
  chunks_fuel (List.length l) n l.

(** The words of a segment that are not empty after trimming. *)
Definition kept_words (segment : TranscriptSegment.t) : list WordTimestamp.t :=
  match TranscriptSegment.words segment with
  | None => []
  | Some l =>
      filter (fun w => negb (Nat.eqb (List.length (strip (WordTimestamp.word w))) 0)) l
  end.

(** The trimmed texts of a chunk joined by a single space. *)
Definition chunk_text (chunk : list WordTimestamp.t) : str :=
  join (lit " ") (map (fun w => strip (WordTimestamp.word w)) chunk).

(** [describes chunk s]: segment [s] is the output segment of [chunk]. *)
Definition describes (chunk : list WordTimestamp.t) (s : TranscriptSegment.t)
  : Prop :=
  exists first last,
    hd_error chunk = Some first /\
    hd_error (rev chunk) = Some last /\
    TranscriptSegment.start s = WordTimestamp.start first /\
    TranscriptSegment.end_ s = WordTimestamp.end_ last /\
    TranscriptSegment.text s = chunk_text chunk /\
    TranscriptSegment.words s = Some chunk.

(** A segment lacks word data: the field is absent or holds no word. *)
Definition lacks_words (segment : TranscriptSegment.t) : Prop :=
  TranscriptSegment.words segment = None \/
  TranscriptSegment.words segment = Some [].

End SplitterSpec.

(* ================================================================== *)
(** * Time spans

    What the specification calls ordered, non-overlapping: every span ends
    no earlier than it starts and starts no earlier than the span before it
    ends. *)

Module TimeSpec.

Definition span : Type := (PyFloat.float * PyFloat.float)%type.

Definition word_span (w : WordTimestamp.t) : span :=
  (WordTimestamp.start w, WordTimestamp.end_ w).

Definition segment_span (s : TranscriptSegment.t) : span :=
  (TranscriptSegment.start s, TranscriptSegment.end_ s).

Fixpoint in_sequence (l : list span) : bool :=
  match l with
  | [] => true
  | x :: r =>
      (fst x <=? snd x)
      && match r with
         | [] => true
         | y :: _ => snd x <=? fst y
         end
      && in_sequence r
  end.

End TimeSpec.

(* ================================================================== *)
(** * Python numbers as text: [repr] and the number token of JSON *)

Module PyNum.

Import PyStr PyFloat.

Definition isdigit (c : char) : bool := ((48 <=? c) && (c <=? 57))%N.

(** The number a string of decimal digits stands for. *)
Definition digits_value (ds : str) : N :=
  fold_left (fun acc c => (10 * acc + (c - 48))%N) ds 0%N.

(** [int.__repr__] *)
Definition int_repr (z : Z) : str :=
  (if z <? 0 then lit "-" else []) ++ Formatters.decimal (Z.to_N (Z.abs z)).

(** The binary64 value nearest to [m * 10^e]: what [float()] makes of a
    decimal text with digits [m] and exponent [e]. *)
Definition of_sci (m e : Z) : float :=
  if 0 <=? e then round (m * 10 ^ e * one) 1 else round (m * one) (10 ^ (- e)).

(** [x < 10^d], for [x] in units. *)
Definition below_pow10 (x : float) (d : Z) : bool :=
  if 0 <=? d then x <? 10 ^ d * one else x * 10 ^ (- d) <? one.

(** The position of the decimal point of [x > 0]: the least [d] with
    [x < 10^d], found by counting up from 1 for [x >= 1] ([p] is [10^d]) and
    down from 0 for [x < 1] ([y] is [x * 10^(-d)]).  It lies between -323 and
    309 for a binary64 value. *)
Fixpoint decpt_up (fuel : nat) (x p d : Z) : Z :=
  match fuel with
  | O => d
  | S fuel' => if x <? p then d else decpt_up fuel' x (10 * p) (d + 1)
  end.

Fixpoint decpt_down (fuel : nat) (y d : Z) : Z :=
  match fuel with
  | O => d
  | S fuel' => if 10 * y <? one then decpt_down fuel' (10 * y) (d - 1) else d
  end.

Definition decpt (x : float) : Z :=
  if x <? one then decpt_down 330 x 0 else decpt_up 330 x (10 * one) 1.

(** [m * 10^e] without trailing zeros in [m]. *)
Fixpoint strip_zeros (fuel : nat) (m e : Z) : Z * Z :=
  match fuel with
  | O => (m, e)
  | S fuel' =>
      if (m mod 10 =? 0) && negb (m =? 0)
      then strip_zeros fuel' (m / 10) (e + 1)
      else (m, e)
  end.

(** The integer part of [x / 10^e]. *)
Definition floor_scaled (x : float) (e : Z) : Z :=
  if 0 <=? e then x / (10 ^ e * one) else x * 10 ^ (- e) / one.

(** [m * 10^e] reads back as [x]. *)
Definition reads_back (x : float) (c : Z * Z) : bool :=
  (0 <? fst c) && (of_sci (fst c) (snd c) =? x).

(** Of two candidates the one that passes [ok]; if both do, the first one
    when [first] holds and the second one otherwise. *)
Definition pick {A : Type} (ok : A -> bool) (a b : A) (first : bool)
  : option A :=
  if ok a && ok b then (if first then Some a else Some b)
  else if ok a then Some a
  else if ok b then Some b
  else None.

(** [x] is nearer to [lo * 10^e] than to [(lo + 1) * 10^e]; on a tie, [lo]
    is even. *)
Definition nearer_lo (x : float) (e lo : Z) : bool :=
  let twice := if 0 <=? e then 2 * x else 2 * x * 10 ^ (- e) in
  let mid := if 0 <=? e then (2 * lo + 1) * 10 ^ e * one
             else (2 * lo + 1) * one in
  match twice ?= mid with
  | Lt => true
  | Gt => false
  | Eq => Z.even lo
  end.

(** The decimal with [k] significant digits that reads back as [x], if there
    is one: of the two neighbours of [x] the one that reads back, the nearer
    one if both do (the even one on a tie). *)
Definition candidate (x : float) (k : Z) : option (Z * Z) :=
  let e := decpt x - k in
  let lo := floor_scaled x e in
  pick (reads_back x) (strip_zeros 20 lo e) (strip_zeros 20 (lo + 1) e)
       (nearer_lo x e lo).

(** The shortest decimal that reads back as [x > 0]: digits [m] and exponent
    [e] with value [m * 10^e].  Seventeen digits suffice for every binary64
    value; the exact decimal expansion of [x] stands after them only to make
    the function total. *)
Fixpoint shortest_from (x : float) (ks : list Z) : Z * Z :=
  match ks with
  | [] => (x * 5 ^ 1074, -1074)
  | k :: ks' =>
      match candidate x k with
      | Some c => c
      | None => shortest_from x ks'
      end
  end.

Definition shortest (x : float) : Z * Z :=
  shortest_from x [1; 2; 3; 4; 5; 6; 7; 8; 9; 10; 11; 12; 13; 14; 15; 16; 17].

(** [float.__repr__] of a positive number: fixed notation when the decimal
    point lies within [-3 .. 16] of the first digit, exponent notation
    otherwise. *)
Definition repr_pos (x : float) : str :=
  let (m, e) := shortest x in
  let ds := Formatters.decimal (Z.to_N m) in
  let n := Z.of_nat (List.length ds) in
  let dp := n + e in
  if (-4 <? dp) && (dp <=? 16)
  then
    if dp <=? 0 then lit "0." ++ repeat 48%N (Z.to_nat (- dp)) ++ ds
    else if n <=? dp then ds ++ repeat 48%N (Z.to_nat (dp - n)) ++ lit ".0"
    else firstn (Z.to_nat dp) ds ++ lit "." ++ skipn (Z.to_nat dp) ds
  else
    firstn 1 ds
    ++ (if 1 <? n then lit "." ++ skipn 1 ds else [])
    ++ lit "e" ++ (if dp - 1 <? 0 then lit "-" else lit "+")
    ++ Formatters.format_d 2 (Z.abs (dp - 1)).

(** [float.__repr__] *)
Definition float_repr (x : float) : str :=
  if x =? 0 then lit "0.0"
  else if x <? 0 then lit "-" ++ repr_pos (- x)
  else repr_pos x.

(** The longest prefix of digits, and the rest. *)
Fixpoint span_digits (s : str) : str * str :=
  match s with
  | [] => ([], [])
  | c :: r =>
      if isdigit c
      then let (ds, r') := span_digits r in (c :: ds, r')
      else ([], s)
  end.

Definition signed (neg : bool) (z : Z) : Z := if neg then - z else z.

(** The parts of a JSON number at the head of [s], as [NUMBER_RE] of
    [json.scanner] finds them: an optional minus sign; the integer digits,
    a single 0 or a digit from 1 to 9 followed by digits; optionally a dot
    and at least one fraction digit; optionally e or E, an optional sign and
    at least one exponent digit; and the text after the number. *)
Definition match_number (s : str)
  : option (bool * str * option str * option (bool * str) * str) :=
  let (neg, s1) :=
    match s with
    | c :: r => if (c =? 45)%N then (true, r) else (false, s)
    | [] => (false, s)
    end in
  match s1 with
  | [] => None
  | c :: r =>
      if isdigit c
      then
        let (int_ds, s2) :=
          if (c =? 48)%N then ([c], r) else span_digits s1 in
        let (frac, s3) :=
          match s2 with
          | p :: c' :: r' =>
              if (p =? 46)%N && isdigit c'
              then let (f, r'') := span_digits (c' :: r') in (Some f, r'')
              else (None, s2)
          | _ => (None, s2)
          end in
        let (ex, s4) :=
          match s3 with
          | ce :: r3 =>
              if (ce =? 101)%N || (ce =? 69)%N
              then
                let (eneg, r4) :=
                  match r3 with
                  | sg :: r' =>
                      if (sg =? 45)%N then (true, r')
                      else if (sg =? 43)%N then (false, r')
                      else (false, r3)
                  | [] => (false, r3)
                  end in
                match r4 with
                | c'' :: _ =>
                    if isdigit c''
                    then let (eds, r5) := span_digits r4 in
                         (Some (eneg, eds), r5)
                    else (None, s3)
                | [] => (None, s3)
                end
              else (None, s3)
          | [] => (None, s3)
          end in
        Some (neg, int_ds, frac, ex, s4)
      else None
  end.

(** The characters of a decimal numeral of the standard library. *)
Fixpoint uint_chars (d : Decimal.uint) : str :=
  match d with
  | Decimal.Nil => []
  | Decimal.D0 d' => 48%N :: uint_chars d'
  | Decimal.D1 d' => 49%N :: uint_chars d'
  | Decimal.D2 d' => 50%N :: uint_chars d'
  | Decimal.D3 d' => 51%N :: uint_chars d'
  | Decimal.D4 d' => 52%N :: uint_chars d'
  | Decimal.D5 d' => 53%N :: uint_chars d'
  | Decimal.D6 d' => 54%N :: uint_chars d'
  | Decimal.D7 d' => 55%N :: uint_chars d'
  | Decimal.D8 d' => 56%N :: uint_chars d'
  | Decimal.D9 d' => 57%N :: uint_chars d'
  end.

(** The text after a number ends it: it is empty or starts with a character
    that is no digit, dot or exponent letter. *)
Definition ends_number (rest : str) : Prop :=
  match rest with
  | [] => True
  | c :: _ => isdigit c = false /\ c <> 46%N /\ c <> 101%N /\ c <> 69%N
  end.

Definition not_digit_head (rest : str) : Prop :=
  match rest with
  | [] => True
  | c :: _ => isdigit c = false
  end.

(** The text of the integer digits of a number: a single 0, or digits the
    first of which is not 0. *)
Definition int_digits (ids : str) : Prop :=
  ids = [48%N] \/
  (exists c r, ids = c :: r /\ isdigit c = true /\ c <> 48%N /\
               Forall (fun c => isdigit c = true) r).

Definition frac_text (frac : option str) : str :=
  match frac with
  | Some f => 46%N :: f
  | None => []
  end.

Definition exp_text (ex : option (bool * str)) : str :=
  match ex with
  | Some (eneg, eds) => 101%N :: (if eneg then 45%N else 43%N) :: eds
  | None => []
  end.

Definition digits_nonempty (ds : str) : Prop :=
  ds <> [] /\ Forall (fun c => isdigit c = true) ds.

End PyNum.

(* ================================================================== *)
(** * The [json] module: [dumps(obj, indent=2, ensure_ascii=False)] and
      [loads] *)

Module Json.

Import PyStr PyVal PyNum.

Definition hex_digit (d : N) : char := (if d <? 10 then 48 + d else 87 + d)%N.

(** The replacement of one character in a JSON string ([ESCAPE_DCT] of
    [json.encoder]): the quote, the backslash and the control characters are
    escaped, every other character stands for itself. *)
Definition escape_char (c : char) : str :=
  (if c =? 34 then [92; 34]
   else if c =? 92 then [92; 92]
   else if c =? 10 then [92; 110]
   else if c =? 13 then [92; 114]
   else if c =? 9 then [92; 116]
   else if c =? 8 then [92; 98]
   else if c =? 12 then [92; 102]
   else if c <? 32 then [92; 117; 48; 48; hex_digit (c / 16); hex_digit (c mod 16)]
   else [c])%N.

(** [py_encode_basestring] *)
Definition encode_basestring (s : str) : str :=
  34%N :: flat_map escape_char s ++ [34%N].

Definition newline_indent (level : nat) : str :=
  10%N :: repeat 32%N (2 * level).

(** [_iterencode] of [json.encoder] with [indent=2], the output joined. *)
Fixpoint encode (level : nat) (o : value) : str :=
  match o with
  | VNone => lit "null"
  | VBool true => lit "true"
  | VBool false => lit "false"
  | VInt z => int_repr z
  | VFloat x => float_repr x
  | VStr s => encode_basestring s
  | VList [] => lit "[]"
  | VList (x :: l) =>
      lit "[" ++ newline_indent (S level) ++ encode (S level) x
      ++ concat (map (fun y => lit "," ++ newline_indent (S level)
                               ++ encode (S level) y) l)
      ++ newline_indent level ++ lit "]"
  | VDict [] => lit "{}"
  | VDict (kv :: d) =>
      lit "{" ++ newline_indent (S level)
      ++ encode_basestring (fst kv) ++ lit ": " ++ encode (S level) (snd kv)
      ++ concat (map (fun kv' => lit "," ++ newline_indent (S level)
                                 ++ encode_basestring (fst kv') ++ lit ": "
                                 ++ encode (S level) (snd kv')) d)
      ++ newline_indent level ++ lit "}"
  end.

(** [json.dumps(obj, indent=2, ensure_ascii=False)] *)
Definition dumps (obj : value) : str := encode 0 obj.

(** White space of JSON: space, tab, newline, carriage return. *)
Definition is_ws (c : char) : bool :=
  ((c =? 32) || (c =? 9) || (c =? 10) || (c =? 13))%N.

Fixpoint skip_ws (s : str) : str :=
  match s with
  | [] => []
  | c :: r => if is_ws c then skip_ws r else s
  end.

Definition hex_value (c : char) : option N :=
  (if (48 <=? c) && (c <=? 57) then Some (c - 48)
   else if (97 <=? c) && (c <=? 102) then Some (c - 87)
   else if (65 <=? c) && (c <=? 70) then Some (c - 55)
   else None)%N.

(** Four hexadecimal digits. *)
Definition decode_uXXXX (h1 h2 h3 h4 : char) : option N :=
  match hex_value h1, hex_value h2, hex_value h3, hex_value h4 with
  | Some a, Some b, Some c, Some d => Some (((a * 16 + b) * 16 + c) * 16 + d)%N
  | _, _, _, _ => None
  end.

(** The character a one-letter escape stands for ([BACKSLASH]). *)
Definition unescape (e : char) : option char :=
  (if e =? 34 then Some 34
   else if e =? 92 then Some 92
   else if e =? 47 then Some 47
   else if e =? 98 then Some 8
   else if e =? 102 then Some 12
   else if e =? 110 then Some 10
   else if e =? 114 then Some 13
   else if e =? 116 then Some 9
   else None)%N.

(** [scanstring] (strict): the text after an opening quote up to the closing
    one, escapes decoded, and the text after the closing quote. *)
Fixpoint scanstring (s : str) : result (str * str) :=
  match s with
  | [] => Raise (JSONDecodeError "Unterminated string starting at")
  | c :: r =>
      if (c =? 34)%N then Return ([], r)
      else if (c =? 92)%N then
        match r with
        | [] => Raise (JSONDecodeError "Unterminated string starting at")
        | e :: r1 =>
            if (e =? 117)%N then
              match r1 with
              | h1 :: h2 :: h3 :: h4 :: r2 =>
                  match decode_uXXXX h1 h2 h3 h4 with
                  | None => Raise (JSONDecodeError "Invalid \uXXXX escape")
                  | Some uni =>
                      let single :=
                        p <- scanstring r2 ;;
                        Return (uni :: fst p, snd p) in
                      if ((55296 <=? uni) && (uni <=? 56319))%N then
                        match r2 with
                        | b :: u :: g1 :: g2 :: g3 :: g4 :: r3 =>
                            if ((b =? 92) && (u =? 117))%N then
                              match decode_uXXXX g1 g2 g3 g4 with
                              | None =>
                                  Raise (JSONDecodeError "Invalid \uXXXX escape")
                              | Some uni2 =>
                                  if ((56320 <=? uni2) && (uni2 <=? 57343))%N
                                  then
                                    p <- scanstring r3 ;;
                                    Return
                                      ((65536 + ((uni - 55296) * 1024
                                                 + (uni2 - 56320)))%N :: fst p,
                                       snd p)
                                  else single
                              end
                            else single
                        | _ => single
                        end
                      else single
                  end
              | _ => Raise (JSONDecodeError "Invalid \uXXXX escape")
              end
            else
              match unescape e with
              | None => Raise (JSONDecodeError "Invalid \escape")
              | Some ch =>
                  p <- scanstring r1 ;;
                  Return (ch :: fst p, snd p)
              end
        end
      else if (c <? 32)%N then
        Raise (JSONDecodeError "Invalid control character at")
      else
        p <- scanstring r ;;
        Return (c :: fst p, snd p)
  end.

(** The value of a number token: an [int] when it has neither fraction nor
    exponent, a [float] otherwise. *)
Definition number_value (neg : bool) (int_ds : str) (frac : option str)
  (ex : option (bool * str)) : value :=
  match frac, ex with
  | None, None => VInt (signed neg (Z.of_N (digits_value int_ds)))
  | _, _ =>
      let fr := match frac with Some f => f | None => [] end in
      let e10 :=
        match ex with
        | Some (eneg, eds) => signed eneg (Z.of_N (digits_value eds))
        | None => 0
        end in
      VFloat (signed neg
                (of_sci (Z.of_N (digits_value (int_ds ++ fr)))
                        (e10 - Z.of_nat (List.length fr))))
  end.

(** What the number token of a float stands for. *)
Definition float_parts (neg : bool) (ids : str) (frac : option str)
  (ex : option (bool * str)) (x : PyFloat.float) : Prop :=
  int_digits ids /\
  match frac with Some f => digits_nonempty f | None => True end /\
  match ex with Some (_, eds) => digits_nonempty eds | None => True end /\
  number_value neg ids frac ex = VFloat x.

Definition starts_with (c : char) (s : str) : bool :=
  match s with
  | c' :: _ => (c' =? c)%N
  | [] => false
  end.

(** The text after the prefix [p] of [s], if [s] starts with [p]. *)
Fixpoint strip_prefix (p s : str) : option str :=
  match p, s with
  | [], _ => Some s
  | a :: p', b :: s' => if (a =? b)%N then strip_prefix p' s' else None
  | _ :: _, [] => None
  end.

Definition expecting_value : exn := JSONDecodeError "Expecting value".
Definition expecting_comma : exn := JSONDecodeError "Expecting ',' delimiter".
Definition expecting_colon : exn := JSONDecodeError "Expecting ':' delimiter".
Definition expecting_name : exn :=
  JSONDecodeError "Expecting property name enclosed in double quotes".

(** [scan_once], [JSONArray] and [JSONObject] of [json.decoder]; the text is
    consumed from the left and [fuel] bounds the number of values read.  The
    literals [NaN], [Infinity] and [-Infinity] stand for floats that are not
    finite, which this model does not hold. *)
Fixpoint scan_once (fuel : nat) (s : str) : result (value * str) :=
  match fuel with
  | O => Raise (NotModelled "out of fuel")
  | S fuel' =>
      match s with
      | [] => Raise expecting_value
      | c :: r =>
          if (c =? 34)%N then
            p <- scanstring r ;; Return (VStr (fst p), snd p)
          else if (c =? 123)%N then
            let s1 := if starts_with 34%N r then r else skip_ws r in
            match s1 with
            | [] => Raise expecting_name
            | c1 :: r1 =>
                if (c1 =? 125)%N then Return (VDict [], r1)
                else if (c1 =? 34)%N then object_items fuel' r1 []
                else Raise expecting_name
            end
          else if (c =? 91)%N then
            let s1 := skip_ws r in
            if starts_with 93%N s1 then Return (VList [], tl s1)
            else array_items fuel' s1 []
          else
            match strip_prefix (lit "null") s with
            | Some r4 => Return (VNone, r4)
            | None =>
            match strip_prefix (lit "true") s with
            | Some r4 => Return (VBool true, r4)
            | None =>
            match strip_prefix (lit "false") s with
            | Some r5 => Return (VBool false, r5)
            | None =>
            match match_number s with
            | Some (neg, int_ds, frac, ex, rest) =>
                Return (number_value neg int_ds frac ex, rest)
            | None =>
                if (c =? 78)%N || (c =? 73)%N || (c =? 45)%N
                then Raise (NotModelled "NaN, Infinity or an error")
                else Raise expecting_value
            end end end end
      end
  end

with array_items (fuel : nat) (s : str) (values : list value)
  : result (value * str) :=
  match fuel with
  | O => Raise (NotModelled "out of fuel")
  | S fuel' =>
      p <- scan_once fuel' s ;;
      let values' := values ++ [fst p] in
      match skip_ws (snd p) with
      | [] => Raise expecting_comma
      | c :: r =>
          if (c =? 93)%N then Return (VList values', r)
          else if (c =? 44)%N then array_items fuel' (skip_ws r) values'
          else Raise expecting_comma
      end
  end

with object_items (fuel : nat) (s : str) (pairs : dict)
  : result (value * str) :=
  match fuel with
  | O => Raise (NotModelled "out of fuel")
  | S fuel' =>
      k <- scanstring s ;;
      let s1 := if starts_with 58%N (snd k) then snd k else skip_ws (snd k) in
      match s1 with
      | [] => Raise expecting_colon
      | c :: r =>
          if (c =? 58)%N then
            p <- scan_once fuel' (skip_ws r) ;;
            let pairs' := dict_set (fst k) (fst p) pairs in
            match skip_ws (snd p) with
            | [] => Raise expecting_comma
            | c1 :: r1 =>
                if (c1 =? 125)%N then Return (VDict pairs', r1)
                else if (c1 =? 44)%N then
                  match skip_ws r1 with
                  | [] => Raise expecting_name
                  | c2 :: r2 =>
                      if (c2 =? 34)%N then object_items fuel' r2 pairs'
                      else Raise expecting_name
                  end
                else Raise expecting_comma
            end
          else Raise expecting_colon
      end
  end.

(** [json.loads] *)
Definition loads (s : str) : result value :=
  p <- scan_once (S (List.length s)) (skip_ws s) ;;
  match skip_ws (snd p) with
  | [] => Return (fst p)
  | _ :: _ => Raise (JSONDecodeError "Extra data")
  end.

(** No key stands twice in [ks]. *)
Fixpoint distinct (ks : list str) : bool :=
  match ks with
  | [] => true
  | k :: r => negb (existsb (str_eqb k) r) && distinct r
  end.

(** The values the round trip is stated for: every float is a binary64
    value and the keys of every dict are distinct, as those of a Python dict
    are. *)
Fixpoint well_formed (v : value) : bool :=
  match v with
  | VFloat x => PyFloat.is_binary64 x
  | VList l => forallb well_formed l
  | VDict d => distinct (map fst d) && forallb (fun kv => well_formed (snd kv)) d
  | _ => true
  end.

(** [scan_once] reads the text of [v], at every level of indentation and
    before every text that ends a number, as [v], given fuel for the length
    of the text. *)
Definition scanned_back (v : value) : Prop :=
  forall (level fuel : nat) (rest : str),
    (List.length (encode level v) <= fuel)%nat -> ends_number rest ->
    scan_once fuel (encode level v ++ rest) = Return (v, rest).

End Json.

(* ================================================================== *)
(** * formatters.py: the JSON side *)

Module JsonFormatter.

(** [TranscriptFormatter.format_json] *)
Definition format_json (transcript : Transcript.t) : PyStr.str :=
  Json.dumps (PyVal.VDict (Transcript.to_dict transcript)).

End JsonFormatter.

(* ================================================================== *)
(** * The JSON text as the specification words it

    These definitions follow the specification's sentences, not the code:
    indented JSON text with two spaces for every level of nesting, and text
    that stands in the output as it is. *)

Module JsonSpec.

Import PyStr PyVal.

(** A new line followed by [n] spaces. *)
Definition line (n : nat) : str := 10%N :: repeat 32%N n.

(** A text between double quotes, as it is. *)
Definition quoted (s : str) : str := 34%N :: s ++ [34%N].

(** A member of an object: the key between quotes, a colon, a space and
    the text of the value. *)
Definition member (key : string) (text : str) : str :=
  quoted (lit key) ++ lit ": " ++ text.

(** An array or object at nesting depth [depth]: every item on a line of
    its own, two spaces deeper than the brackets; the closing bracket on a
    line of its own; nothing between the brackets when there is no item. *)
Definition block (opening closing : char) (depth : nat) (items : list str)
  : str :=
  match items with
  | [] => [opening; closing]
  | i :: l =>
      [opening] ++ line (2 * S depth) ++ i
      ++ concat (map (fun j => 44%N :: line (2 * S depth) ++ j) l)
      ++ line (2 * depth) ++ [closing]
  end.

Definition word_text (depth : nat) (w : WordTimestamp.t) : str :=
  block 123%N 125%N depth
    [member "start" (PyNum.float_repr (WordTimestamp.start w));
     member "end" (PyNum.float_repr (WordTimestamp.end_ w));
     member "word" (Json.encode_basestring (WordTimestamp.word w))].

Definition segment_text (depth : nat) (s : TranscriptSegment.t) : str :=
  block 123%N 125%N depth
    ([member "start" (PyNum.float_repr (TranscriptSegment.start s));
      member "end" (PyNum.float_repr (TranscriptSegment.end_ s));
      member "text" (Json.encode_basestring (TranscriptSegment.text s))]
     ++ match TranscriptSegment.words s with
        | Some ws =>
            [member "words"
               (block 91%N 93%N (S depth) (map (word_text (S (S depth))) ws))]
        | None => []
        end).

Definition transcript_text (t : Transcript.t) : str :=
  block 123%N 125%N 0
    [member "language"
       match Transcript.language t with
       | Some code => Json.encode_basestring code
       | None => lit "null"
       end;
     member "segments"
       (block 91%N 93%N 1 (map (segment_text 2) (Transcript.segments t)))].

(** A character that is no control character, quote or backslash. *)
Definition literal (c : char) : bool :=
  ((32 <=? c) && negb (c =? 34) && negb (c =? 92))%N.

(** [a] stands somewhere in [b]. *)
Definition within (a b : str) : Prop :=
  exists pre post, b = pre ++ a ++ post.

(** The times of a transcript are binary64 values. *)
Definition binary64_word (w : WordTimestamp.t) : bool :=
  PyFloat.is_binary64 (WordTimestamp.start w)
  && PyFloat.is_binary64 (WordTimestamp.end_ w).

Definition binary64_segment (s : TranscriptSegment.t) : bool :=
  PyFloat.is_binary64 (TranscriptSegment.start s)
  && PyFloat.is_binary64 (TranscriptSegment.end_ s)
  && match TranscriptSegment.words s with
     | Some ws => forallb binary64_word ws
     | None => true
     end.

Definition binary64_times (t : Transcript.t) : bool :=
  forallb binary64_segment (Transcript.segments t).

End JsonSpec.

(* ================================================================== *)
(** * formatters.py: [OutputFormat], [format] and [save_to_file] *)

Module OutputFormat.

(** The members of the enumeration. *)
Inductive t : Type := JSON | SRT.

End OutputFormat.

(** Files by path.  A file holds the text that was written to it; whether a
    path can be opened for writing is the environment's matter. *)
Module FileSystem.

Import PyStr.

Record t : Type := mk {
  read : str -> option str;
  writable : str -> bool
}.

Definition update (fs : t) (path content : str) : t :=
  mk (fun p => if PyVal.str_eqb p path then Some content else read fs p)
     (writable fs).

(** [open(path, "w", encoding="utf-8")]: the file is created, or emptied
    when it exists. *)
Definition open_w (path : str) (fs : t) : result unit * t :=
  if writable fs path then (Return tt, update fs path [])
  else (Raise (OSError "cannot open the file for writing"), fs).

(** A surrogate code point, which UTF-8 does not encode. *)
Definition surrogate (c : char) : bool := ((55296 <=? c) && (c <=? 57343))%N.

Definition encodable (s : str) : bool := forallb (fun c => negb (surrogate c)) s.

(** [f.write(content)] on a file opened for writing: the text is encoded
    when it is written, and added to what the file holds. *)
Definition write (path content : str) (fs : t) : result unit * t :=
  if encodable content
  then (Return tt,
        update fs path
          (match read fs path with Some old => old | None => [] end ++ content))
  else (Raise (UnicodeEncodeError "surrogates not allowed"), fs).

End FileSystem.

Module TranscriptFormatter.

Import PyStr.

(** What a caller passes as [output_format]: a member of [OutputFormat], or
    some other object, of which only its [str()] is looked at. *)
Inductive format_arg : Type :=
| Member (f : OutputFormat.t)
| Other (shown : string).

(** [output_format == OutputFormat.X] *)
Definition is_member (a : format_arg) (f : OutputFormat.t) : bool :=
  match a, f with
  | Member OutputFormat.JSON, OutputFormat.JSON => true
  | Member OutputFormat.SRT, OutputFormat.SRT => true
  | _, _ => false
  end.

(** [str(output_format)] *)
Definition shown_as (a : format_arg) : string :=
  match a with
  | Member OutputFormat.JSON => "OutputFormat.JSON"
  | Member OutputFormat.SRT => "OutputFormat.SRT"
  | Other shown => shown
  end.

(** [TranscriptFormatter.format] *)
Definition format (transcript : Transcript.t) (output_format : format_arg)
  : result str :=
  if is_member output_format OutputFormat.JSON
  then Return (JsonFormatter.format_json transcript)
  else if is_member output_format OutputFormat.SRT
  then Formatters.format_srt transcript
  else Raise (ValueError (String.append "Unsupported output format: "
                                        (shown_as output_format))).

(** [TranscriptFormatter.save_to_file]: the exception raised, if any, and
    the files afterwards. *)
Definition save_to_file (transcript : Transcript.t) (output_path : str)
  (output_format : format_arg) (fs : FileSystem.t)
  : result unit * FileSystem.t :=
  match format transcript output_format with
  | Raise e => (Raise e, fs)
  | Return content =>
      match FileSystem.open_w output_path fs with
      | (Raise e, fs') => (Raise e, fs')
      | (Return _, fs') => FileSystem.write output_path content fs'
      end
  end.

End TranscriptFormatter.

(** Sample files: every path can be opened, and every file holds [old]. *)
Module FileScenario.

Definition old_files : FileSystem.t :=
  FileSystem.mk (fun _ => Some (PyStr.lit "old")) (fun _ => true).

Definition out_json : PyStr.str := PyStr.lit "out.json".

End FileScenario.

(* ================================================================== *)
(** * Properties *)

(** ** Strings *)

Section StrFacts.

Import PyStr.

Lemma lstrip_head_not_space (s : str) (c : char) (r : str) :
  lstrip s = c :: r -> isspace c = false.
Proof.
  induction s as [|a s IH]; simpl; [discriminate|].
  destruct (isspace a) eqn:E; [exact IH|].
  intros H; injection H as -> _; exact E.
Qed.

Lemma lstrip_id (s : str) (a : char) :
  hd_error s = Some a -> isspace a = false -> lstrip s = s.
Proof.
  destruct s as [|c r]; simpl; [discriminate|].
  intros [= ->] H; now rewrite H.
Qed.

Lemma lstrip_suffix (s : str) : exists p, s = p ++ lstrip s.
Proof.
  induction s as [|a s [p IH]]; simpl.
  - now exists [].
  - destruct (isspace a).
    + exists (a :: p); simpl; now f_equal.
    + now exists [].
Qed.

Lemma hd_error_app {A : Type} (l r : list A) (a : A) :
  hd_error l = Some a -> hd_error (l ++ r) = Some a.
Proof. destruct l; simpl; [discriminate | auto]. Qed.

Lemma strip_trimmed (s : str) : strip s <> [] -> trimmed (strip s).
Proof.
  unfold strip, rstrip; intros Hne.
  destruct (lstrip (rev (lstrip s))) as [|b t] eqn:E1; [now elim Hne|].
  pose proof (lstrip_head_not_space _ _ _ E1) as Hb.
  destruct (lstrip_suffix (rev (lstrip s))) as [p Hp].
  rewrite E1 in Hp.
  assert (Hs : lstrip s = rev (b :: t) ++ rev p).
  { now rewrite <- (rev_involutive (lstrip s)), Hp, rev_app_distr. }
  split.
  - destruct (rev (b :: t)) as [|a u] eqn:E2; [now elim Hne|].
    exists a; split; [reflexivity|].
    simpl in Hs; now apply lstrip_head_not_space in Hs.
  - exists b; rewrite rev_involutive; now split.
Qed.

Lemma strip_of_trimmed (p : str) : trimmed p -> strip p = p.
Proof.
  intros [[a [Ha Sa]] [b [Hb Sb]]]; unfold strip, rstrip.
  rewrite (lstrip_id p a Ha Sa), (lstrip_id (rev p) b Hb Sb).
  apply rev_involutive.
Qed.

Lemma join_cons2 (sep p q : str) (ps : list str) :
  join sep (p :: q :: ps) = p ++ sep ++ join sep (q :: ps).
Proof. reflexivity. Qed.

Lemma join_trimmed (sep : str) (parts : list str) :
  parts <> [] -> Forall trimmed parts -> trimmed (join sep parts).
Proof.
  induction parts as [|p ps IH]; [congruence|].
  intros _ HF; inversion HF as [|? ? Hp Hps]; subst.
  destruct ps as [|q ps]; [exact Hp|].
  rewrite join_cons2.
  destruct Hp as [[a [Ha Sa]] _].
  destruct (IH ltac:(discriminate) Hps) as [_ [b [Hb Sb]]].
  split.
  - exists a; split; [now apply hd_error_app | exact Sa].
  - exists b; split; [|exact Sb].
    rewrite !rev_app_distr, <- app_assoc. now apply hd_error_app.
Qed.

End StrFacts.

(** ** Lists: indexing, slicing, range *)

Section ListFacts.

Import PyList.

Context {A : Type}.

Lemma len_nonneg (l : list A) : 0 <= len l.
Proof. unfold len; lia. Qed.

(** A slice with non-negative bounds is a prefix of a suffix. *)
Lemma slice_nonneg (l : list A) (lo d : Z) :
  0 <= lo -> 0 <= d ->
  slice l lo (lo + d) = firstn (Z.to_nat d) (skipn (Z.to_nat lo) l).
Proof.
  intros Hlo Hd; unfold slice, clamp.
  pose proof (len_nonneg l) as Hn.
  destruct (Z.ltb_spec lo 0); [lia|].
  destruct (Z.ltb_spec (lo + d) 0); [lia|].
  destruct (Z.le_gt_cases (len l) lo) as [Hbig|Hsmall].
  - rewrite (skipn_all2 l) by (unfold len in *; lia).
    rewrite Z.min_r by lia.
    rewrite (skipn_all2 l) by (unfold len in *; lia).
    now rewrite !firstn_nil.
  - rewrite (Z.min_l lo) by lia.
    destruct (Z.le_gt_cases (lo + d) (len l)).
    + rewrite Z.min_l by lia. f_equal; lia.
    + rewrite Z.min_r by lia.
      rewrite !firstn_all2; auto; rewrite length_skipn; unfold len in *; lia.
Qed.

Lemma getitem_first (a : A) (l : list A) : getitem (a :: l) 0 = Return a.
Proof.
  unfold getitem, len; simpl Z.ltb; cbv iota.
  destruct (Z.leb_spec (Z.of_nat (List.length (a :: l))) 0) as [H|H].
  - simpl in H; lia.
  - reflexivity.
Qed.

Lemma getitem_last (l : list A) (b : A) :
  hd_error (rev l) = Some b -> getitem l (-1) = Return b.
Proof.
  intros H.
  assert (Hl : l = rev (tl (rev l)) ++ [b]).
  { rewrite <- (rev_involutive l) at 1.
    destruct (rev l) as [|c r]; [discriminate|].
    injection H as ->; reflexivity. }
  set (p := rev (tl (rev l))) in *.
  rewrite Hl; unfold getitem, len.
  rewrite length_app; simpl List.length.
  change (-1 <? 0) with true; cbv iota.
  destruct (Z.ltb_spec (-1 + Z.of_nat (List.length p + 1)) 0); [lia|].
  destruct (Z.leb_spec (Z.of_nat (List.length p + 1))
              (-1 + Z.of_nat (List.length p + 1))); [lia|].
  simpl orb; cbv iota.
  replace (Z.to_nat (-1 + Z.of_nat (List.length p + 1))) with (List.length p) by lia.
  now rewrite nth_error_app2, Nat.sub_diag by lia.
Qed.

Lemma range_positive (n : nat) (m : Z) :
  0 < m ->
  range 0 (Z.of_nat n) m =
  Return (map (fun k => Z.of_nat k * m) (seq 0 (range_count n (Z.to_nat m)))).
Proof.
  intros Hm; unfold range.
  destruct (Z.eqb_spec m 0); [lia|].
  destruct (Z.ltb_spec 0 m); [|lia].
  f_equal.
  assert (Hc : Z.to_nat (if 0 <? Z.of_nat n
                         then (Z.of_nat n - 0 - 1) / m + 1 else 0)
               = range_count n (Z.to_nat m)).
  { destruct n as [|n']; [reflexivity|].
    destruct (Z.ltb_spec 0 (Z.of_nat (S n'))); [|lia].
    unfold range_count.
    replace (Z.of_nat (S n') - 0 - 1) with (Z.of_nat n') by lia.
    rewrite <- (Z2Nat.id m) at 1 by lia.
    rewrite <- Nat2Z.inj_div. lia. }
  rewrite Hc. apply map_ext; intros k; lia.
Qed.

End ListFacts.

(** ** Chunks *)

Section ChunkFacts.

Import SplitterSpec.
Local Open Scope nat_scope.

Context {A : Type}.

Lemma chunks_fuel_enough (n : nat) :
  0 < n -> forall (fuel fuel' : nat) (l : list A),
  List.length l <= fuel -> List.length l <= fuel' ->
  chunks_fuel fuel n l = chunks_fuel fuel' n l.
Proof.
  intros Hn; induction fuel as [|fuel IH]; intros fuel' l H1 H2.
  - destruct l; [|simpl in H1; lia]. destruct fuel'; reflexivity.
  - destruct fuel' as [|fuel']; [destruct l; [reflexivity | simpl in H2; lia]|].
    simpl; destruct l as [|a l]; [reflexivity|].
    f_equal; apply IH; rewrite length_skipn;
      cbn [List.length] in *; lia.
Qed.

Lemma chunks_nil (n : nat) : chunks n (@nil A) = [].
Proof. reflexivity. Qed.

Lemma chunks_cons (n : nat) (a : A) (l : list A) :
  0 < n ->
  chunks n (a :: l) = firstn n (a :: l) :: chunks n (skipn n (a :: l)).
Proof.
  intros Hn; unfold chunks at 1; simpl chunks_fuel.
  f_equal; unfold chunks; apply chunks_fuel_enough; auto.
  - destruct n; [lia|]; simpl; rewrite length_skipn; lia.
Qed.

(** Induction along the chunks of a list. *)
Lemma chunks_ind (n : nat) (Hn : 0 < n) (P : list A -> Prop) :
  P [] ->
  (forall a l, P (skipn n (a :: l)) -> P (a :: l)) ->
  forall l, P l.
Proof.
  intros H0 Hs l.
  remember (List.length l) as k eqn:Hk.
  revert l Hk; induction k as [k IH] using lt_wf_ind; intros l Hk.
  destruct l as [|a l]; [exact H0|].
  apply Hs, (IH (List.length (skipn n (a :: l)))); [|reflexivity].
  rewrite length_skipn; cbn [List.length] in *; lia.
Qed.

(** The chunks, concatenated, are the list. *)
Lemma concat_chunks (n : nat) (l : list A) : 0 < n -> concat (chunks n l) = l.
Proof.
  intros Hn; induction l as [|a l IH] using (chunks_ind n Hn); [reflexivity|].
  rewrite chunks_cons by exact Hn; cbn [concat].
  rewrite IH; apply firstn_skipn.
Qed.

(** No chunk is empty and none holds more than [n] elements. *)
Lemma chunks_bounds (n : nat) (l : list A) :
  0 < n -> Forall (fun c => 1 <= List.length c <= n) (chunks n l).
Proof.
  intros Hn; induction l as [|a l IH] using (chunks_ind n Hn); [constructor|].
  rewrite chunks_cons by exact Hn; constructor; [|exact IH].
  rewrite length_firstn; simpl; lia.
Qed.

(** Every chunk but the last holds exactly [n] elements. *)
Lemma chunks_full (n : nat) (l : list A) :
  0 < n -> forall pre c post,
  chunks n l = pre ++ c :: post -> post <> [] -> List.length c = n.
Proof.
  intros Hn; induction l as [|a l IH] using (chunks_ind n Hn);
    intros pre c post Heq Hpost.
  - destruct pre; discriminate.
  - rewrite chunks_cons in Heq by exact Hn.
    destruct pre as [|c0 pre]; simpl in Heq; injection Heq as Hc Hrest.
    + subst c. rewrite length_firstn.
      destruct (skipn n (a :: l)) as [|b r] eqn:E.
      * rewrite chunks_nil in Hrest. now subst post.
      * assert (List.length (skipn n (a :: l)) >= 1) by (rewrite E; simpl; lia).
        rewrite length_skipn in *; lia.
    + eapply IH; eauto.
Qed.

(** The chunks are the slices the splitter's loop takes. *)
Lemma chunks_slices (n : nat) (l : list A) :
  0 < n ->
  chunks n l =
  map (fun k => firstn n (skipn (k * n) l))
      (seq 0 (PyList.range_count (List.length l) n)).
Proof.
  intros Hn; induction l as [|a l IH] using (chunks_ind n Hn); [reflexivity|].
  rewrite chunks_cons by exact Hn; rewrite IH; clear IH.
  rewrite length_skipn.
  cbn [PyList.range_count List.length].
  cbn [seq map]; f_equal.
  rewrite <- seq_shift, map_map.
  destruct (Nat.le_gt_cases (S (List.length l)) n) as [Hle|Hgt].
  - replace (S (List.length l) - n)%nat with 0%nat by lia.
    rewrite Nat.div_small by lia. reflexivity.
  - replace (PyList.range_count (S (List.length l) - n) n)
      with (List.length l / n)%nat.
    + apply map_ext; intros k. rewrite skipn_skipn. do 2 f_equal; lia.
    + destruct (S (List.length l) - n)%nat as [|d] eqn:E; [lia|].
      cbn [PyList.range_count].
      replace (List.length l) with (d + 1 * n)%nat by lia.
      rewrite Nat.div_add by lia. lia.
Qed.

End ChunkFacts.

(** ** The splitter's loops *)

Section SplitterFacts.

Import PyStr PyList Segmenter SplitterSpec.

Lemma nonblank_kept (w : WordTimestamp.t) :
  nonblank w = negb (Nat.eqb (List.length (strip (WordTimestamp.word w))) 0).
Proof. unfold nonblank; now destruct (strip (WordTimestamp.word w)). Qed.

Lemma filtered_kept (segment : TranscriptSegment.t) :
  filtered_words (TranscriptSegment.words segment) = kept_words segment.
Proof.
  unfold filtered_words, kept_words.
  destruct (TranscriptSegment.words segment); [|reflexivity].
  apply filter_ext, nonblank_kept.
Qed.

Lemma Forall_slice {A : Type} (P : A -> Prop) (l : list A) (i n : nat) :
  Forall P l -> Forall P (firstn n (skipn i l)).
Proof.
  intros H.
  rewrite <- (firstn_skipn i l) in H; apply Forall_app in H as [_ H].
  rewrite <- (firstn_skipn n (skipn i l)) in H; now apply Forall_app in H as [H _].
Qed.

Lemma nonblank_trimmed (w : WordTimestamp.t) :
  nonblank w = true -> trimmed (strip (WordTimestamp.word w)).
Proof.
  unfold nonblank; intros H; apply strip_trimmed.
  now destruct (strip (WordTimestamp.word w)).
Qed.

(** On a chunk of kept words the final [.strip()] of line 44 changes nothing. *)
Lemma chunk_text_stripped (chunk : list WordTimestamp.t) :
  chunk <> [] -> Forall (fun w => nonblank w = true) chunk ->
  strip (chunk_text chunk) = chunk_text chunk.
Proof.
  intros Hne HF; apply strip_of_trimmed, join_trimmed.
  - destruct chunk; [congruence | discriminate].
  - apply Forall_map; revert HF; apply Forall_impl; exact nonblank_trimmed.
Qed.

Variable max_words : Z.
Hypothesis max_words_pos : 0 < max_words.

Lemma chunk_segment_spec (words : list WordTimestamp.t) (k : nat) :
  Forall (fun w => nonblank w = true) words ->
  (k * Z.to_nat max_words < List.length words)%nat ->
  exists s,
    chunk_segment words max_words (Z.of_nat k * max_words) = Return s /\
    describes (firstn (Z.to_nat max_words) (skipn (k * Z.to_nat max_words) words)) s.
Proof.
  intros HF Hk; unfold chunk_segment.
  replace (slice words (Z.of_nat k * max_words)
             (Z.of_nat k * max_words + max_words))
    with (firstn (Z.to_nat max_words) (skipn (k * Z.to_nat max_words) words)).
  2:{ rewrite slice_nonneg by lia. do 2 f_equal. lia. }
  set (chunk := firstn _ _).
  assert (Hlen : (1 <= List.length chunk)%nat).
  { unfold chunk; rewrite length_firstn, length_skipn; lia. }
  assert (Hne : chunk <> []) by (intros E; rewrite E in Hlen; simpl in Hlen; lia).
  assert (HFc : Forall (fun w => nonblank w = true) chunk)
    by (apply Forall_slice, HF).
  destruct chunk as [|first rest] eqn:Ec; [congruence|].
  destruct (rev (first :: rest)) as [|last r] eqn:Er.
  { apply (f_equal (@List.length _)) in Er; rewrite length_rev in Er; discriminate. }
  rewrite getitem_first; cbn [bind].
  rewrite (getitem_last (first :: rest) last) by (now rewrite Er); cbn [bind].
  eexists; split; [reflexivity|].
  exists first, last; repeat split; try reflexivity.
  - now rewrite Er.
  - exact (chunk_text_stripped (first :: rest) Hne HFc).
Qed.

Lemma for_chunks_spec (words : list WordTimestamp.t) (ks : list nat) :
  Forall (fun w => nonblank w = true) words ->
  Forall (fun k => (k * Z.to_nat max_words < List.length words)%nat) ks ->
  exists outs,
    (forall acc,
      for_chunks words max_words (map (fun k => Z.of_nat k * max_words) ks) acc
      = Return (acc ++ outs)) /\
    Forall2 describes
      (map (fun k => firstn (Z.to_nat max_words)
                       (skipn (k * Z.to_nat max_words) words)) ks) outs.
Proof.
  intros HF; induction ks as [|k ks IH]; intros Hks.
  - exists []; split; [intros acc; cbn; now rewrite app_nil_r | constructor].
  - inversion Hks as [|? ? Hk Hks']; subst.
    destruct (chunk_segment_spec words k HF Hk) as [s [Hs Hd]].
    destruct (IH Hks') as [outs [Hout HF2]].
    exists (s :: outs); split.
    + intros acc; cbn [map for_chunks]; rewrite Hs; cbn [bind].
      rewrite Hout, <- app_assoc; reflexivity.
    + cbn [map]; now constructor.
Qed.

Lemma range_count_bound (n m k : nat) :
  (0 < m)%nat -> In k (seq 0 (range_count n m)) -> (k * m < n)%nat.
Proof.
  intros Hm Hin; apply in_seq in Hin; destruct n as [|n']; cbn in Hin; [lia|].
  assert (k <= n' / m)%nat by lia.
  pose proof (Nat.Div0.mul_div_le n' m).
  nia.
Qed.

(** One iteration of the outer loop on a segment that has words: it appends
    one segment per chunk of the kept words, and raises nothing. *)
Lemma segment_body_spec (segment : TranscriptSegment.t) :
  not_words (TranscriptSegment.words segment) = false ->
  exists outs,
    produced_by max_words segment outs /\
    Forall2 describes (chunks (Z.to_nat max_words) (kept_words segment)) outs.
Proof.
  intros Hw; unfold produced_by, segment_body; rewrite Hw.
  assert (HF : Forall (fun w => nonblank w = true)
                 (filtered_words (TranscriptSegment.words segment))).
  { unfold filtered_words; destruct (TranscriptSegment.words segment);
      [|constructor]. apply Forall_forall; intros w Hin.
    now apply filter_In in Hin. }
  rewrite <- filtered_kept.
  destruct (filtered_words (TranscriptSegment.words segment)) as [|w0 ws].
  - exists []; split; [intros acc; now rewrite app_nil_r | constructor].
  - set (words := w0 :: ws) in *.
    rewrite chunks_slices by lia.
    destruct (for_chunks_spec words
                (seq 0 (range_count (List.length words) (Z.to_nat max_words))) HF)
      as [outs [Hout HF2]].
    { apply Forall_forall; intros k Hin.
      apply range_count_bound; [lia | exact Hin]. }
    exists outs; split; [|exact HF2].
    intros acc; unfold len; rewrite range_positive by lia; cbn [bind].
    apply Hout.
Qed.

Lemma segment_body_missing (segment : TranscriptSegment.t)
  (acc : list TranscriptSegment.t) :
  not_words (TranscriptSegment.words segment) = true ->
  segment_body segment max_words acc = Raise MissingWordTimestamps.
Proof. intros H; unfold segment_body; now rewrite H. Qed.

Lemma for_segments_spec (segments : list TranscriptSegment.t) :
  Forall (fun s => not_words (TranscriptSegment.words s) = false) segments ->
  exists per_segment,
    (forall acc, for_segments segments max_words acc
                 = Return (acc ++ concat per_segment)) /\
    Forall2 (fun segment outs =>
               produced_by max_words segment outs /\
               Forall2 describes
                 (chunks (Z.to_nat max_words) (kept_words segment)) outs)
            segments per_segment.
Proof.
  induction segments as [|segment segments IH]; intros HF.
  - exists []; split; [|constructor].
    intros acc; cbn; now rewrite app_nil_r.
  - inversion HF as [|? ? Hw HF']; subst.
    destruct (segment_body_spec segment Hw) as [outs [Hp Hd]].
    destruct (IH HF') as [per [Hrun Hps]].
    exists (outs :: per); split; [|constructor; auto].
    intros acc; cbn [for_segments]; rewrite Hp; cbn [bind concat].
    rewrite Hrun, app_assoc; reflexivity.
Qed.

Lemma for_segments_missing (segments : list TranscriptSegment.t) :
  Exists (fun s => not_words (TranscriptSegment.words s) = true) segments ->
  forall acc, for_segments segments max_words acc = Raise MissingWordTimestamps.
Proof.
  induction segments as [|segment segments IH]; intros HE acc.
  - inversion HE.
  - cbn [for_segments].
    destruct (not_words (TranscriptSegment.words segment)) eqn:Hw.
    + now rewrite segment_body_missing.
    + destruct (segment_body_spec segment Hw) as [outs [Hp _]].
      rewrite Hp; cbn [bind]; apply IH.
      inversion HE; subst; [congruence | assumption].
Qed.

End SplitterFacts.

Section SplitterResults.

Import PyStr PyList Segmenter SplitterSpec.

Lemma not_words_lacks (s : TranscriptSegment.t) :
  not_words (TranscriptSegment.words s) = true <-> lacks_words s.
Proof.
  unfold lacks_words, not_words.
  destruct (TranscriptSegment.words s) as [[|w l]|]; split; intros H; auto;
    try discriminate; destruct H; discriminate.
Qed.

Lemma has_words_or_lacks (segments : list TranscriptSegment.t) :
  Forall (fun s => not_words (TranscriptSegment.words s) = false) segments \/
  Exists (fun s => not_words (TranscriptSegment.words s) = true) segments.
Proof.
  induction segments as [|s l [IH|IH]]; [left; constructor | |right; now constructor 2].
  destruct (not_words (TranscriptSegment.words s)) eqn:E;
    [right; now constructor 1 | left; now constructor].
Qed.

(** What a successful call returns. *)
Lemma split_returns (segments : list TranscriptSegment.t) (max_words : Z) :
  0 < max_words ->
  Forall (fun s => not_words (TranscriptSegment.words s) = false) segments ->
  exists per_segment,
    split_segments_by_max_words segments max_words
    = Return (concat per_segment) /\
    Forall2 (fun segment outs =>
               produced_by max_words segment outs /\
               Forall2 describes
                 (chunks (Z.to_nat max_words) (kept_words segment)) outs)
            segments per_segment.
Proof.
  intros Hm HF; unfold split_segments_by_max_words.
  destruct (Z.leb_spec max_words 0); [lia|].
  destruct (for_segments_spec max_words Hm segments HF) as [per [Hrun Hper]].
  exists per; split; [apply (Hrun []) | exact Hper].
Qed.

(** A call that returns had a positive [max_words] and no segment without
    words. *)
Lemma split_return_inv (segments out : list TranscriptSegment.t) (max_words : Z) :
  split_segments_by_max_words segments max_words = Return out ->
  0 < max_words /\
  Forall (fun s => not_words (TranscriptSegment.words s) = false) segments.
Proof.
  unfold split_segments_by_max_words.
  destruct (Z.leb_spec max_words 0) as [|Hm]; [discriminate|].
  intros H; split; [exact Hm|].
  destruct (has_words_or_lacks segments) as [HF|HE]; [exact HF|].
  rewrite (for_segments_missing max_words Hm segments HE) in H; discriminate.
Qed.

Lemma describes_words (chunk : list WordTimestamp.t) (s : TranscriptSegment.t) :
  describes chunk s -> words_of s = chunk.
Proof.
  intros (first & last & _ & _ & _ & _ & _ & Hw); unfold words_of; now rewrite Hw.
Qed.

Lemma describes_all_words (cs : list (list WordTimestamp.t))
  (outs : list TranscriptSegment.t) :
  Forall2 describes cs outs -> map words_of outs = cs.
Proof.
  induction 1 as [|c s cs outs Hd _ IH]; [reflexivity|].
  cbn [map]; now rewrite (describes_words c s Hd), IH.
Qed.

(** A segment whose words are all blank leaves the collected list as it is. *)
Lemma segment_body_blank (segment : TranscriptSegment.t) (max_words : Z)
  (ws : list WordTimestamp.t) (acc : list TranscriptSegment.t) :
  TranscriptSegment.words segment = Some ws -> ws <> [] ->
  Forall (fun w => strip (WordTimestamp.word w) = []) ws ->
  segment_body segment max_words acc = Return acc.
Proof.
  intros Hw Hne Hblank; unfold segment_body; rewrite Hw.
  assert (E : filtered_words (Some ws) = []).
  { unfold filtered_words; clear Hw Hne.
    induction Hblank as [|w l Hw0 _ IH]; [reflexivity|].
    cbn [filter]; unfold nonblank at 1; rewrite Hw0; exact IH. }
  rewrite E.
  destruct ws as [|w0 ws']; [congruence | reflexivity].
Qed.

Lemma for_segments_skip (pre post : list TranscriptSegment.t)
  (segment : TranscriptSegment.t) (max_words : Z) :
  (forall acc, segment_body segment max_words acc = Return acc) ->
  forall acc,
    for_segments (pre ++ segment :: post) max_words acc
    = for_segments (pre ++ post) max_words acc.
Proof.
  intros Hskip; induction pre as [|s pre IH]; intros acc.
  - cbn [app for_segments]; now rewrite Hskip.
  - cbn [app for_segments].
    destruct (segment_body s max_words acc); cbn [bind]; [apply IH | reflexivity].
Qed.

End SplitterResults.

(** ** Binary64 rounding *)

Section RoundFacts.

Import PyFloat.

Lemma rne_exact (c b : Z) : 0 < b -> rne (c * b) b = c.
Proof.
  intros Hb; unfold rne.
  rewrite Z.div_mul, Z.mod_mul by lia.
  destruct (Z.compare_spec (2 * 0) b); lia.
Qed.

Lemma rne_floor (a b : Z) : 0 < b -> a / b <= rne a b <= a / b + 1.
Proof.
  intros Hb; unfold rne.
  destruct (2 * (a mod b) ?= b); [destruct (Z.even (a / b))| |]; lia.
Qed.

Lemma rne_le_int (a b c : Z) : 0 < b -> a <= c * b -> rne a b <= c.
Proof.
  intros Hb Hle.
  pose proof (Z.div_mod a b ltac:(lia)) as Hdm.
  pose proof (Z.mod_pos_bound a b Hb) as Hr.
  assert (Hq : a / b <= c) by (apply Z.div_le_upper_bound; lia).
  destruct (Z.eq_dec (a / b) c) as [E|NE].
  - assert (Hr0 : a mod b = 0) by nia.
    unfold rne; rewrite Hr0, E.
    destruct (Z.compare_spec (2 * 0) b); lia.
  - pose proof (rne_floor a b Hb); lia.
Qed.

Lemma rne_ge_int (a b c : Z) : 0 < b -> c * b <= a -> c <= rne a b.
Proof.
  intros Hb Hle.
  assert (c <= a / b) by (apply Z.div_le_lower_bound; lia).
  pose proof (rne_floor a b Hb); lia.
Qed.

Lemma rne_mono (a a' b : Z) : 0 < b -> a <= a' -> rne a b <= rne a' b.
Proof.
  intros Hb Hle.
  assert (Hq : a / b <= a' / b) by (apply Z.div_le_mono; lia).
  destruct (Z.eq_dec (a / b) (a' / b)) as [E|NE].
  - pose proof (Z.div_mod a b ltac:(lia)).
    pose proof (Z.div_mod a' b ltac:(lia)).
    assert (Hr : a mod b <= a' mod b) by nia.
    unfold rne; rewrite <- E.
    destruct (Z.compare_spec (2 * (a mod b)) b);
      destruct (Z.compare_spec (2 * (a' mod b)) b);
      destruct (Z.even (a / b)); lia.
  - pose proof (rne_floor a b Hb); pose proof (rne_floor a' b Hb); lia.
Qed.

Lemma pow2_pos (n : Z) : 0 <= n -> 0 < 2 ^ n.
Proof. intros; apply Z.pow_pos_nonneg; lia. Qed.

(** A binary64 value is left as it is by rounding. *)
Lemma round_id (x b : Z) :
  is_binary64 x = true -> 0 <= x -> 0 < b -> round (x * b) b = x.
Proof.
  intros Hx H0 Hb; unfold round.
  rewrite Z.abs_eq by nia.
  rewrite Z.div_mul by lia.
  destruct (Z.ltb_spec x (2 ^ 53)) as [Hs|Hl]; [now apply rne_exact|].
  unfold is_binary64 in Hx; rewrite Z.abs_eq in Hx by lia.
  destruct (Z.ltb_spec x (2 ^ 53)); [lia|]; cbn [orb] in Hx.
  apply Z.eqb_eq in Hx.
  assert (Hlog : 53 <= Z.log2 x).
  { apply Z.log2_le_pow2; lia. }
  set (sh := Z.log2 x - 52) in *.
  pose proof (pow2_pos sh ltac:(lia)) as Hp.
  pose proof (Z.div_mod x (2 ^ sh) ltac:(lia)) as Hdm.
  rewrite Hx, Z.add_0_r in Hdm.
  replace (x * b) with (x / 2 ^ sh * (b * 2 ^ sh)) by nia.
  rewrite rne_exact by nia.
  lia.
Qed.

(** A significand below [2^53] scaled by a power of two is a binary64
    value. *)
Lemma binary64_scaled (m e : Z) :
  0 <= m < 2 ^ 53 -> 0 <= e -> is_binary64 (m * 2 ^ e) = true.
Proof.
  intros Hm He; unfold is_binary64.
  pose proof (pow2_pos e He) as Hp.
  rewrite Z.abs_eq by nia.
  destruct (Z.ltb_spec (m * 2 ^ e) (2 ^ 53)) as [|Hl]; [reflexivity|].
  cbn [orb]; apply Z.eqb_eq.
  assert (Hm0 : 0 < m) by nia.
  rewrite Z.log2_mul_pow2 by lia.
  assert (Z.log2 m < 53) by (apply Z.log2_lt_pow2; lia).
  assert (53 <= e + Z.log2 m).
  { rewrite <- Z.log2_mul_pow2 by lia. apply Z.log2_le_pow2; lia. }
  set (sh := e + Z.log2 m - 52).
  replace (2 ^ e) with (2 ^ (e - sh) * 2 ^ sh)
    by (rewrite <- Z.pow_add_r by lia; f_equal; lia).
  rewrite Z.mul_assoc; apply Z.mod_mul.
  pose proof (pow2_pos sh ltac:(lia)); lia.
Qed.

(** Rounding is monotone on non-negative numerators. *)
Lemma round_mono (a a' b : Z) :
  0 < b -> 0 <= a -> a <= a' -> round a b <= round a' b.
Proof.
  intros Hb H0 Hle; unfold round.
  rewrite !Z.abs_eq by lia.
  assert (Hq : a / b <= a' / b) by (apply Z.div_le_mono; lia).
  assert (Hq0 : 0 <= a / b) by (apply Z.div_pos; lia).
  pose proof (Z.mul_div_le a b Hb) as Ha1.
  pose proof (Z.mul_div_le a' b Hb) as Ha1'.
  pose proof (Z.mul_succ_div_gt a b Hb) as Ha2.
  destruct (Z.ltb_spec (a' / b) (2 ^ 53)) as [Hs'|Hl'].
  - destruct (Z.ltb_spec (a / b) (2 ^ 53)); [|lia]. now apply rne_mono.
  - assert (Hlog' : 53 <= Z.log2 (a' / b)) by (apply Z.log2_le_pow2; lia).
    set (sh' := Z.log2 (a' / b) - 52).
    pose proof (pow2_pos sh' ltac:(lia)) as Hp'.
    pose proof (Z.log2_spec (a' / b) ltac:(lia)) as [Hlo' _].
    assert (Hbig : 2 ^ (52 + sh') <= rne a' (b * 2 ^ sh') * 2 ^ sh').
    { rewrite Z.pow_add_r by lia.
      apply Z.mul_le_mono_nonneg_r; [lia|].
      apply rne_ge_int; [nia|].
      replace (52 + sh') with (Z.log2 (a' / b)) in * by (unfold sh'; lia).
      replace (2 ^ 52 * (b * 2 ^ sh')) with (2 ^ (52 + sh') * b)
        by (rewrite Z.pow_add_r by lia; ring).
      replace (52 + sh') with (Z.log2 (a' / b)) by (unfold sh'; lia).
      nia. }
    destruct (Z.ltb_spec (a / b) (2 ^ 53)) as [Hs|Hl].
    + assert (rne a b <= 2 ^ 53) by (apply rne_le_int; nia).
      assert (2 ^ 53 <= 2 ^ (52 + sh'))
        by (apply Z.pow_le_mono_r; unfold sh'; lia).
      lia.
    + assert (Hlog : 53 <= Z.log2 (a / b)) by (apply Z.log2_le_pow2; lia).
      set (sh := Z.log2 (a / b) - 52).
      pose proof (pow2_pos sh ltac:(lia)) as Hp.
      assert (Hsh : sh <= sh') by (unfold sh, sh'; pose proof (Z.log2_le_mono _ _ Hq); lia).
      destruct (Z.eq_dec sh sh') as [E|NE].
      * rewrite <- E. apply Z.mul_le_mono_nonneg_r; [lia|].
        apply rne_mono; [nia | lia].
      * pose proof (Z.log2_spec (a / b) ltac:(lia)) as [_ Hhi].
        assert (Hup : rne a (b * 2 ^ sh) * 2 ^ sh <= 2 ^ (53 + sh)).
        { rewrite Z.pow_add_r by lia.
          apply Z.mul_le_mono_nonneg_r; [lia|].
          apply rne_le_int; [nia|].
          replace (2 ^ 53 * (b * 2 ^ sh)) with (2 ^ (53 + sh) * b)
            by (rewrite Z.pow_add_r by lia; ring).
          replace (53 + sh) with (Z.succ (Z.log2 (a / b))) by (unfold sh; lia).
          nia. }
        assert (2 ^ (53 + sh) <= 2 ^ (52 + sh'))
          by (apply Z.pow_le_mono_r; lia).
        lia.
Qed.

Lemma round_nonneg (a b : Z) : 0 < b -> 0 <= a -> 0 <= round a b.
Proof.
  intros Hb H0; unfold round.
  assert (0 <= a / b) by (apply Z.div_pos; lia).
  destruct (Z.abs a / b <? 2 ^ 53).
  - pose proof (rne_floor a b Hb); lia.
  - rewrite Z.abs_eq by lia.
    destruct (Z.le_gt_cases 0 (Z.log2 (a / b) - 52)) as [Hs|Hs].
    + pose proof (pow2_pos _ Hs) as Hp.
      assert (0 <= rne a (b * 2 ^ (Z.log2 (a / b) - 52)))
        by (apply rne_ge_int; nia).
      nia.
    + rewrite (Z.pow_neg_r 2 _ Hs); lia.
Qed.

End RoundFacts.

(** ** Python float operations on time stamps *)

Section PyFloatFacts.

Import PyFloat.

Lemma one_pos : 0 < one.
Proof. unfold one; apply pow2_pos; lia. Qed.

Lemma of_int_small (n : Z) : 0 <= n < 2 ^ 53 -> of_int n = n * one.
Proof.
  intros Hn; unfold of_int.
  pose proof one_pos.
  rewrite <- (Z.mul_1_r (n * one)) at 1.
  apply round_id; [apply binary64_scaled; lia | nia | lia].
Qed.

(** [x % w] is the exact remainder for [x >= 0] and [w > 0]. *)
Lemma rem_nonneg (x w : Z) : 0 <= x -> 0 < w -> rem x w = Return (x mod w).
Proof.
  intros Hx Hw; unfold rem, fmod.
  destruct (Z.eqb_spec w 0); [lia|].
  rewrite Z.rem_mod_nonneg by lia.
  pose proof (Z.mod_pos_bound x w Hw).
  destruct (Z.eqb_spec (x mod w) 0) as [E|NE]; cbn [negb]; [now rewrite E|].
  destruct (Z.ltb_spec w 0); [lia|].
  destruct (Z.ltb_spec (x mod w) 0); [lia|].
  reflexivity.
Qed.

(** [x // w] is the exact floor of the quotient when the intermediate
    results of CPython's computation are binary64 values. *)
Lemma floor_div_exact (x w : Z) :
  0 <= x -> 0 < w ->
  is_binary64 (x / w * w) = true ->
  is_binary64 (x / w * one) = true ->
  floor_div x w = Return (x / w * one).
Proof.
  intros Hx Hw B1 B2; unfold floor_div, fmod.
  pose proof one_pos as H1.
  assert (Hq : 0 <= x / w) by (apply Z.div_pos; lia).
  destruct (Z.eqb_spec w 0); [lia|].
  rewrite Z.rem_mod_nonneg by lia.
  pose proof (Z.mod_pos_bound x w Hw).
  pose proof (Z.div_mod x w ltac:(lia)) as Hdm.
  assert (Hsub : sub x (x mod w) = x / w * w).
  { unfold sub. replace (x - x mod w) with (x / w * w * 1) by lia.
    apply round_id; [exact B1 | nia | lia]. }
  assert (Hdiv : div (sub x (x mod w)) w = x / w * one).
  { unfold div; rewrite Hsub.
    destruct (Z.ltb_spec w 0); [lia|].
    replace (x / w * w * one) with (x / w * one * w) by ring.
    apply round_id; [exact B2 | nia | lia]. }
  rewrite Hdiv.
  replace (negb (x mod w =? 0) && negb (Bool.eqb (w <? 0) (x mod w <? 0)))
    with false.
  2:{ destruct (Z.ltb_spec w 0); [lia|].
      destruct (Z.ltb_spec (x mod w) 0); [lia|].
      now rewrite andb_false_r. }
  destruct (Z.eqb_spec (x / w * one) 0) as [E|NE]; cbn [negb]; [now rewrite E|].
  unfold floor; rewrite Z.div_mul by lia.
  unfold sub; rewrite Z.sub_diag.
  replace (round 0 1) with 0 by reflexivity.
  destruct (Z.ltb_spec (one / 2) 0); [|reflexivity].
  assert (0 <= one / 2) by (apply Z.div_pos; lia). lia.
Qed.

Lemma to_int_scaled (q : Z) : to_int (q * one) = q.
Proof. unfold to_int; apply Z.quot_mul; pose proof one_pos; lia. Qed.

Lemma to_int_nonneg (x : Z) : 0 <= x -> to_int x = x / one.
Proof. intros; unfold to_int; apply Z.quot_div_nonneg; [lia | apply one_pos]. Qed.

(** The fractional part of a binary64 value is at most [1 - 2^-53]. *)
Lemma frac_bound (x : Z) :
  is_binary64 x = true -> 0 <= x -> x mod one <= one - 2 ^ 1021.
Proof.
  intros Hx H0; pose proof one_pos as H1.
  pose proof (Z.mod_pos_bound x one H1) as Hm.
  assert (Hc : 2 ^ 1073 <= one - 2 ^ 1021) by (vm_compute; discriminate).
  assert (H53 : 2 ^ 53 <= 2 ^ 1073) by (apply Z.pow_le_mono_r; lia).
  unfold is_binary64 in Hx; rewrite Z.abs_eq in Hx by lia.
  destruct (Z.ltb_spec x (2 ^ 53)) as [Hs|Hl].
  { pose proof (Z.mod_le x one H0 H1); lia. }
  cbn [orb] in Hx; apply Z.eqb_eq in Hx.
  assert (Hlog : 53 <= Z.log2 x) by (apply Z.log2_le_pow2; lia).
  set (sh := Z.log2 x - 52) in *.
  pose proof (pow2_pos sh ltac:(lia)) as Hp.
  destruct (Z.lt_ge_cases sh 1021) as [Hlow|Hhigh].
  - (* the whole value is below one half *)
    pose proof (Z.log2_spec x ltac:(lia)) as [_ Hhi].
    assert (2 ^ Z.succ (Z.log2 x) <= 2 ^ 1073)
      by (apply Z.pow_le_mono_r; unfold sh in *; lia).
    pose proof (Z.mod_le x one H0 H1); lia.
  - destruct (Z.lt_ge_cases sh 1074) as [Hin|Hout].
    + (* the fractional part is a multiple of [2^sh] below one *)
      assert (Hone : one = 2 ^ (1074 - sh) * 2 ^ sh)
        by (unfold one; rewrite <- Z.pow_add_r by lia; f_equal; lia).
      pose proof (Z.div_mod x (2 ^ sh) ltac:(lia)) as Hdm.
      rewrite Hx, Z.add_0_r in Hdm.
      assert (Hmul : (x mod one) mod 2 ^ sh = 0).
      { rewrite Hone, Z.mul_comm.
        rewrite Z.rem_mul_r by (try apply Z.pow_nonzero; try apply pow2_pos; lia).
        rewrite Z.mul_comm, Z.mod_add by lia.
        now rewrite Z.mod_mod by lia. }
      pose proof (Z.div_mod (x mod one) (2 ^ sh) ltac:(lia)) as Hdm2.
      rewrite Hmul, Z.add_0_r in Hdm2.
      assert (2 ^ 1021 <= 2 ^ sh) by (apply Z.pow_le_mono_r; lia).
      pose proof (pow2_pos (1074 - sh) ltac:(lia)).
      assert ((x mod one) / 2 ^ sh < 2 ^ (1074 - sh)) by nia.
      nia.
    + (* an integer number of seconds *)
      assert (Hone : 2 ^ sh = 2 ^ (sh - 1074) * one)
        by (unfold one; rewrite <- Z.pow_add_r by lia; f_equal; lia).
      pose proof (Z.div_mod x (2 ^ sh) ltac:(lia)) as Hdm.
      rewrite Hx, Z.add_0_r, Hone in Hdm.
      replace (x mod one) with 0.
      * pose proof (pow2_pos 1021 ltac:(lia)); lia.
      * symmetry. rewrite Hdm.
        replace (2 ^ (sh - 1074) * one * (x / (2 ^ (sh - 1074) * one)))
          with (2 ^ (sh - 1074) * (x / (2 ^ (sh - 1074) * one)) * one) by ring.
        apply Z.mod_mul; lia.
Qed.

(** The millisecond field never reaches 1000. *)
Lemma millis_bound (f : Z) :
  0 <= f <= one - 2 ^ 1021 ->
  0 <= to_int (mul f (of_int 1000)) <= 999.
Proof.
  intros Hf; pose proof one_pos as H1.
  rewrite of_int_small by (split; [lia | vm_compute; reflexivity]).
  unfold mul.
  assert (Hlo : 0 <= round (f * (1000 * one)) one)
    by (apply round_nonneg; nia).
  assert (Hhi : round (f * (1000 * one)) one
                <= round ((one - 2 ^ 1021) * (1000 * one)) one)
    by (apply round_mono; nia).
  assert (Hc : round ((one - 2 ^ 1021) * (1000 * one)) one < 1000 * one)
    by (vm_compute; reflexivity).
  rewrite to_int_nonneg by exact Hlo.
  split; [apply Z.div_pos; lia|].
  assert (round (f * (1000 * one)) one / one < 1000)
    by (apply Z.div_lt_upper_bound; lia).
  lia.
Qed.

End PyFloatFacts.

(** ** SRT time stamps *)

Section SrtTimeFacts.

Import PyStr PyFloat Formatters.

Lemma format_d_width (w : nat) (bound : nat) (z : Z) :
  forallb (fun n => Nat.eqb (List.length (format_d w (Z.of_nat n))) w)
          (seq 0 bound) = true ->
  0 <= z < Z.of_nat bound -> List.length (format_d w z) = w.
Proof.
  intros Hall Hz.
  rewrite forallb_forall in Hall.
  specialize (Hall (Z.to_nat z)).
  rewrite Z2Nat.id in Hall by lia.
  apply Nat.eqb_eq, Hall, in_seq; lia.
Qed.

Lemma format_d_two_digits (z : Z) :
  0 <= z <= 59 -> List.length (format_d 2 z) = 2%nat.
Proof.
  intros Hz; apply (format_d_width 2 60); [vm_compute; reflexivity | lia].
Qed.

Lemma format_d_three_digits (z : Z) :
  0 <= z <= 999 -> List.length (format_d 3 z) = 3%nat.
Proof.
  intros Hz; apply (format_d_width 3 1000); [vm_compute; reflexivity | lia].
Qed.

(** The minutes of a time stamp: [(seconds % 3600) // 60] is exact. *)
Lemma minutes_exact (r : Z) :
  0 <= r < 3600 * one ->
  floor_div r (of_int 60) = Return (r / (60 * one) * one).
Proof.
  intros Hr; pose proof one_pos as H1.
  rewrite of_int_small by (split; [lia | vm_compute; reflexivity]).
  assert (Hq : 0 <= r / (60 * one) < 60).
  { split; [apply Z.div_pos; lia | apply Z.div_lt_upper_bound; lia]. }
  assert (H53 : 900 < 2 ^ 53) by (vm_compute; reflexivity).
  apply floor_div_exact; try lia.
  - replace (r / (60 * one) * (60 * one))
      with (r / (60 * one) * 15 * 2 ^ 1076)
      by (unfold one; change (2 ^ 1076) with (4 * 2 ^ 1074); ring).
    apply binary64_scaled; lia.
  - apply binary64_scaled; lia.
Qed.

(** The hours of a time stamp below [2^57] seconds: [seconds // 3600] is
    exact. *)
Lemma hours_exact (s : Z) :
  0 <= s < 2 ^ 57 * one ->
  floor_div s (of_int 3600) = Return (s / (3600 * one) * one).
Proof.
  intros Hs; pose proof one_pos as H1.
  rewrite of_int_small by (split; [lia | vm_compute; reflexivity]).
  assert (E57 : 2 ^ 57 = 16 * 2 ^ 53) by reflexivity.
  assert (Hq : 0 <= s / (3600 * one) /\ s / (3600 * one) * 225 < 2 ^ 53).
  { split; [apply Z.div_pos; lia|].
    assert (s / (3600 * one) * (3600 * one) <= s)
      by (rewrite Z.mul_comm; apply Z.mul_div_le; lia).
    nia. }
  apply floor_div_exact; try lia.
  - replace (s / (3600 * one) * (3600 * one))
      with (s / (3600 * one) * 225 * 2 ^ 1078)
      by (unfold one; change (2 ^ 1078) with (16 * 2 ^ 1074); ring).
    apply binary64_scaled; lia.
  - apply binary64_scaled; lia.
Qed.

Lemma floor_div_returns (x w : Z) :
  w <> 0 -> exists q, floor_div x w = Return q.
Proof.
  intros Hw; unfold floor_div.
  destruct (Z.eqb_spec w 0); [lia|].
  repeat match goal with
         | |- context [if ?c then _ else _] => destruct c
         end; eexists; reflexivity.
Qed.

End SrtTimeFacts.

(** ** SRT output *)

Section SrtFacts.

Import PyStr PyFloat Formatters SrtSpec.

Lemma of_int_3600 : of_int 3600 = 3600 * one.
Proof. apply of_int_small; split; [lia | vm_compute; reflexivity]. Qed.

Lemma of_int_60 : of_int 60 = 60 * one.
Proof. apply of_int_small; split; [lia | vm_compute; reflexivity]. Qed.

Lemma of_int_1 : of_int 1 = one.
Proof. rewrite of_int_small; [lia | split; [lia | vm_compute; reflexivity]]. Qed.

Lemma rem_returns (x w : Z) : w <> 0 -> exists r, rem x w = Return r.
Proof.
  intros Hw; unfold rem.
  destruct (Z.eqb_spec w 0); [lia|].
  repeat match goal with
         | |- context [if ?c then _ else _] => destruct c
         end; eexists; reflexivity.
Qed.

(** On the finite numbers of this model the time conversion raises
    nothing. *)
Lemma seconds_to_srt_time_returns (seconds : float) :
  _seconds_to_srt_time seconds = Return (time_of seconds).
Proof.
  pose proof one_pos as H1.
  unfold time_of, _seconds_to_srt_time.
  rewrite of_int_3600, of_int_60, of_int_1.
  destruct (floor_div_returns seconds (3600 * one)) as [h ->]; [lia|].
  destruct (rem_returns seconds (3600 * one)) as [r ->]; [lia|].
  cbn [bind].
  destruct (floor_div_returns r (60 * one)) as [m ->]; [lia|].
  destruct (rem_returns seconds (60 * one)) as [s ->]; [lia|].
  destruct (rem_returns seconds one) as [f ->]; [lia|].
  reflexivity.
Qed.

(** The lines of the segments numbered from [index] on. *)
Lemma srt_loop_lines (segments : list TranscriptSegment.t) :
  forall (index : Z) (srt_lines : list str),
  srt_loop index segments srt_lines
  = Return (srt_lines ++
            concat (map (fun '(i, segment) =>
                           [format_d 0 i;
                            time_of (TranscriptSegment.start segment)
                            ++ lit " --> "
                            ++ time_of (TranscriptSegment.end_ segment);
                            TranscriptSegment.text segment;
                            []])
                        (combine
                           (map (fun k => index + Z.of_nat k)
                                (seq 0 (List.length segments)))
                           segments))).
Proof.
  induction segments as [|segment segments IH]; intros index srt_lines.
  - cbn; now rewrite app_nil_r.
  - cbn [srt_loop]; unfold srt_entry.
    rewrite !seconds_to_srt_time_returns; cbn [bind].
    rewrite IH; f_equal.
    cbn [List.length seq map combine concat].
    rewrite Z.add_0_r, <- app_assoc; do 3 f_equal.
    rewrite <- seq_shift, map_map.
    rewrite (map_ext (fun k => index + 1 + Z.of_nat k)
                     (fun k => index + Z.of_nat (S k)))
      by (intros k; lia).
    reflexivity.
Qed.

Lemma join_lines_blocks (segments : list TranscriptSegment.t) :
  segments <> [] ->
  forall index : Z,
  join newline
    (concat (map (fun '(i, segment) =>
                    [format_d 0 i;
                     time_of (TranscriptSegment.start segment)
                     ++ lit " --> "
                     ++ time_of (TranscriptSegment.end_ segment);
                     TranscriptSegment.text segment;
                     []])
                 (combine
                    (map (fun k => index + Z.of_nat k)
                         (seq 0 (List.length segments)))
                    segments)))
  ++ newline
  = blocks index segments.
Proof.
  induction segments as [|segment segments IH]; [congruence|].
  intros _ index.
  cbn [List.length seq map combine concat blocks app].
  rewrite Z.add_0_r.
  destruct segments as [|segment' segments].
  - cbn [List.length seq map combine concat blocks app join].
    unfold block; rewrite !app_nil_r, <- !app_assoc; reflexivity.
  - specialize (IH ltac:(discriminate) (index + 1)).
    rewrite <- seq_shift, map_map.
    rewrite (map_ext (fun k => index + Z.of_nat (S k))
                     (fun k => index + 1 + Z.of_nat k))
      by (intros k; lia).
    rewrite <- IH.
    cbn [List.length seq map combine concat app].
    cbn [join]; unfold block.
    rewrite <- !app_assoc; reflexivity.
Qed.

End SrtFacts.

(** ** Decimal digits *)

Section DigitFacts.

Import PyStr PyNum Formatters.

Lemma decimal_chars (n : N) : decimal n = uint_chars (N.to_uint n).
Proof.
  unfold decimal; induction (N.to_uint n) as [|d IH|d IH|d IH|d IH|d IH|d IH|d IH|d IH|d IH|d IH];
    [reflexivity|..]; cbn; unfold lit in IH; now rewrite IH.
Qed.

Lemma digits_value_acc (ds : str) (acc : N) :
  fold_left (fun a c => (10 * a + (c - 48))%N) ds acc
  = (acc * 10 ^ N.of_nat (List.length ds) + digits_value ds)%N.
Proof.
  unfold digits_value; revert acc; induction ds as [|c ds IH]; intros acc.
  - cbn; lia.
  - cbn [fold_left List.length]; rewrite IH, (IH (10 * 0 + (c - 48))%N).
    rewrite Nat2N.inj_succ, N.pow_succ_r'; lia.
Qed.

Lemma digits_value_app (a b : str) :
  digits_value (a ++ b)
  = (digits_value a * 10 ^ N.of_nat (List.length b) + digits_value b)%N.
Proof.
  unfold digits_value at 1; rewrite fold_left_app, digits_value_acc; reflexivity.
Qed.

Lemma digits_value_cons (c : char) (ds : str) :
  digits_value (c :: ds)
  = ((c - 48) * 10 ^ N.of_nat (List.length ds) + digits_value ds)%N.
Proof. apply (digits_value_app [c] ds). Qed.

Lemma digits_value_zeros (k : nat) : digits_value (repeat 48%N k) = 0%N.
Proof.
  induction k as [|k IH]; [reflexivity|].
  cbn [repeat]; rewrite digits_value_cons, IH; lia.
Qed.

Lemma uint_chars_value (d : Decimal.uint) :
  digits_value (uint_chars d) = N.of_uint d.
Proof.
  unfold N.of_uint; rewrite DecimalPos.Unsigned.of_uint_alt.
  unfold Decimal.rev.
  assert (H : forall d acc,
             fold_left (fun a c => (10 * a + (c - 48))%N) (uint_chars d)
                       (DecimalPos.Unsigned.of_lu acc)
             = DecimalPos.Unsigned.of_lu (Decimal.revapp d acc)).
  { clear d; induction d; intros acc; cbn [uint_chars fold_left Decimal.revapp];
      [reflexivity|..]; rewrite <- IHd; f_equal;
      cbn [DecimalPos.Unsigned.of_lu]; lia. }
  apply (H d Decimal.Nil).
Qed.

Lemma decimal_value (n : N) : digits_value (decimal n) = n.
Proof.
  rewrite decimal_chars, uint_chars_value; apply DecimalN.Unsigned.of_to.
Qed.

Lemma uint_chars_digits (d : Decimal.uint) : Forall (fun c => isdigit c = true) (uint_chars d).
Proof. induction d; cbn [uint_chars]; constructor; auto. Qed.

Lemma decimal_digits (n : N) : Forall (fun c => isdigit c = true) (decimal n).
Proof. rewrite decimal_chars; apply uint_chars_digits. Qed.

End DigitFacts.

(** ** Number tokens *)

Section NumberFacts.

Import PyStr PyFloat PyNum Formatters.

Lemma isdigit_range (c : char) : isdigit c = true <-> (48 <= c <= 57)%N.
Proof.
  unfold isdigit; rewrite andb_true_iff, !N.leb_le; reflexivity.
Qed.

Lemma nzhead_not_zero (d d' : Decimal.uint) : Decimal.nzhead d <> Decimal.D0 d'.
Proof. induction d; cbn [Decimal.nzhead]; try discriminate; exact IHd. Qed.

(** The numeral of a positive number starts with a digit other than 0. *)
Lemma decimal_head (n : N) :
  (0 < n)%N ->
  exists c r, decimal n = c :: r /\ isdigit c = true /\ c <> 48%N.
Proof.
  intros Hn; rewrite decimal_chars.
  destruct n as [|p]; [lia|]; cbn [N.to_uint].
  pose proof (DecimalPos.Unsigned.to_of (Pos.to_uint p)) as Hto.
  rewrite DecimalPos.Unsigned.of_to in Hto; cbn [N.to_uint] in Hto.
  pose proof (DecimalPos.Unsigned.to_uint_nonzero p) as Hnz.
  unfold Decimal.unorm in Hto.
  destruct (Decimal.nzhead (Pos.to_uint p)) as [|d|d|d|d|d|d|d|d|d|d] eqn:E;
    try (rewrite Hto; cbn [uint_chars]; do 2 eexists;
         split; [reflexivity | split; [reflexivity | discriminate]]).
  - now elim Hnz.
  - now elim (nzhead_not_zero (Pos.to_uint p) d).
Qed.

Lemma decimal_nonempty (n : N) : decimal n <> [].
Proof.
  rewrite decimal_chars; destruct n as [|p]; [discriminate|].
  cbn [N.to_uint]; pose proof (DecimalPos.Unsigned.to_uint_nonnil p) as H.
  destruct (Pos.to_uint p); [now elim H | discriminate..].
Qed.

Lemma span_digits_app (ds rest : str) :
  Forall (fun c => isdigit c = true) ds -> not_digit_head rest ->
  span_digits (ds ++ rest) = (ds, rest).
Proof.
  intros Hds Hrest; induction Hds as [|c ds Hc _ IH].
  - destruct rest as [|c r]; [reflexivity|].
    cbn in *; now rewrite Hrest.
  - cbn [app span_digits]; now rewrite Hc, IH.
Qed.

Lemma ends_number_not_digit (rest : str) : ends_number rest -> not_digit_head rest.
Proof. destruct rest; [trivial | intros [H _]; exact H]. Qed.

(** [match_number] finds the parts a number text was put together from. *)
Lemma match_number_parts (neg : bool) (ids : str) (frac : option str)
  (ex : option (bool * str)) (rest : str) :
  int_digits ids ->
  match frac with Some f => digits_nonempty f | None => True end ->
  match ex with Some (_, eds) => digits_nonempty eds | None => True end ->
  ends_number rest ->
  match_number ((if neg then [45%N] else []) ++ ids ++ frac_text frac
                ++ exp_text ex ++ rest)
  = Some (neg, ids, frac, ex, rest).
Proof.
  intros Hids Hfrac Hex Hrest.
  (* the exponent part *)
  assert (Hexp : forall s3, s3 = exp_text ex ++ rest ->
            match s3 with
            | ce :: r3 =>
                if ((ce =? 101) || (ce =? 69))%N
                then
                  let (eneg, r4) :=
                    match r3 with
                    | sg :: r' =>
                        if (sg =? 45)%N then (true, r')
                        else if (sg =? 43)%N then (false, r')
                        else (false, r3)
                    | [] => (false, r3)
                    end in
                  match r4 with
                  | c'' :: _ =>
                      if isdigit c''
                      then let (eds, r5) := span_digits r4 in
                           (Some (eneg, eds), r5)
                      else (None, s3)
                  | [] => (None, s3)
                  end
                else (None, s3)
            | [] => (None, s3)
            end = (ex, rest)).
  { intros s3 ->; destruct ex as [[eneg eds]|]; cbn [exp_text app].
    - destruct Hex as [Hne Hds].
      change ((101 =? 101) || (101 =? 69))%N with true; cbn iota.
      assert (Hsp : span_digits (eds ++ rest) = (eds, rest))
        by (apply span_digits_app; [exact Hds | now apply ends_number_not_digit]).
      destruct eds as [|d eds']; [congruence|].
      inversion Hds as [|? ? Hd _]; subst.
      destruct eneg; cbn [N.eqb Pos.eqb app]; cbn [app] in Hsp;
        rewrite Hd, Hsp; reflexivity.
    - destruct rest as [|c r]; [reflexivity|].
      destruct Hrest as (_ & _ & H101 & H69).
      apply N.eqb_neq in H101, H69; now rewrite H101, H69. }
  (* the fraction part *)
  assert (Hfr : forall s2, s2 = frac_text frac ++ exp_text ex ++ rest ->
            match s2 with
            | p :: c' :: r' =>
                if (p =? 46)%N && isdigit c'
                then let (f, r'') := span_digits (c' :: r') in (Some f, r'')
                else (None, s2)
            | _ => (None, s2)
            end = (frac, exp_text ex ++ rest)).
  { intros s2 ->; destruct frac as [f|]; cbn [frac_text app].
    - destruct Hfrac as [Hne Hds].
      destruct f as [|d f']; [congruence|].
      inversion Hds as [|? ? Hd _]; subst.
      cbn [app]; rewrite N.eqb_refl, Hd; cbn [andb].
      change (d :: f' ++ exp_text ex ++ rest)
        with ((d :: f') ++ exp_text ex ++ rest).
      rewrite span_digits_app; [reflexivity | exact Hds |].
      destruct ex as [[eneg eds]|]; [reflexivity|].
      now apply ends_number_not_digit.
    - destruct (exp_text ex ++ rest) as [|p [|c' r']] eqn:E; try reflexivity.
      assert (Hp : (p =? 46)%N = false).
      { destruct ex as [[eneg eds]|]; cbn [exp_text app] in E.
        - injection E as <- _; reflexivity.
        - rewrite E in Hrest; destruct Hrest as (_ & H46 & _).
          now apply N.eqb_neq. }
      now rewrite Hp. }
  unfold match_number.
  destruct Hids as [->|(c & r & -> & Hc & Hc0 & Hr)].
  - (* a single zero *)
    destruct neg; cbn [app N.eqb Pos.eqb];
      change (isdigit 48%N) with true; cbn iota;
      rewrite (Hfr _ eq_refl), (Hexp _ eq_refl); reflexivity.
  - assert (Hc45 : (c =? 45)%N = false)
      by (apply N.eqb_neq; apply isdigit_range in Hc; lia).
    assert (Hc48 : (c =? 48)%N = false) by now apply N.eqb_neq.
    assert (Hsp : span_digits ((c :: r) ++ frac_text frac ++ exp_text ex ++ rest)
                  = (c :: r, frac_text frac ++ exp_text ex ++ rest)).
    { apply span_digits_app; [now constructor|].
      destruct frac as [f|]; [reflexivity|].
      destruct ex as [[eneg eds]|]; [reflexivity|].
      now apply ends_number_not_digit. }
    destruct neg; cbn [app N.eqb Pos.eqb]; cbn [app] in Hsp.
    + rewrite Hc, Hc48, Hsp, (Hfr _ eq_refl), (Hexp _ eq_refl); reflexivity.
    + rewrite Hc45, Hc, Hc48, Hsp, (Hfr _ eq_refl), (Hexp _ eq_refl); reflexivity.
Qed.

End NumberFacts.

(** ** [float.__repr__] reads back *)

Section ReprFacts.

Import PyStr PyFloat PyNum Formatters.

Lemma rne_scale (a b c : Z) : 0 < b -> 0 < c -> rne (a * c) (b * c) = rne a b.
Proof.
  intros Hb Hc; unfold rne.
  rewrite Z.div_mul_cancel_r by lia.
  rewrite Z.mul_mod_distr_r by lia.
  destruct (Z.compare_spec (2 * (a mod b)) b);
    destruct (Z.compare_spec (2 * (a mod b * c)) (b * c));
    try reflexivity; nia.
Qed.

(** Rounding depends on the quotient only. *)
Lemma round_scale (a b c : Z) :
  0 < b -> 0 < c -> round (a * c) (b * c) = round a b.
Proof.
  intros Hb Hc; unfold round.
  rewrite Z.abs_mul, (Z.abs_eq c) by lia.
  rewrite Z.div_mul_cancel_r by lia.
  destruct (Z.abs a / b <? 2 ^ 53); [now apply rne_scale|].
  set (sh := Z.log2 (Z.abs a / b) - 52).
  destruct (Z.le_gt_cases 0 sh) as [Hs|Hs].
  - pose proof (pow2_pos sh Hs).
    replace (b * c * 2 ^ sh) with (b * 2 ^ sh * c) by ring.
    rewrite rne_scale by nia; reflexivity.
  - rewrite (Z.pow_neg_r 2 sh Hs); lia.
Qed.

Lemma pow10_pos (k : Z) : 0 <= k -> 0 < 10 ^ k.
Proof. intros; apply Z.pow_pos_nonneg; lia. Qed.

(** Trailing zeros moved into the exponent do not change the value read. *)
Lemma of_sci_shift (m e : Z) :
  0 <= e -> of_sci (m * 10 ^ (e + 1)) (-1) = of_sci m e.
Proof.
  intros He; unfold of_sci.
  destruct (Z.leb_spec 0 (-1)); [lia|].
  destruct (Z.leb_spec 0 e); [|lia].
  change (10 ^ (- -1)) with (1 * 10).
  rewrite Z.pow_add_r by lia; change (10 ^ 1) with 10.
  replace (m * (10 ^ e * 10) * one) with (m * 10 ^ e * one * 10) by ring.
  apply round_scale; lia.
Qed.

Lemma exact_expansion_reads_back (x : Z) :
  is_binary64 x = true -> 0 < x -> of_sci (x * 5 ^ 1074) (-1074) = x.
Proof.
  intros Hb Hx; unfold of_sci.
  destruct (Z.leb_spec 0 (-1074)); [lia|].
  assert (E : 10 ^ (- -1074) = 5 ^ 1074 * one) by (vm_compute; reflexivity).
  rewrite E.
  replace (x * 5 ^ 1074 * one) with (x * (5 ^ 1074 * one)) by ring.
  apply round_id; [exact Hb | lia |].
  pose proof one_pos; assert (0 < 5 ^ 1074) by (apply Z.pow_pos_nonneg; lia).
  nia.
Qed.

Lemma pick_sound {A : Type} (ok : A -> bool) (a b c : A) (first : bool) :
  pick ok a b first = Some c -> ok c = true.
Proof.
  unfold pick; destruct (ok a) eqn:Ea, (ok b) eqn:Eb, first; cbn;
    intros [= <-]; assumption.
Qed.

Lemma candidate_reads_back (x k : Z) (c : Z * Z) :
  candidate x k = Some c -> reads_back x c = true.
Proof. unfold candidate; apply pick_sound. Qed.

(** The digits [repr] prints read back as the number. *)
Lemma shortest_reads_back (x : Z) :
  is_binary64 x = true -> 0 < x ->
  0 < fst (shortest x) /\ of_sci (fst (shortest x)) (snd (shortest x)) = x.
Proof.
  intros Hb Hx; unfold shortest.
  generalize [1; 2; 3; 4; 5; 6; 7; 8; 9; 10; 11; 12; 13; 14; 15; 16; 17].
  intros ks; induction ks as [|k ks IH]; cbn [shortest_from].
  - cbn [fst snd]; split; [|now apply exact_expansion_reads_back].
    assert (0 < 5 ^ 1074) by (apply Z.pow_pos_nonneg; lia). nia.
  - destruct (candidate x k) as [c|] eqn:E; [|exact IH].
    apply candidate_reads_back in E; unfold reads_back in E.
    apply andb_true_iff in E as [E1 E2].
    apply Z.ltb_lt in E1; apply Z.eqb_eq in E2; now split.
Qed.

End ReprFacts.

(** ** The text of a float is a number token with the float as value *)

Section FloatTextFacts.

Import PyStr PyFloat PyVal PyNum Formatters Json.

Lemma Forall_digits_app (a b : str) :
  Forall (fun c => isdigit c = true) a ->
  Forall (fun c => isdigit c = true) b ->
  Forall (fun c => isdigit c = true) (a ++ b).
Proof. intros; apply Forall_app; now split. Qed.

Lemma zeros_digits (k : nat) : Forall (fun c => isdigit c = true) (repeat 48%N k).
Proof. induction k; cbn [repeat]; constructor; auto. Qed.

(** [format_d] of a non-negative number: zeros, then the numeral. *)
Lemma format_d_nonneg (w : nat) (z : Z) :
  0 <= z ->
  format_d w z
  = repeat 48%N (w - List.length (decimal (Z.to_N z))) ++ decimal (Z.to_N z).
Proof.
  intros Hz; unfold format_d.
  destruct (Z.ltb_spec z 0); [lia|].
  rewrite Z.abs_eq by lia; cbn [app List.length]; now rewrite Nat.sub_0_r.
Qed.

Lemma format_d_digits (w : nat) (z : Z) :
  0 <= z -> digits_nonempty (format_d w z).
Proof.
  intros Hz; rewrite format_d_nonneg by exact Hz; split.
  - pose proof (decimal_nonempty (Z.to_N z)).
    destruct (repeat 48%N _); [assumption | discriminate].
  - apply Forall_digits_app; [apply zeros_digits | apply decimal_digits].
Qed.

Lemma format_d_value (w : nat) (z : Z) :
  0 <= z -> Z.of_N (digits_value (format_d w z)) = z.
Proof.
  intros Hz; rewrite format_d_nonneg by exact Hz.
  rewrite digits_value_app, digits_value_zeros, decimal_value; lia.
Qed.

Lemma number_value_float (neg : bool) (ids : str) (frac : option str)
  (ex : option (bool * str)) (m e : Z) :
  (frac <> None \/ ex <> None) ->
  Z.of_N (digits_value (ids ++ match frac with Some f => f | None => [] end)) = m ->
  match ex with
  | Some (eneg, eds) => signed eneg (Z.of_N (digits_value eds))
  | None => 0
  end - Z.of_nat (List.length match frac with Some f => f | None => [] end) = e ->
  number_value neg ids frac ex = VFloat (signed neg (of_sci m e)).
Proof.
  intros Hsome <- <-; unfold number_value.
  destruct frac, ex; try reflexivity.
  destruct Hsome; congruence.
Qed.

Lemma number_value_neg (ids : str) (frac : option str)
  (ex : option (bool * str)) (y : float) :
  number_value false ids frac ex = VFloat y ->
  number_value true ids frac ex = VFloat (- y).
Proof.
  unfold number_value; destruct frac, ex; cbn [signed];
    try discriminate; intros [= <-]; reflexivity.
Qed.

Lemma repr_pos_parts (x : float) :
  is_binary64 x = true -> 0 < x ->
  exists ids frac ex,
    repr_pos x = ids ++ frac_text frac ++ exp_text ex /\
    float_parts false ids frac ex x.
Proof.
  intros Hb Hx.
  destruct (shortest_reads_back x Hb Hx) as [Hm Hval].
  unfold repr_pos; destruct (shortest x) as [m e]; cbn [fst snd] in Hm, Hval.
  cbv zeta.
  destruct (decimal_head (Z.to_N m) ltac:(lia)) as (c & r & Hds & Hc & Hc0).
  pose proof (decimal_digits (Z.to_N m)) as Hall.
  pose proof (decimal_value (Z.to_N m)) as Hv.
  set (ds := decimal (Z.to_N m)) in *; clearbody ds.
  assert (Hr : Forall (fun c => isdigit c = true) r)
    by (rewrite Hds in Hall; now inversion Hall).
  assert (Hn : (1 <= List.length ds)%nat) by (rewrite Hds; cbn; lia).
  assert (HvZ : Z.of_N (digits_value ds) = m) by (rewrite Hv; lia).
  set (n := Z.of_nat (List.length ds)) in *.
  set (dp := n + e) in *.
  destruct ((-4 <? dp) && (dp <=? 16)) eqn:Efix.
  - destruct (Z.leb_spec dp 0) as [Hle|Hgt].
    + (* 0.000ddd *)
      exists [48%N], (Some (repeat 48%N (Z.to_nat (- dp)) ++ ds)), None.
      split; [cbn [frac_text exp_text app]; now rewrite app_nil_r|].
      split; [now left|]. split; [|split; [exact I|]].
      * split; [|apply Forall_digits_app; [apply zeros_digits | exact Hall]].
        rewrite Hds; destruct (repeat 48%N _); discriminate.
      * rewrite <- Hval at 1.
        apply (number_value_float false); [left; discriminate | |].
        -- rewrite !digits_value_app, digits_value_zeros; cbn [digits_value fold_left].
           rewrite <- HvZ; lia.
        -- rewrite length_app, repeat_length; unfold dp, n, str, char in *; lia.
    + destruct (Z.leb_spec n dp) as [Hnd|Hdn].
      * (* ddd000.0 *)
        exists (ds ++ repeat 48%N (Z.to_nat (dp - n))), (Some [48%N]), None.
        split; [cbn [frac_text exp_text app]; now rewrite <- app_assoc|].
        split; [|split; [|split; [exact I|]]].
        -- right; exists c, (r ++ repeat 48%N (Z.to_nat (dp - n))).
           rewrite Hds; repeat split; auto.
           apply Forall_digits_app; [exact Hr | apply zeros_digits].
        -- split; [discriminate | repeat constructor].
        -- rewrite <- Hval at 1; rewrite <- (of_sci_shift m e) by (unfold dp in *; lia).
           apply (number_value_float false); [left; discriminate | |reflexivity].
           rewrite !digits_value_app, digits_value_zeros; cbn [digits_value fold_left List.length].
           rewrite repeat_length, <- HvZ.
           replace (e + 1) with (Z.of_nat (Z.to_nat (dp - n)) + 1)
             by (unfold dp in *; lia).
           rewrite Z.pow_add_r by lia.
           rewrite !N.add_0_r, !N2Z.inj_mul, !N2Z.inj_pow, nat_N_Z.
           change (Z.of_N (N.of_nat 1)) with 1; change (Z.of_N 10) with 10.
           ring.
      * (* dd.ddd *)
        exists (firstn (Z.to_nat dp) ds), (Some (skipn (Z.to_nat dp) ds)), None.
        split; [cbn [frac_text exp_text app]; now rewrite app_nil_r|].
        split; [|split; [|split; [exact I|]]].
        -- right; destruct (Z.to_nat dp) as [|k] eqn:Ek; [lia|].
           exists c, (firstn k r); rewrite Hds; cbn [firstn].
           repeat split; auto.
           rewrite <- (firstn_skipn k r) in Hr.
           now apply Forall_app in Hr.
        -- split.
           ++ intros E; apply (f_equal (@List.length _)) in E.
              rewrite length_skipn in E; cbn in E; unfold n, str, char in *; lia.
           ++ rewrite <- (firstn_skipn (Z.to_nat dp) ds) in Hall.
              now apply Forall_app in Hall.
        -- rewrite <- Hval at 1.
           apply (number_value_float false); [left; discriminate | |].
           ++ now rewrite firstn_skipn.
           ++ rewrite length_skipn; unfold dp, n, str, char in *; lia.
  - (* exponent notation *)
    pose proof (format_d_digits 2 (Z.abs (dp - 1)) ltac:(lia)) as Hed.
    pose proof (format_d_value 2 (Z.abs (dp - 1)) ltac:(lia)) as Hev.
    assert (Hsg : signed (dp - 1 <? 0)
                    (Z.of_N (digits_value (format_d 2 (Z.abs (dp - 1)))))
                  = dp - 1).
    { rewrite Hev; unfold signed; destruct (Z.ltb_spec (dp - 1) 0); lia. }
    destruct (Z.ltb_spec 1 n) as [Hlong|Hshort].
    + (* d.ddde+XX *)
      exists [c], (Some r),
        (Some (dp - 1 <? 0, format_d 2 (Z.abs (dp - 1)))).
      split; [rewrite Hds; destruct (dp - 1 <? 0); reflexivity|].
      split; [|split; [|split; [exact Hed|]]].
      * right; exists c, []; repeat split; auto.
      * split; [|exact Hr].
        intros E; unfold n in Hlong; rewrite Hds, E in Hlong; cbn in Hlong; lia.
      * rewrite <- Hval at 1.
        apply (number_value_float false); [left; discriminate | |].
        -- cbn [app]; now rewrite <- Hds.
        -- rewrite Hsg; unfold dp, n; rewrite Hds; cbn [List.length]; lia.
    + (* de+XX *)
      exists ds, None, (Some (dp - 1 <? 0, format_d 2 (Z.abs (dp - 1)))).
      split.
      { rewrite firstn_all2 by (unfold n, str, char in *; lia).
        destruct (dp - 1 <? 0); reflexivity. }
      split; [|split; [exact I | split; [exact Hed|]]].
      * right; exists c, r; repeat split; auto.
      * rewrite <- Hval at 1.
        apply (number_value_float false); [right; discriminate | |].
        -- now rewrite app_nil_r.
        -- rewrite Hsg; cbn [List.length]; unfold dp, n, str, char in *; lia.
Qed.

(** The text of a float, followed by a text that ends a number, is matched
    as a number whose value is the float. *)
Lemma float_repr_matches (x : float) (rest : str) :
  is_binary64 x = true -> ends_number rest ->
  exists neg ids frac ex,
    match_number (float_repr x ++ rest) = Some (neg, ids, frac, ex, rest) /\
    number_value neg ids frac ex = VFloat x.
Proof.
  intros Hb Hrest; unfold float_repr.
  destruct (Z.eqb_spec x 0) as [->|Hx0].
  - exists false, [48%N], (Some [48%N]), None; split.
    + apply (match_number_parts false [48%N] (Some [48%N]) None rest);
        [now left | split; [discriminate | repeat constructor] | exact I | exact Hrest].
    + reflexivity.
  - destruct (Z.ltb_spec x 0) as [Hneg|Hpos].
    + assert (Hb' : is_binary64 (- x) = true)
        by (unfold is_binary64 in *; now rewrite Z.abs_opp).
      destruct (repr_pos_parts (- x) Hb' ltac:(lia))
        as (ids & frac & ex & Htext & Hids & Hfrac & Hex & Hval).
      exists true, ids, frac, ex; split.
      * rewrite Htext, <- !app_assoc.
        apply (match_number_parts true); assumption.
      * rewrite (number_value_neg ids frac ex (- x) Hval); f_equal; lia.
    + destruct (repr_pos_parts x Hb ltac:(lia))
        as (ids & frac & ex & Htext & Hids & Hfrac & Hex & Hval).
      exists false, ids, frac, ex; split; [|exact Hval].
      rewrite Htext, <- !app_assoc.
      apply (match_number_parts false); assumption.
Qed.

End FloatTextFacts.

(** ** Strings and white space of JSON *)

Section JsonTextFacts.

Import PyStr PyFloat PyVal PyNum Formatters Json.

Lemma hex_value_digit (d : N) : (d < 16)%N -> hex_value (hex_digit d) = Some d.
Proof.
  intros Hd; unfold hex_value, hex_digit.
  destruct (N.ltb_spec d 10).
  - replace ((48 <=? 48 + d) && (48 + d <=? 57))%N with true
      by (symmetry; apply andb_true_iff; split; apply N.leb_le; lia).
    f_equal; lia.
  - replace ((48 <=? 87 + d) && (87 + d <=? 57))%N with false
      by (symmetry; apply andb_false_iff; right; apply N.leb_gt; lia).
    replace ((97 <=? 87 + d) && (87 + d <=? 102))%N with true
      by (symmetry; apply andb_true_iff; split; apply N.leb_le; lia).
    f_equal; lia.
Qed.

(** The four digits written for a control character are read as it. *)
Lemma decode_hex (c : char) :
  (c < 256)%N ->
  decode_uXXXX 48%N 48%N (hex_digit (c / 16)) (hex_digit (c mod 16)) = Some c.
Proof.
  intros Hc; unfold decode_uXXXX.
  change (hex_value 48%N) with (Some 0%N).
  rewrite !hex_value_digit.
  - unfold char in *; pose proof (N.div_mod c 16 ltac:(lia)) as E.
    apply f_equal; lia.
  - apply N.mod_lt; lia.
  - apply N.Div0.div_lt_upper_bound; lia.
Qed.

Lemma scanstring_plain (c : char) (r : str) :
  c <> 34%N -> c <> 92%N -> (32 <= c)%N ->
  scanstring (c :: r) = (p <- scanstring r ;; Return (c :: fst p, snd p)).
Proof.
  intros H1 H2 H3; cbn [scanstring].
  destruct (N.eqb_spec c 34); [contradiction|].
  destruct (N.eqb_spec c 92); [contradiction|].
  destruct (N.ltb_spec c 32); [lia | reflexivity].
Qed.

Lemma scanstring_letter (e ch : char) (r : str) :
  e <> 117%N -> unescape e = Some ch ->
  scanstring (92%N :: e :: r)
  = (p <- scanstring r ;; Return (ch :: fst p, snd p)).
Proof.
  intros H1 H2; cbn [scanstring].
  change (92 =? 34)%N with false; change (92 =? 92)%N with true; cbv iota.
  destruct (N.eqb_spec e 117); [contradiction|].
  now rewrite H2.
Qed.

Lemma scanstring_hex (h1 h2 h3 h4 uni : char) (r : str) :
  decode_uXXXX h1 h2 h3 h4 = Some uni -> (uni < 55296)%N ->
  scanstring (92%N :: 117%N :: h1 :: h2 :: h3 :: h4 :: r)
  = (p <- scanstring r ;; Return (uni :: fst p, snd p)).
Proof.
  intros H1 H2; cbn [scanstring].
  change (92 =? 34)%N with false; change (92 =? 92)%N with true;
    change (117 =? 117)%N with true; cbv iota.
  rewrite H1.
  destruct (N.leb_spec 55296 uni); [lia | reflexivity].
Qed.

(** Reading one escaped character gives the character back. *)
Lemma scanstring_escape_char (c : char) (r : str) :
  scanstring (escape_char c ++ r)
  = (p <- scanstring r ;; Return (c :: fst p, snd p)).
Proof.
  unfold escape_char.
  destruct (N.eqb_spec c 34) as [->|H34];
    [now apply scanstring_letter|].
  destruct (N.eqb_spec c 92) as [->|H92];
    [now apply scanstring_letter|].
  destruct (N.eqb_spec c 10) as [->|H10];
    [now apply scanstring_letter|].
  destruct (N.eqb_spec c 13) as [->|H13];
    [now apply scanstring_letter|].
  destruct (N.eqb_spec c 9) as [->|H9];
    [now apply scanstring_letter|].
  destruct (N.eqb_spec c 8) as [->|H8];
    [now apply scanstring_letter|].
  destruct (N.eqb_spec c 12) as [->|H12];
    [now apply scanstring_letter|].
  destruct (N.ltb_spec c 32) as [Hlt|Hge].
  - apply scanstring_hex; [apply decode_hex |]; lia.
  - now apply scanstring_plain.
Qed.

(** [scanstring] undoes the escaping of [encode_basestring]. *)
Lemma scanstring_escape (s rest : str) :
  scanstring (flat_map escape_char s ++ 34%N :: rest) = Return (s, rest).
Proof.
  induction s as [|c s IH]; [reflexivity|].
  cbn [flat_map]; rewrite <- app_assoc, scanstring_escape_char, IH.
  reflexivity.
Qed.

Lemma skip_ws_spaces (k : nat) (s : str) :
  skip_ws (repeat 32%N k ++ s) = skip_ws s.
Proof. induction k; [reflexivity | exact IHk]. Qed.

Lemma skip_ws_indent (level : nat) (s : str) :
  skip_ws (newline_indent level ++ s) = skip_ws s.
Proof. unfold newline_indent; cbn [app skip_ws is_ws]; apply skip_ws_spaces. Qed.

Lemma skip_ws_head (c : char) (r : str) :
  is_ws c = false -> skip_ws (c :: r) = c :: r.
Proof. intros H; cbn [skip_ws]; now rewrite H. Qed.

Lemma str_eqb_eq (a b : str) : str_eqb a b = true <-> a = b.
Proof.
  unfold str_eqb; destruct (list_eq_dec N.eq_dec a b); split;
    congruence.
Qed.

Lemma distinct_NoDup (ks : list str) : distinct ks = true -> NoDup ks.
Proof.
  induction ks as [|k r IH]; intros H; [constructor|].
  cbn [distinct] in H; apply andb_true_iff in H as [Hk Hr].
  constructor; [|now apply IH].
  intros Hin; apply negb_true_iff in Hk.
  assert (existsb (str_eqb k) r = true); [|congruence].
  apply existsb_exists; exists k; split; [exact Hin | now apply str_eqb_eq].
Qed.

(** Setting a key the dict does not hold adds the item at the end. *)
Lemma dict_set_fresh (k : str) (v : value) (d : dict) :
  ~ In k (map fst d) -> dict_set k v d = d ++ [(k, v)].
Proof.
  induction d as [|[k' v'] d IH]; intros Hk; [reflexivity|].
  cbn [dict_set app]; cbn [map fst In] in Hk.
  destruct (str_eqb k k') eqn:E.
  - apply str_eqb_eq in E; subst; tauto.
  - rewrite IH by tauto; reflexivity.
Qed.

End JsonTextFacts.

(** ** Reading back what [dumps] wrote *)

Section JsonRoundTrip.

Import PyStr PyFloat PyVal PyNum Formatters Json.

(** Induction on values, with the hypothesis for every element of a list
    and every value of a dict. *)
Lemma value_nested_ind (P : value -> Prop) :
  P VNone -> (forall b, P (VBool b)) -> (forall z, P (VInt z)) ->
  (forall x, P (VFloat x)) -> (forall s, P (VStr s)) ->
  (forall l, Forall P l -> P (VList l)) ->
  (forall d, Forall (fun kv => P (snd kv)) d -> P (VDict d)) ->
  forall v, P v.
Proof.
  intros HN HB HI HF HS HL HD.
  fix IH 1; intros [| b | z | x | s | l | d].
  - exact HN.
  - apply HB.
  - apply HI.
  - apply HF.
  - apply HS.
  - apply HL; revert l; fix IHl 1; intros [|x l]; constructor;
      [apply IH | apply IHl].
  - apply HD; revert d; fix IHd 1; intros [|[k x] d]; constructor;
      [apply IH | apply IHd].
Qed.

Lemma encode_list (level : nat) (x : value) (l : list value) :
  encode level (VList (x :: l))
  = lit "[" ++ newline_indent (S level) ++ encode (S level) x
    ++ concat (map (fun y => lit "," ++ newline_indent (S level)
                             ++ encode (S level) y) l)
    ++ newline_indent level ++ lit "]".
Proof. reflexivity. Qed.

Lemma encode_dict (level : nat) (kv : str * value) (d : dict) :
  encode level (VDict (kv :: d))
  = lit "{" ++ newline_indent (S level)
    ++ encode_basestring (fst kv) ++ lit ": " ++ encode (S level) (snd kv)
    ++ concat (map (fun kv' => lit "," ++ newline_indent (S level)
                               ++ encode_basestring (fst kv') ++ lit ": "
                               ++ encode (S level) (snd kv')) d)
    ++ newline_indent level ++ lit "}".
Proof. reflexivity. Qed.

Lemma well_formed_list (l : list value) :
  well_formed (VList l) = forallb well_formed l.
Proof. reflexivity. Qed.

Lemma well_formed_dict (d : dict) :
  well_formed (VDict d)
  = distinct (map fst d) && forallb (fun kv => well_formed (snd kv)) d.
Proof. reflexivity. Qed.

(** The first character of a number: a minus sign or a digit. *)
Lemma int_digits_head (ids rest : str) :
  int_digits ids -> exists c r, ids ++ rest = c :: r /\ isdigit c = true.
Proof.
  intros [-> | (c & r & -> & Hc & _)].
  - now exists 48%N, rest.
  - now exists c, (r ++ rest).
Qed.

Lemma decimal_int_digits (n : N) : int_digits (decimal n).
Proof.
  destruct (N.eq_dec n 0) as [->|Hn]; [now left|].
  destruct (decimal_head n ltac:(lia)) as (c & r & E & Hc & Hc0).
  right; exists c, r; repeat split; auto.
  pose proof (decimal_digits n) as H; rewrite E in H; now inversion H.
Qed.

Lemma int_repr_head (z : Z) :
  exists c r, int_repr z = c :: r /\ (c = 45%N \/ isdigit c = true).
Proof.
  unfold int_repr; destruct (z <? 0).
  - exists 45%N; eexists; split; [reflexivity | now left].
  - destruct (int_digits_head _ [] (decimal_int_digits (Z.to_N (Z.abs z))))
      as (c & r & E & Hc).
    rewrite app_nil_r in E; exists c, r; cbn [app]; auto.
Qed.

Lemma repr_pos_head (x : float) :
  is_binary64 x = true -> 0 < x ->
  exists c r, repr_pos x = c :: r /\ isdigit c = true.
Proof.
  intros Hb Hx.
  destruct (repr_pos_parts x Hb Hx) as (ids & frac & ex & -> & Hids & _).
  now apply int_digits_head.
Qed.

Lemma float_repr_head (x : float) :
  is_binary64 x = true ->
  exists c r, float_repr x = c :: r /\ (c = 45%N \/ isdigit c = true).
Proof.
  intros Hb; unfold float_repr.
  destruct (Z.eqb_spec x 0) as [->|Hx0].
  - exists 48%N; eexists; split; [reflexivity | now right].
  - destruct (Z.ltb_spec x 0) as [Hneg|Hpos].
    + exists 45%N; eexists; split; [reflexivity | now left].
    + destruct (repr_pos_head x Hb ltac:(lia)) as (c & r & E & Hc).
      exists c, r; auto.
Qed.

Lemma number_head_range (c : char) :
  c = 45%N \/ isdigit c = true -> (c = 45 \/ 48 <= c <= 57)%N.
Proof. intros [H|H]; [now left | right; now apply isdigit_range]. Qed.

(** The text of a value starts with a character that is neither white space
    nor a closing bracket. *)
Lemma encode_head (level : nat) (v : value) :
  well_formed v = true ->
  exists c r, encode level v = c :: r /\ is_ws c = false /\ c <> 93%N.
Proof.
  assert (Hnum : forall c, c = 45%N \/ isdigit c = true ->
                           is_ws c = false /\ c <> 93%N).
  { intros c Hc; apply number_head_range in Hc; unfold is_ws.
    destruct (N.eqb_spec c 32), (N.eqb_spec c 9), (N.eqb_spec c 10),
      (N.eqb_spec c 13); split; try reflexivity; lia. }
  intros Hwf; destruct v as [| [|] | z | x | s | [|y l] | [|kv d]];
    try (do 2 eexists; split; [reflexivity | split; [reflexivity | discriminate]]).
  - destruct (int_repr_head z) as (c & r & E & Hc).
    exists c, r; split; [exact E | now apply Hnum].
  - destruct (float_repr_head x Hwf) as (c & r & E & Hc).
    exists c, r; split; [exact E | now apply Hnum].
Qed.

Lemma skip_ws_encode (level : nat) (v : value) (s : str) :
  well_formed v = true -> skip_ws (encode level v ++ s) = encode level v ++ s.
Proof.
  intros Hwf; destruct (encode_head level v Hwf) as (c & r & -> & Hc & _).
  now apply skip_ws_head.
Qed.

Lemma starts_with_encode (level : nat) (v : value) (s : str) :
  well_formed v = true -> starts_with 93%N (encode level v ++ s) = false.
Proof.
  intros Hwf; destruct (encode_head level v Hwf) as (c & r & -> & _ & Hc).
  now apply N.eqb_neq.
Qed.

Lemma strip_prefix_head (a c : char) (p r : str) :
  a <> c -> strip_prefix (a :: p) (c :: r) = None.
Proof. intros H; cbn [strip_prefix]; now destruct (N.eqb_spec a c). Qed.

(** A text that starts like a number is read as the number it starts with. *)
Lemma scan_once_number (fuel : nat) (c : char) (r : str)
  (neg : bool) (ids : str) (frac : option str) (ex : option (bool * str))
  (rest : str) :
  c = 45%N \/ isdigit c = true ->
  match_number (c :: r) = Some (neg, ids, frac, ex, rest) ->
  scan_once (S fuel) (c :: r) = Return (number_value neg ids frac ex, rest).
Proof.
  intros Hc Hm; apply number_head_range in Hc; cbn [scan_once].
  destruct (N.eqb_spec c 34); [lia|].
  destruct (N.eqb_spec c 123); [lia|].
  destruct (N.eqb_spec c 91); [lia|].
  change (lit "null") with (110%N :: lit "ull").
  change (lit "true") with (116%N :: lit "rue").
  change (lit "false") with (102%N :: lit "alse").
  rewrite !strip_prefix_head by lia.
  now rewrite Hm.
Qed.

Lemma int_repr_matches (z : Z) (rest : str) :
  ends_number rest ->
  match_number (int_repr z ++ rest)
  = Some (z <? 0, decimal (Z.to_N (Z.abs z)), None, None, rest).
Proof.
  intros Hrest; unfold int_repr.
  rewrite <- app_assoc.
  change (lit "-") with [45%N].
  apply (match_number_parts (z <? 0) _ None None rest);
    [apply decimal_int_digits | exact I | exact I | exact Hrest].
Qed.

Lemma scanned_back_int (z : Z) : scanned_back (VInt z).
Proof.
  intros level fuel rest Hlen Hrest; cbn [encode] in *.
  destruct (int_repr_head z) as (c & r & E & Hc).
  destruct fuel as [|f]; [rewrite E in Hlen; cbn in Hlen; lia|].
  pose proof (int_repr_matches z rest Hrest) as Hm.
  rewrite E in *; cbn [app] in *.
  rewrite (scan_once_number f c _ _ _ _ _ _ Hc Hm).
  unfold number_value; rewrite decimal_value.
  replace (signed (z <? 0) (Z.of_N (Z.to_N (Z.abs z)))) with z; [reflexivity|].
  unfold signed; destruct (Z.ltb_spec z 0); lia.
Qed.

Lemma scanned_back_float (x : float) :
  is_binary64 x = true -> scanned_back (VFloat x).
Proof.
  intros Hb level fuel rest Hlen Hrest; cbn [encode] in *.
  destruct (float_repr_head x Hb) as (c & r & E & Hc).
  destruct fuel as [|f]; [rewrite E in Hlen; cbn in Hlen; lia|].
  destruct (float_repr_matches x rest Hb Hrest)
    as (neg & ids & frac & ex & Hm & Hv).
  rewrite E in *; cbn [app] in *.
  now rewrite (scan_once_number f c _ _ _ _ _ _ Hc Hm), Hv.
Qed.

Lemma scanned_back_str (s : str) : scanned_back (VStr s).
Proof.
  intros level fuel rest Hlen Hrest; cbn [encode] in *.
  destruct fuel as [|f]; [cbn in Hlen; lia|].
  unfold encode_basestring; cbn [app scan_once].
  change (34 =? 34)%N with true; cbv iota.
  rewrite <- app_assoc; cbn [app]; now rewrite scanstring_escape.
Qed.

Lemma scanned_back_const (v : value) :
  v = VNone \/ v = VBool true \/ v = VBool false \/ v = VList [] \/ v = VDict [] ->
  scanned_back v.
Proof.
  intros H level fuel rest Hlen Hrest.
  destruct fuel as [|f];
    [destruct H as [->|[->|[->|[->| ->]]]]; cbn in Hlen; lia|].
  destruct H as [->|[->|[->|[->| ->]]]]; reflexivity.
Qed.

Lemma ends_number_comma (s : str) : ends_number (44%N :: s).
Proof. repeat split; discriminate. Qed.

Lemma ends_number_indent (level : nat) (s : str) :
  ends_number (newline_indent level ++ s).
Proof. repeat split; discriminate. Qed.

Lemma newline_indent_length (level : nat) :
  List.length (newline_indent level) = S (2 * level).
Proof. unfold newline_indent; cbn [List.length]; now rewrite repeat_length. Qed.

Lemma skip_ws_space (s : str) : skip_ws (32%N :: s) = skip_ws s.
Proof. reflexivity. Qed.

(** The items of a list, read one after the other. *)
Lemma array_items_encode (level : nat) (rest : str) (l : list value) :
  forall (x : value) (done : list value) (fuel : nat),
    Forall scanned_back (x :: l) ->
    forallb well_formed (x :: l) = true ->
    (List.length (encode (S level) x)
     + List.length (concat (map (fun y => lit "," ++ newline_indent (S level)
                                          ++ encode (S level) y) l))
     < fuel)%nat ->
    array_items fuel
      (encode (S level) x
       ++ concat (map (fun y => lit "," ++ newline_indent (S level)
                                ++ encode (S level) y) l)
       ++ newline_indent level ++ 93%N :: rest) done
    = Return (VList (done ++ x :: l), rest).
Proof.
  induction l as [|y l IHl]; intros x done fuel HP Hwf Hfuel;
    (destruct fuel as [|f]; [lia|]);
    inversion HP as [|? ? Hx HPl]; subst;
    cbn [forallb] in Hwf; apply andb_true_iff in Hwf as [Hwfx Hwfl];
    cbn [array_items map concat app] in *.
  - rewrite Hx; [|lia | apply ends_number_indent].
    cbn [bind fst snd]; rewrite skip_ws_indent, skip_ws_head by reflexivity.
    reflexivity.
  - set (items := concat (map _ l)) in *.
    rewrite <- !app_assoc; change (lit ",") with [44%N] in *; cbn [app].
    rewrite !length_app in Hfuel; cbn [List.length] in Hfuel.
    rewrite Hx; [|lia | apply ends_number_comma].
    cbn [bind fst snd]; rewrite skip_ws_head by reflexivity.
    change (44 =? 93)%N with false; change (44 =? 44)%N with true; cbv iota.
    pose proof Hwfl as Hwfy; apply andb_true_iff in Hwfy as [Hwfy _].
    rewrite skip_ws_indent, skip_ws_encode by exact Hwfy.
    rewrite (IHl y (done ++ [x]) f HPl Hwfl) by lia.
    now rewrite <- app_assoc.
Qed.

(** The items of a dict, read one after the other: the text after the
    opening quote of the first key. *)
Lemma object_items_encode (level : nat) (rest : str) (l : dict) :
  forall (kv : str * value) (done : dict) (fuel : nat),
    Forall (fun kv => scanned_back (snd kv)) (kv :: l) ->
    forallb (fun kv => well_formed (snd kv)) (kv :: l) = true ->
    NoDup (map fst (done ++ kv :: l)) ->
    (List.length (encode (S level) (snd kv))
     + List.length
         (concat (map (fun kv' => lit "," ++ newline_indent (S level)
                                  ++ encode_basestring (fst kv') ++ lit ": "
                                  ++ encode (S level) (snd kv')) l))
     < fuel)%nat ->
    object_items fuel
      (flat_map escape_char (fst kv) ++ 34%N :: lit ": "
       ++ encode (S level) (snd kv)
       ++ concat (map (fun kv' => lit "," ++ newline_indent (S level)
                                  ++ encode_basestring (fst kv') ++ lit ": "
                                  ++ encode (S level) (snd kv')) l)
       ++ newline_indent level ++ 125%N :: rest) done
    = Return (VDict (done ++ kv :: l), rest).
Proof.
  induction l as [|kv' l IHl]; intros [k v] done fuel HP Hwf Hnd Hfuel;
    (destruct fuel as [|f]; [lia|]);
    inversion HP as [|? ? Hx HPl]; subst;
    cbn [forallb] in Hwf; apply andb_true_iff in Hwf as [Hwfx Hwfl];
    cbn [fst snd] in *;
    (assert (Hfresh : ~ In k (map fst done))
       by (rewrite map_app in Hnd; cbn [map fst] in Hnd;
           apply NoDup_remove_2 in Hnd; intros Hin; apply Hnd;
           apply in_or_app; now left));
    cbn [object_items map concat app];
    rewrite scanstring_escape; cbn [bind fst snd];
    change (lit ": ") with [58%N; 32%N]; cbn [app starts_with];
    change (58 =? 58)%N with true; cbv iota;
    change (58 =? 58)%N with true; cbv iota;
    rewrite skip_ws_space, skip_ws_encode by exact Hwfx.
  - rewrite Hx; [|cbn [map concat List.length] in Hfuel; lia
                 | apply ends_number_indent].
    cbn [bind fst snd]; rewrite dict_set_fresh by exact Hfresh.
    rewrite skip_ws_indent, skip_ws_head by reflexivity.
    reflexivity.
  - cbn [map concat] in Hfuel.
    set (items := concat (map _ l)) in *.
    rewrite <- !app_assoc; change (lit ",") with [44%N] in *; cbn [app].
    rewrite !length_app in Hfuel; cbn [List.length] in Hfuel.
    rewrite Hx; [|lia | apply ends_number_comma].
    cbn [bind fst snd]; rewrite dict_set_fresh by exact Hfresh.
    rewrite skip_ws_head by reflexivity.
    change (44 =? 125)%N with false; change (44 =? 44)%N with true; cbv iota.
    rewrite skip_ws_indent.
    unfold encode_basestring at 1; cbn [app].
    rewrite skip_ws_head by reflexivity.
    change (34 =? 34)%N with true; cbv iota.
    rewrite <- !app_assoc; cbn [app].
    assert (Hnd' : NoDup (map fst ((done ++ [(k, v)]) ++ kv' :: l)))
      by now rewrite <- app_assoc.
    pose proof (IHl kv' (done ++ [(k, v)]) f HPl Hwfl Hnd' ltac:(lia)) as E.
    rewrite <- app_assoc in E; exact E.
Qed.

(** Every well-formed value is read back from its text. *)
Lemma scan_once_encode (v : value) : well_formed v = true -> scanned_back v.
Proof.
  induction v as [| b | z | x | s | l IH | d IH] using value_nested_ind;
    intros Hwf.
  - apply scanned_back_const; auto.
  - apply scanned_back_const; destruct b; auto.
  - apply scanned_back_int.
  - now apply scanned_back_float.
  - apply scanned_back_str.
  - destruct l as [|x l]; [apply scanned_back_const; auto 6|].
    rewrite well_formed_list in Hwf.
    assert (HP : Forall scanned_back (x :: l)).
    { apply Forall_forall; intros y Hy.
      rewrite Forall_forall in IH; apply (IH y Hy).
      rewrite forallb_forall in Hwf; now apply Hwf. }
    intros level fuel rest Hlen Hrest.
    rewrite encode_list in *.
    rewrite !length_app, !newline_indent_length in Hlen;
      change (lit "[") with [91%N] in *; cbn [List.length] in Hlen.
    destruct fuel as [|f]; [lia|].
    rewrite <- !app_assoc; change (lit "]") with [93%N]; cbn [app scan_once].
    change (91 =? 34)%N with false; change (91 =? 123)%N with false;
      change (91 =? 91)%N with true; cbv iota.
    pose proof Hwf as Hwfx; cbn [forallb] in Hwfx;
      apply andb_true_iff in Hwfx as [Hwfx _].
    rewrite skip_ws_indent, skip_ws_encode, starts_with_encode by exact Hwfx.
    apply (array_items_encode level rest l x [] f HP Hwf); lia.
  - destruct d as [|[k x] d]; [apply scanned_back_const; auto 6|].
    rewrite well_formed_dict in Hwf; apply andb_true_iff in Hwf as [Hnd Hwf].
    assert (HP : Forall (fun kv => scanned_back (snd kv)) ((k, x) :: d)).
    { apply Forall_forall; intros y Hy.
      rewrite Forall_forall in IH; apply (IH y Hy).
      rewrite forallb_forall in Hwf; now apply Hwf. }
    intros level fuel rest Hlen Hrest.
    rewrite encode_dict in *.
    rewrite !length_app, !newline_indent_length in Hlen;
      change (lit "{") with [123%N] in *; cbn [List.length fst snd] in Hlen.
    destruct fuel as [|f]; [lia|].
    rewrite <- !app_assoc; change (lit "}") with [125%N];
      cbn [app scan_once fst snd].
    change (123 =? 34)%N with false; change (123 =? 123)%N with true;
      cbv iota.
    unfold newline_indent at 1; cbn [app starts_with].
    change (10 =? 34)%N with false; cbv iota.
    change (10%N :: repeat 32%N (2 * S level) ++ ?s)
      with (newline_indent (S level) ++ s).
    rewrite skip_ws_indent.
    unfold encode_basestring at 1; cbn [app].
    rewrite skip_ws_head by reflexivity.
    change (34 =? 125)%N with false; change (34 =? 34)%N with true; cbv iota.
    rewrite <- !app_assoc; cbn [app].
    apply (object_items_encode level rest d (k, x) [] f HP Hwf);
      [apply distinct_NoDup; exact Hnd | cbn [snd]; lia].
Qed.

(** [json.loads] reads the text [json.dumps] writes of a well-formed value
    as this value. *)
Lemma loads_dumps (v : value) : well_formed v = true -> loads (dumps v) = Return v.
Proof.
  intros Hwf; unfold loads, dumps.
  rewrite <- (app_nil_r (encode 0%nat v)) at 2.
  rewrite skip_ws_encode by exact Hwf.
  rewrite (scan_once_encode v Hwf 0%nat); [reflexivity | | exact I].
  lia.
Qed.

End JsonRoundTrip.

(** ** The layout of the JSON text *)

Section JsonLayout.

Import PyStr PyFloat PyVal PyNum Formatters Json JsonSpec.

Lemma encode_list_block (level : nat) (l : list value) :
  encode level (VList l) = block 91%N 93%N level (map (encode (S level)) l).
Proof.
  destruct l as [|x l]; [reflexivity|].
  rewrite encode_list; unfold block; cbn [map].
  now rewrite map_map.
Qed.

Lemma encode_dict_block (level : nat) (d : dict) :
  encode level (VDict d)
  = block 123%N 125%N level
      (map (fun kv => encode_basestring (fst kv) ++ lit ": "
                      ++ encode (S level) (snd kv)) d).
Proof.
  destruct d as [|kv d]; [reflexivity|].
  rewrite encode_dict; unfold block; cbn [map].
  now rewrite map_map, <- !app_assoc.
Qed.

Lemma word_text_encode (level : nat) (w : WordTimestamp.t) :
  encode level (VDict (WordTimestamp.to_dict w)) = word_text level w.
Proof. now rewrite encode_dict_block. Qed.

Lemma segment_text_encode (level : nat) (s : TranscriptSegment.t) :
  encode level (VDict (TranscriptSegment.to_dict s)) = segment_text level s.
Proof.
  rewrite encode_dict_block; unfold segment_text, TranscriptSegment.to_dict.
  destruct (TranscriptSegment.words s) as [ws|]; [|reflexivity].
  change (dict_set (lit "words") ?v ?d) with (d ++ [(lit "words", v)]).
  cbn [map app fst snd]; rewrite encode_list_block, map_map.
  now rewrite (map_ext _ _ (word_text_encode (S (S level)))).
Qed.

Lemma transcript_text_encode (t : Transcript.t) :
  JsonFormatter.format_json t = transcript_text t.
Proof.
  unfold JsonFormatter.format_json, dumps, transcript_text, Transcript.to_dict.
  rewrite encode_dict_block; cbn [map fst snd].
  rewrite encode_list_block, map_map.
  rewrite (map_ext _ _ (segment_text_encode 2)).
  now destruct (Transcript.language t).
Qed.

Lemma escape_literal (c : char) : literal c = true -> escape_char c = [c].
Proof.
  unfold literal, escape_char; intros H.
  apply andb_true_iff in H as [H H92]; apply andb_true_iff in H as [H32 H34].
  apply N.leb_le in H32; apply negb_true_iff in H34, H92.
  rewrite H34, H92.
  destruct (N.eqb_spec c 10); [lia|]. destruct (N.eqb_spec c 13); [lia|].
  destruct (N.eqb_spec c 9); [lia|]. destruct (N.eqb_spec c 8); [lia|].
  destruct (N.eqb_spec c 12); [lia|]. destruct (N.ltb_spec c 32); [lia|].
  reflexivity.
Qed.

Lemma encode_basestring_literal (s : str) :
  forallb literal s = true -> encode_basestring s = quoted s.
Proof.
  intros H; unfold encode_basestring, quoted; do 2 f_equal.
  induction s as [|c s IH]; [reflexivity|].
  cbn [forallb] in H; apply andb_true_iff in H as [Hc Hs].
  cbn [flat_map]; now rewrite (escape_literal c Hc), IH.
Qed.

Lemma within_refl (a : str) : within a a.
Proof. exists [], []; now rewrite app_nil_r. Qed.

Lemma within_trans (a b c : str) : within a b -> within b c -> within a c.
Proof.
  intros (p1 & q1 & ->) (p2 & q2 & ->).
  exists (p2 ++ p1), (q1 ++ q2); now rewrite <- !app_assoc.
Qed.

Lemma within_app_r (a b c : str) : within a c -> within a (b ++ c).
Proof. intros (p & q & ->); exists (b ++ p), q; now rewrite <- app_assoc. Qed.

Lemma within_app_l (a b c : str) : within a b -> within a (b ++ c).
Proof. intros (p & q & ->); exists p, (q ++ c); now rewrite <- !app_assoc. Qed.

Lemma within_member (key : string) (text : str) : within text (member key text).
Proof. unfold member; do 2 apply within_app_r; apply within_refl. Qed.

Lemma within_concat (i : str) (f : str -> str) (l : list str) :
  (forall j, within j (f j)) -> In i l -> within i (concat (map f l)).
Proof.
  intros Hf; induction l as [|j l IH]; [intros []|].
  intros [<-|Hin]; cbn [map concat].
  - apply within_app_l, Hf.
  - apply within_app_r, IH, Hin.
Qed.

(** Every item stands in the block. *)
Lemma within_block (o c : char) (depth : nat) (i : str) (items : list str) :
  In i items -> within i (block o c depth items).
Proof.
  destruct items as [|j l]; intros Hin; [contradiction|]; unfold block.
  apply within_app_r, within_app_r.
  destruct Hin as [<-|Hin]; [apply within_app_l, within_refl|].
  apply within_app_r, within_app_l.
  apply within_concat; [|exact Hin].
  intros k; change (44%N :: line (2 * S depth) ++ k)
              with ((44%N :: line (2 * S depth)) ++ k).
  apply within_app_r, within_refl.
Qed.

(** The text of a segment stands in the JSON text of the transcript, between
    quotes, as it is, when none of its characters is a control character, a
    quote or a backslash. *)
Lemma segment_text_within (t : Transcript.t) (seg : TranscriptSegment.t) :
  In seg (Transcript.segments t) ->
  forallb literal (TranscriptSegment.text seg) = true ->
  within (quoted (TranscriptSegment.text seg)) (JsonFormatter.format_json t).
Proof.
  intros Hin Hlit; rewrite transcript_text_encode.
  rewrite <- (encode_basestring_literal _ Hlit).
  apply (within_trans _ (segment_text 2 seg)).
  - unfold segment_text.
    eapply within_trans; [apply within_member | apply within_block].
    apply in_or_app; left; right; right; left; reflexivity.
  - unfold transcript_text.
    eapply within_trans; [|apply within_block; right; left; reflexivity].
    eapply within_trans; [|apply within_member].
    apply within_block, in_map, Hin.
Qed.

Lemma forallb_mapped {A B : Type} (f : B -> bool) (g : A -> B) (l : list A) :
  forallb f (map g l) = forallb (fun x => f (g x)) l.
Proof. induction l as [|x l IH]; [reflexivity | cbn; now rewrite IH]. Qed.

Lemma forallb_same {A : Type} (f g : A -> bool) (l : list A) :
  (forall x, f x = g x) -> forallb f l = forallb g l.
Proof.
  intros H; induction l as [|x l IH]; [reflexivity | cbn; now rewrite H, IH].
Qed.

Lemma to_dict_word_well_formed (w : WordTimestamp.t) :
  binary64_word w = true -> well_formed (VDict (WordTimestamp.to_dict w)) = true.
Proof.
  unfold binary64_word; intros H; apply andb_true_iff in H as [H1 H2].
  rewrite well_formed_dict; unfold WordTimestamp.to_dict.
  cbn [map fst snd forallb well_formed]; rewrite H1, H2; reflexivity.
Qed.

Lemma to_dict_segment_well_formed (s : TranscriptSegment.t) :
  binary64_segment s = true ->
  well_formed (VDict (TranscriptSegment.to_dict s)) = true.
Proof.
  unfold binary64_segment; intros H.
  apply andb_true_iff in H as [H Hw]; apply andb_true_iff in H as [H1 H2].
  rewrite well_formed_dict; unfold TranscriptSegment.to_dict.
  destruct (TranscriptSegment.words s) as [ws|].
  - change (dict_set (lit "words") ?v ?d) with (d ++ [(lit "words", v)]).
    cbn [map app fst snd forallb]; rewrite well_formed_list.
    cbn [well_formed]; rewrite H1, H2, forallb_mapped.
    rewrite (forallb_same _ binary64_word); [rewrite Hw; reflexivity|].
    intros w.
    destruct (binary64_word w) eqn:E.
    + now apply to_dict_word_well_formed.
    + unfold binary64_word in E; rewrite well_formed_dict.
      unfold WordTimestamp.to_dict; cbn [map fst snd forallb well_formed].
      rewrite andb_true_r; exact E.
  - cbn [map fst snd forallb well_formed]; rewrite H1, H2; reflexivity.
Qed.

Lemma to_dict_well_formed (t : Transcript.t) :
  binary64_times t = true -> well_formed (VDict (Transcript.to_dict t)) = true.
Proof.
  unfold binary64_times; intros H.
  rewrite well_formed_dict; unfold Transcript.to_dict.
  cbn [map fst snd forallb]; rewrite well_formed_list, forallb_mapped.
  assert (Hs : forallb (fun s => well_formed (VDict (TranscriptSegment.to_dict s)))
                 (Transcript.segments t) = true).
  { apply forallb_forall; intros s Hin; apply to_dict_segment_well_formed.
    rewrite forallb_forall in H; now apply H. }
  rewrite Hs; now destruct (Transcript.language t).
Qed.

End JsonLayout.

(** ** More about the splitter *)

Section SplitterMore.

Import PyStr PyList Segmenter SplitterSpec.

Lemma for_chunks_acc (words : list WordTimestamp.t) (max_words : Z)
  (indices : list Z) :
  forall acc,
    for_chunks words max_words indices acc
    = (outs <- for_chunks words max_words indices [] ;; Return (acc ++ outs)).
Proof.
  induction indices as [|i l IH]; intros acc; cbn [for_chunks].
  - cbn [bind]; now rewrite app_nil_r.
  - destruct (chunk_segment words max_words i) as [s|e]; cbn [bind];
      [|reflexivity].
    rewrite (IH (acc ++ [s])), (IH ([] ++ [s])).
    destruct (for_chunks words max_words l []) as [outs|e]; cbn [bind app];
      [|reflexivity].
    now rewrite <- app_assoc.
Qed.

Lemma segment_body_acc (segment : TranscriptSegment.t) (max_words : Z)
  (acc : list TranscriptSegment.t) :
  segment_body segment max_words acc
  = (outs <- segment_body segment max_words [] ;; Return (acc ++ outs)).
Proof.
  unfold segment_body.
  destruct (not_words (TranscriptSegment.words segment)); [reflexivity|].
  destruct (filtered_words (TranscriptSegment.words segment)) as [|w ws];
    [cbn [bind]; now rewrite app_nil_r|].
  destruct (range 0 (len (w :: ws)) max_words) as [indices|e]; cbn [bind];
    [|reflexivity].
  apply for_chunks_acc.
Qed.

Lemma for_segments_acc (segments : list TranscriptSegment.t) (max_words : Z) :
  forall acc,
    for_segments segments max_words acc
    = (outs <- for_segments segments max_words [] ;; Return (acc ++ outs)).
Proof.
  induction segments as [|s l IH]; intros acc; cbn [for_segments].
  - cbn [bind]; now rewrite app_nil_r.
  - rewrite (segment_body_acc s max_words acc).
    destruct (segment_body s max_words []) as [outs|e]; cbn [bind app];
      [|reflexivity].
    rewrite (IH (acc ++ outs)), (IH outs).
    destruct (for_segments l max_words []) as [outs'|e]; cbn [bind];
      [|reflexivity].
    now rewrite app_assoc.
Qed.

Lemma for_segments_app (a b : list TranscriptSegment.t) (max_words : Z) :
  forall acc,
    for_segments (a ++ b) max_words acc
    = (x <- for_segments a max_words acc ;; for_segments b max_words x).
Proof.
  induction a as [|s a IH]; intros acc; cbn [app for_segments]; [reflexivity|].
  destruct (segment_body s max_words acc) as [acc'|e]; cbn [bind];
    [apply IH | reflexivity].
Qed.

(** Every chunk of a list holds elements of the list. *)
Lemma chunks_Forall {A : Type} (P : A -> Prop) (n : nat) (l : list A) :
  (0 < n)%nat -> Forall P l -> Forall (Forall P) (chunks n l).
Proof.
  intros Hn HP; rewrite <- (concat_chunks n l Hn) in HP.
  induction (chunks n l) as [|c cs IH]; constructor.
  - cbn [concat] in HP; now apply Forall_app in HP.
  - apply IH; cbn [concat] in HP; now apply Forall_app in HP.
Qed.

Lemma chunks_whole {A : Type} (n : nat) (l : list A) :
  l <> [] -> (List.length l <= n)%nat -> chunks n l = [l].
Proof.
  intros Hne Hlen; destruct l as [|a l]; [congruence|].
  rewrite chunks_cons by (cbn in Hlen; lia).
  rewrite firstn_all2, skipn_all2 by exact Hlen.
  now rewrite chunks_nil.
Qed.

Lemma chunks_single {A : Type} (l : list A) :
  chunks 1 l = map (fun x => [x]) l.
Proof.
  induction l as [|a l IH]; [apply chunks_nil|].
  rewrite chunks_cons by lia; cbn [firstn skipn map]; now rewrite IH.
Qed.

Lemma chunks_length {A : Type} (n : nat) (l : list A) :
  (0 < n)%nat -> List.length (chunks n l) = range_count (List.length l) n.
Proof.
  intros Hn; rewrite chunks_slices by exact Hn.
  now rewrite length_map, length_seq.
Qed.

Lemma range_count_ceil (n m : nat) :
  (0 < m)%nat ->
  Z.of_nat (range_count n m) = (Z.of_nat n + Z.of_nat m - 1) / Z.of_nat m.
Proof.
  intros Hm; destruct n as [|n]; cbn [range_count].
  - rewrite Z.div_small; lia.
  - assert (E : (Z.of_nat (S n) + Z.of_nat m - 1) / Z.of_nat m
                = Z.of_nat n / Z.of_nat m + 1).
    { replace (Z.of_nat (S n) + Z.of_nat m - 1)
        with (Z.of_nat n + 1 * Z.of_nat m) by lia.
      apply Z.div_add; lia. }
    rewrite E, Nat2Z.inj_succ, Nat2Z.inj_div; lia.
Qed.

Lemma kept_nonblank (segment : TranscriptSegment.t) :
  Forall (fun w => nonblank w = true) (kept_words segment).
Proof.
  rewrite <- filtered_kept; unfold filtered_words.
  destruct (TranscriptSegment.words segment) as [l|]; [|constructor].
  apply Forall_forall; intros w Hw; now apply filter_In in Hw.
Qed.

Lemma filter_all {A : Type} (f : A -> bool) (l : list A) :
  Forall (fun x => f x = true) l -> filter f l = l.
Proof.
  induction 1 as [|x l Hx _ IH]; [reflexivity|].
  cbn [filter]; now rewrite Hx, IH.
Qed.

(** A segment is described by one chunk only, and a chunk describes one
    segment only. *)
Lemma describes_same (chunk : list WordTimestamp.t) (s s' : TranscriptSegment.t) :
  describes chunk s -> describes chunk s' -> s = s'.
Proof.
  intros (f & l & Hf & Hl & H1 & H2 & H3 & H4)
         (f' & l' & Hf' & Hl' & H1' & H2' & H3' & H4').
  rewrite Hf in Hf'; injection Hf' as <-.
  rewrite Hl in Hl'; injection Hl' as <-.
  destruct s, s'; cbn in *; congruence.
Qed.

(** What every output segment is: the segment of a chunk that is not empty,
    holds no blank word and at most [max_words] words. *)
Lemma split_outputs (segments out : list TranscriptSegment.t) (max_words : Z) :
  split_segments_by_max_words segments max_words = Return out ->
  Forall (fun s => exists chunk,
              describes chunk s /\ chunk <> [] /\
              Forall (fun w => nonblank w = true) chunk /\
              len chunk <= max_words) out.
Proof.
  intros Hret.
  destruct (split_return_inv _ _ _ Hret) as [Hm Hw].
  destruct (split_returns segments max_words Hm Hw) as [per [Hrun Hper]].
  rewrite Hrun in Hret; injection Hret as <-.
  assert (Hn : (0 < Z.to_nat max_words)%nat) by lia.
  clear Hrun Hw; induction Hper as [|segment outs ss per [_ Hd] _ IH];
    [constructor|].
  cbn [concat]; apply Forall_app; split; [|exact IH].
  pose proof (chunks_bounds (Z.to_nat max_words) (kept_words segment) Hn) as HB.
  pose proof (chunks_Forall _ (Z.to_nat max_words) _ Hn (kept_nonblank segment))
    as HN.
  clear IH; induction Hd as [|c s cs outs Hc _ IH]; constructor.
  - exists c; inversion HB as [|? ? Hb _]; inversion HN as [|? ? Hn' _]; subst.
    repeat split; [exact Hc | | exact Hn' | unfold len; lia].
    intros ->; cbn in Hb; lia.
  - apply IH; [now inversion HB | now inversion HN].
Qed.

Lemma Forall2_single {A B : Type} (R : A -> B -> Prop) (a : A) (l : list B) :
  Forall2 R [a] l -> exists b, l = [b] /\ R a b.
Proof.
  intros H; inversion H as [|? b ? l' Hab Hnil]; subst.
  inversion Hnil; subst; now exists b.
Qed.

(** The segment of a chunk that fits [max_words] is left as it is. *)
Lemma segment_body_fixed (chunk : list WordTimestamp.t)
  (s : TranscriptSegment.t) (max_words : Z) :
  describes chunk s -> chunk <> [] ->
  Forall (fun w => nonblank w = true) chunk -> len chunk <= max_words ->
  produced_by max_words s [s].
Proof.
  intros Hd Hne Hnb Hlen.
  assert (Hm : 0 < max_words)
    by (destruct chunk; [congruence | unfold len in Hlen; cbn in Hlen; lia]).
  pose proof Hd as (f & l & _ & _ & _ & _ & _ & Hw).
  assert (Hnw : not_words (TranscriptSegment.words s) = false)
    by (rewrite Hw; destruct chunk; [congruence | reflexivity]).
  destruct (segment_body_spec max_words Hm s Hnw) as [outs [Hp Hds]].
  assert (Hk : kept_words s = chunk).
  { rewrite <- filtered_kept, Hw; now apply filter_all. }
  assert (Hfit : (List.length chunk <= Z.to_nat max_words)%nat)
    by (unfold len in Hlen; lia).
  rewrite Hk, (chunks_whole _ chunk Hne Hfit) in Hds.
  destruct (Forall2_single _ _ _ Hds) as (s' & -> & Hd').
  rewrite <- (describes_same chunk s s' Hd Hd') in Hp; exact Hp.
Qed.

End SplitterMore.

(** ** Spans of time in sequence *)

Section TimeFacts.

Import PyStr PyList Segmenter SplitterSpec TimeSpec.

Context {A : Type} (g : A -> span).


(** Spans are in sequence when none ends before it starts and each ends
    before every later one starts. *)
Lemma in_sequence_pairs (l : list A) :
  in_sequence (map g l) = true <-> Forall (fun a => fst (g a) <= snd (g a)) l /\ ForallOrdPairs (fun a b => snd (g a) <= fst (g b)) l.
Proof.
  induction l as [|x r IH]; cbn [map in_sequence].
  - split; [intros _; split; constructor | reflexivity].
  - rewrite !andb_true_iff, IH, Z.leb_le; split.
    + intros [[Hx Hxy] [Hok Hord]]; split; [now constructor|].
      constructor; [|exact Hord].
      destruct r as [|y r']; [constructor|]; cbn [map] in Hxy.
      apply Z.leb_le in Hxy; constructor; [exact Hxy|].
      inversion Hord as [|? ? Hy _]; inversion Hok as [|? ? Hoky _]; subst.
      revert Hy; apply Forall_impl; intros z Hz; cbv beta in *; lia.
    + intros [Hok Hord]; inversion Hok as [|? ? Hx Hok']; subst.
      inversion Hord as [|? ? Hxr Hord']; subst.
      repeat split; [exact Hx | | exact Hok' | exact Hord'].
      destruct r as [|y r']; [reflexivity|]; cbn [map].
      apply Z.leb_le; now inversion Hxr.
Qed.

Lemma ordered_pairs_app (l r : list A) :
  ForallOrdPairs (fun a b => snd (g a) <= fst (g b)) (l ++ r) <->
  ForallOrdPairs (fun a b => snd (g a) <= fst (g b)) l /\ ForallOrdPairs (fun a b => snd (g a) <= fst (g b)) r /\
  (forall x y, In x l -> In y r -> snd (g x) <= fst (g y)).
Proof.
  induction l as [|a l IH]; cbn [app].
  - split; [intros H; repeat split; [constructor | exact H | intros ? ? []]
           | intros (_ & H & _); exact H].
  - split.
    + intros H; inversion H as [|? ? Ha Hl]; subst.
      apply IH in Hl as (Hl & Hr & Hlr); apply Forall_app in Ha as [Hal Har].
      repeat split; [now constructor | exact Hr |].
      intros x y [<-|Hx] Hy; [|now apply Hlr].
      rewrite Forall_forall in Har; now apply Har.
    + intros (Hl & Hr & Hlr); inversion Hl as [|? ? Ha Hl']; subst.
      constructor.
      * apply Forall_app; split; [exact Ha|].
        apply Forall_forall; intros y Hy; apply Hlr; [now left | exact Hy].
      * apply IH; repeat split; [exact Hl' | exact Hr |].
        intros x y Hx Hy; apply Hlr; [now right | exact Hy].
Qed.

Lemma ordered_pairs_filter (f : A -> bool) (l : list A) :
  ForallOrdPairs (fun a b => snd (g a) <= fst (g b)) l -> ForallOrdPairs (fun a b => snd (g a) <= fst (g b)) (filter f l).
Proof.
  induction 1 as [|a l Ha _ IH]; cbn [filter]; [constructor|].
  destruct (f a); [|exact IH].
  constructor; [|exact IH].
  apply Forall_forall; intros y Hy; apply filter_In in Hy as [Hy _].
  rewrite Forall_forall in Ha; now apply Ha.
Qed.

Lemma in_sequence_filter (f : A -> bool) (l : list A) :
  in_sequence (map g l) = true -> in_sequence (map g (filter f l)) = true.
Proof.
  rewrite !in_sequence_pairs; intros [Hok Hord]; split.
  - apply Forall_forall; intros x Hx; apply filter_In in Hx as [Hx _].
    rewrite Forall_forall in Hok; now apply Hok.
  - now apply ordered_pairs_filter.
Qed.

Lemma last_of_cons (a b : A) (r : list A) :
  hd_error (rev (a :: r)) = Some b -> (r = [] /\ b = a) \/ In b r.
Proof.
  destruct r as [|c r]; [cbn; intros [= <-]; now left|].
  intros H; right; apply in_rev.
  cbn [rev] in H |- *.
  destruct (rev r ++ [c]) as [|d l] eqn:E; [now destruct (rev r)|].
  cbn in H; injection H as <-; now left.
Qed.

(** The first span of a sequence starts before its last span ends. *)
Lemma first_before_last (l : list A) (a b : A) :
  Forall (fun a => fst (g a) <= snd (g a)) l -> ForallOrdPairs (fun a b => snd (g a) <= fst (g b)) l ->
  hd_error l = Some a -> hd_error (rev l) = Some b ->
  fst (g a) <= snd (g b).
Proof.
  intros Hok Hord Ha Hb; destruct l as [|a' r]; [discriminate|].
  injection Ha as ->.
  inversion Hok as [|? ? Hoka Hokr]; inversion Hord as [|? ? Har _]; subst.
  destruct (last_of_cons a b r Hb) as [[_ ->]|Hin]; [exact Hoka|].
  rewrite Forall_forall in Har, Hokr.
  specialize (Har b Hin); specialize (Hokr b Hin).
  cbv beta in *; lia.
Qed.

End TimeFacts.

Section SplitTimeFacts.

Import PyStr PyList Segmenter SplitterSpec TimeSpec.

Lemma filter_concat {A : Type} (f : A -> bool) (ls : list (list A)) :
  filter f (concat ls) = concat (map (filter f) ls).
Proof.
  induction ls as [|l ls IH]; [reflexivity|].
  cbn [concat map]; now rewrite filter_app, IH.
Qed.

Lemma kept_words_filter (segment : TranscriptSegment.t) :
  kept_words segment = filter nonblank (words_of segment).
Proof.
  rewrite <- filtered_kept; unfold filtered_words, words_of.
  now destruct (TranscriptSegment.words segment).
Qed.

Lemma Forall2_concat {A B : Type} (R : A -> B -> Prop)
  (ls : list (list A)) (rs : list (list B)) :
  Forall2 (Forall2 R) ls rs -> Forall2 R (concat ls) (concat rs).
Proof.
  induction 1 as [|l r ls rs H _ IH]; [constructor|].
  cbn [concat]; now apply Forall2_app.
Qed.

Lemma Forall2_right {A B : Type} (R : A -> B -> Prop) (l : list A)
  (r : list B) (b : B) :
  Forall2 R l r -> In b r -> exists a, In a l /\ R a b.
Proof.
  induction 1 as [|a b' l r Hab _ IH]; intros Hin; [destruct Hin|].
  destruct Hin as [<-|Hin]; [exists a; split; [now left | exact Hab]|].
  destruct (IH Hin) as (a' & Ha' & HR); exists a'; split; [now right | exact HR].
Qed.

(** The output of a call that returns, flattened: the segments of chunks
    that are not empty, hold no more than [max_words] words and make up the
    kept words of the input in order. *)
Lemma split_described (segments out : list TranscriptSegment.t) (max_words : Z) :
  split_segments_by_max_words segments max_words = Return out ->
  exists cs : list (list WordTimestamp.t),
    Forall2 describes cs out /\
    concat cs = concat (map kept_words segments) /\
    Forall (fun c => c <> []) cs.
Proof.
  intros Hret.
  destruct (split_return_inv _ _ _ Hret) as [Hm Hw].
  destruct (split_returns segments max_words Hm Hw) as [per [Hrun Hper]].
  rewrite Hrun in Hret; injection Hret as <-.
  assert (Hn : (0 < Z.to_nat max_words)%nat) by lia.
  exists (concat (map (fun s => chunks (Z.to_nat max_words) (kept_words s))
                      segments)).
  split; [|split].
  - apply Forall2_concat.
    clear Hrun Hw; induction Hper as [|s outs ss per [_ Hd] _ IH];
      constructor; assumption.
  - clear - Hn; induction segments as [|s ss IH]; [reflexivity|].
    cbn [map concat]; rewrite concat_app, IH, concat_chunks by lia.
    reflexivity.
  - apply Forall_concat, Forall_forall; intros cs Hcs.
    apply in_map_iff in Hcs as (s & <- & _).
    pose proof (chunks_bounds (Z.to_nat max_words) (kept_words s) Hn) as HB.
    revert HB; apply Forall_impl; intros c Hc ->; cbn in Hc; lia.
Qed.

(** The segments of chunks whose words are in sequence are in sequence. *)
Lemma described_in_sequence (cs : list (list WordTimestamp.t))
  (outs : list TranscriptSegment.t) :
  Forall2 describes cs outs -> Forall (fun c => c <> []) cs ->
  in_sequence (map word_span (concat cs)) = true ->
  in_sequence (map segment_span outs) = true.
Proof.
  intros Hd Hne; rewrite !in_sequence_pairs.
  induction Hd as [|c s cs outs Hc Hd IH]; intros [Hok Hord];
    [split; constructor|].
  cbn [concat] in Hok, Hord.
  apply Forall_app in Hok as [Hokc Hokr].
  apply ordered_pairs_app in Hord as (Hordc & Hordr & Hcr).
  inversion Hne as [|? ? Hcne Hne']; subst.
  destruct (IH Hne' (conj Hokr Hordr)) as [IHok IHord].
  destruct Hc as (f & l & Hf & Hl & Hs & He & _ & _).
  split; constructor; try assumption.
  - cbn [segment_span fst snd]; rewrite Hs, He.
    apply (first_before_last word_span c f l Hokc Hordc Hf Hl).
  - apply Forall_forall; intros s' Hs'.
    destruct (Forall2_right _ _ _ _ Hd Hs') as (c' & Hc' & Hd').
    assert (Hc'ne : c' <> [])
      by (rewrite Forall_forall in Hne'; now apply Hne').
    destruct Hd' as (f' & l' & Hf' & _ & Hs'' & _).
    cbn [segment_span fst snd]; rewrite He, Hs''.
    apply (Hcr l f').
    + apply in_rev; destruct (rev c); [discriminate|].
      injection Hl as <-; now left.
    + apply in_concat; exists c'; split; [exact Hc'|].
      destruct c'; [discriminate|]; injection Hf' as <-; now left.
Qed.

End SplitTimeFacts.

(** ** Facts about the formatter's dispatch and file output *)

Section FormatFacts.

Import PyStr PyVal Formatters SrtSpec Json JsonSpec TranscriptFormatter.



Lemma str_eqb_refl (s : str) : str_eqb s s = true.
Proof. now apply str_eqb_eq. Qed.


Lemma within_In (a b : str) (c : char) : within a b -> In c a -> In c b.
Proof.
  intros (p & q & ->) Hc; apply in_or_app; right; apply in_or_app; now left.
Qed.

Lemma In_join (sep part : str) (parts : list str) (c : char) :
  In part parts -> In c part -> In c (join sep parts).
Proof.
  intros Hp Hc; induction parts as [|p ps IH]; [destruct Hp|].
  destruct ps as [|q ps].
  - destruct Hp as [<-|[]]; exact Hc.
  - rewrite join_cons2; apply in_or_app.
    destruct Hp as [<-|Hp]; [now left|].
    right; apply in_or_app; right; now apply IH.
Qed.

Lemma In_combine_r {A B : Type} (l : list A) (r : list B) (b : B) :
  List.length l = List.length r -> In b r -> exists a, In (a, b) (combine l r).
Proof.
  revert r; induction l as [|a l IH]; intros [|b' r] Hlen Hin;
    try discriminate; [destruct Hin|].
  destruct Hin as [<-|Hin]; [exists a; now left|].
  destruct (IH r ltac:(cbn in Hlen; lia) Hin) as [a' Ha'].
  exists a'; now right.
Qed.

(** A character of a segment's text stands in the SRT text. *)
Lemma format_srt_holds_text (t : Transcript.t) (seg : TranscriptSegment.t)
  (c : char) :
  In seg (Transcript.segments t) -> In c (TranscriptSegment.text seg) ->
  exists text, format_srt t = Return text /\ In c text.
Proof.
  intros Hseg Hc; unfold format_srt; rewrite srt_loop_lines; cbn [bind app].
  eexists; split; [reflexivity|].
  apply (In_join _ (TranscriptSegment.text seg)); [|exact Hc].
  destruct (In_combine_r
              (map (fun k => 1 + Z.of_nat k)
                   (seq 0 (List.length (Transcript.segments t))))
              (Transcript.segments t) seg) as [i Hi];
    [now rewrite length_map, length_seq | exact Hseg |].
  apply in_concat; eexists; split.
  - apply in_map_iff; exists (i, seg); split; [reflexivity | exact Hi].
  - right; right; left; reflexivity.
Qed.

(** A character of a segment's text that is not ASCII stands in the JSON
    text. *)
Lemma format_json_holds_text (t : Transcript.t) (seg : TranscriptSegment.t)
  (c : char) :
  In seg (Transcript.segments t) -> In c (TranscriptSegment.text seg) ->
  (127 < c)%N ->
  In c (JsonFormatter.format_json t).
Proof.
  intros Hseg Hc Hbig; rewrite transcript_text_encode.
  apply (within_In (encode_basestring (TranscriptSegment.text seg))).
  - apply (within_trans _ (segment_text 2 seg)).
    + unfold segment_text.
      eapply within_trans; [apply within_member | apply within_block].
      apply in_or_app; left; right; right; left; reflexivity.
    + unfold transcript_text.
      eapply within_trans; [|apply within_block; right; left; reflexivity].
      eapply within_trans; [|apply within_member].
      apply within_block, in_map, Hseg.
  - unfold encode_basestring; right; apply in_or_app; left.
    apply in_flat_map; exists c; split; [exact Hc|].
    rewrite escape_literal; [now left|].
    unfold literal.
    destruct (N.leb_spec 32 c); [|lia].
    destruct (N.eqb_spec c 34); [lia|].
    destruct (N.eqb_spec c 92); [lia | reflexivity].
Qed.

End FormatFacts.

(** ** [to_dict] keeps every field; the characters of the JSON text *)

Section ModelFacts.

Import PyStr PyFloat PyVal PyNum Formatters Json JsonSpec.

Lemma map_injective {A B : Type} (f : A -> B) :
  (forall x y, f x = f y -> x = y) ->
  forall l r, map f l = map f r -> l = r.
Proof.
  intros Hf; induction l as [|x l IH]; intros [|y r] H; try discriminate;
    [reflexivity|].
  injection H as Hxy Hlr; f_equal; [now apply Hf | now apply IH].
Qed.

Lemma word_to_dict_injective (w1 w2 : WordTimestamp.t) :
  WordTimestamp.to_dict w1 = WordTimestamp.to_dict w2 -> w1 = w2.
Proof.
  destruct w1, w2; unfold WordTimestamp.to_dict; cbn.
  intros [= -> -> ->]; reflexivity.
Qed.

Lemma segment_to_dict_injective (s1 s2 : TranscriptSegment.t) :
  TranscriptSegment.to_dict s1 = TranscriptSegment.to_dict s2 -> s1 = s2.
Proof.
  destruct s1 as [a1 b1 t1 [ws1|]], s2 as [a2 b2 t2 [ws2|]];
    unfold TranscriptSegment.to_dict; cbn [TranscriptSegment.start
      TranscriptSegment.end_ TranscriptSegment.text TranscriptSegment.words];
    try change (dict_set (lit "words") ?v ?d) with (d ++ [(lit "words", v)]);
    cbn [app]; intros H; try discriminate H.
  - injection H as -> -> -> H; do 2 f_equal.
    revert H; apply map_injective.
    intros w1 w2 H; apply word_to_dict_injective; congruence.
  - injection H as -> -> ->; reflexivity.
Qed.

Lemma transcript_to_dict_injective (t1 t2 : Transcript.t) :
  Transcript.to_dict t1 = Transcript.to_dict t2 -> t1 = t2.
Proof.
  destruct t1 as [ss1 l1], t2 as [ss2 l2]; unfold Transcript.to_dict;
    cbn [Transcript.segments Transcript.language].
  intros [= Hl Hs]; f_equal.
  - revert Hs; apply map_injective.
    intros s1 s2 H; apply segment_to_dict_injective; congruence.
  - destruct l1, l2; congruence.
Qed.

Lemma printable_check (s : str) :
  forallb (fun c => (32 <=? c)%N || (c =? 10)%N) s = true ->
  Forall (fun c => (32 <= c)%N \/ c = 10%N) s.
Proof.
  intros H; apply Forall_forall; intros c Hc.
  rewrite forallb_forall in H; specialize (H c Hc).
  apply orb_true_iff in H as [H|H]; [left; now apply N.leb_le|].
  right; now apply N.eqb_eq.
Qed.

Lemma digit_printable (c : char) : isdigit c = true -> (32 <= c)%N \/ c = 10%N.
Proof. intros H; apply isdigit_range in H; left; lia. Qed.

Lemma digits_printable (s : str) :
  Forall (fun c => isdigit c = true) s ->
  Forall (fun c => (32 <= c)%N \/ c = 10%N) s.
Proof. apply Forall_impl, digit_printable. Qed.

Lemma format_d_printable (w : nat) (z : Z) :
  Forall (fun c => (32 <= c)%N \/ c = 10%N) (format_d w z).
Proof.
  unfold format_d; repeat (apply Forall_app; split).
  - destruct (z <? 0); apply printable_check; reflexivity.
  - apply digits_printable, zeros_digits.
  - apply digits_printable, decimal_digits.
Qed.

Lemma repr_pos_printable (x : float) :
  Forall (fun c => (32 <= c)%N \/ c = 10%N) (repr_pos x).
Proof.
  unfold repr_pos; destruct (shortest x) as [m e]; cbv zeta.
  pose proof (digits_printable _ (decimal_digits (Z.to_N m))) as Hd.
  set (ds := decimal (Z.to_N m)) in *; clearbody ds.
  assert (Hf : forall k, Forall (fun c => (32 <= c)%N \/ c = 10%N) (firstn k ds)).
  { intros k; rewrite <- (firstn_skipn k ds) in Hd;
      now apply Forall_app in Hd. }
  assert (Hs : forall k, Forall (fun c => (32 <= c)%N \/ c = 10%N) (skipn k ds)).
  { intros k; rewrite <- (firstn_skipn k ds) in Hd;
      now apply Forall_app in Hd. }
  assert (Hz : forall k, Forall (fun c => (32 <= c)%N \/ c = 10%N)
                           (repeat 48%N k))
    by (intros k; apply digits_printable, zeros_digits).
  repeat match goal with
         | |- Forall _ (if ?b then _ else _) => destruct b
         | |- Forall _ (_ ++ _) => apply Forall_app; split
         | |- Forall _ (lit _) => apply printable_check; reflexivity
         | |- Forall _ [] => constructor
         end; auto using format_d_printable.
Qed.

Lemma float_repr_printable (x : float) :
  Forall (fun c => (32 <= c)%N \/ c = 10%N) (float_repr x).
Proof.
  unfold float_repr; destruct (x =? 0); [apply printable_check; reflexivity|].
  destruct (x <? 0); [apply Forall_app; split|]; try apply repr_pos_printable.
  apply printable_check; reflexivity.
Qed.

Lemma int_repr_printable (z : Z) :
  Forall (fun c => (32 <= c)%N \/ c = 10%N) (int_repr z).
Proof.
  unfold int_repr; apply Forall_app; split.
  - destruct (z <? 0); apply printable_check; reflexivity.
  - apply digits_printable, decimal_digits.
Qed.

Lemma hex_digit_printable (d : N) : (32 <= hex_digit d)%N.
Proof. unfold hex_digit; destruct (d <? 10)%N; lia. Qed.

Lemma escape_char_printable (c : char) :
  Forall (fun c => (32 <= c)%N \/ c = 10%N) (escape_char c).
Proof.
  unfold escape_char.
  destruct (c =? 34)%N; [apply printable_check; reflexivity|].
  destruct (c =? 92)%N; [apply printable_check; reflexivity|].
  destruct (c =? 10)%N; [apply printable_check; reflexivity|].
  destruct (c =? 13)%N; [apply printable_check; reflexivity|].
  destruct (c =? 9)%N; [apply printable_check; reflexivity|].
  destruct (c =? 8)%N; [apply printable_check; reflexivity|].
  destruct (c =? 12)%N; [apply printable_check; reflexivity|].
  destruct (N.ltb_spec c 32).
  - do 4 (constructor; [left; lia|]).
    do 2 (constructor; [left; apply hex_digit_printable|]).
    constructor.
  - constructor; [now left | constructor].
Qed.

Lemma encode_basestring_printable (s : str) :
  Forall (fun c => (32 <= c)%N \/ c = 10%N) (encode_basestring s).
Proof.
  unfold encode_basestring; constructor; [left; lia|].
  apply Forall_app; split; [|apply printable_check; reflexivity].
  induction s as [|c s IH]; [constructor|].
  cbn [flat_map]; apply Forall_app; split;
    [apply escape_char_printable | exact IH].
Qed.

Lemma newline_indent_printable (level : nat) :
  Forall (fun c => (32 <= c)%N \/ c = 10%N) (newline_indent level).
Proof.
  unfold newline_indent; constructor; [now right|].
  induction (2 * level)%nat; constructor; [left; lia | assumption].
Qed.

(** The text of a value holds no control character but the line feed. *)
Lemma encode_printable (v : value) :
  forall level, Forall (fun c => (32 <= c)%N \/ c = 10%N) (encode level v).
Proof.
  induction v as [| b | z | x | s | l IH | d IH] using value_nested_ind;
    intros level.
  - apply printable_check; reflexivity.
  - destruct b; apply printable_check; reflexivity.
  - apply int_repr_printable.
  - apply float_repr_printable.
  - apply encode_basestring_printable.
  - destruct l as [|x l]; [apply printable_check; reflexivity|].
    rewrite encode_list; inversion IH as [|? ? Hx Hl]; subst.
    repeat (apply Forall_app; split);
      auto using newline_indent_printable;
      try (apply printable_check; reflexivity).
    apply Forall_concat, Forall_map.
    revert Hl; apply Forall_impl; intros y Hy.
    repeat (apply Forall_app; split);
      auto using newline_indent_printable;
      apply printable_check; reflexivity.
  - destruct d as [|kv d]; [apply printable_check; reflexivity|].
    rewrite encode_dict; inversion IH as [|? ? Hx Hl]; subst.
    repeat (apply Forall_app; split);
      auto using newline_indent_printable, encode_basestring_printable;
      try (apply printable_check; reflexivity).
    apply Forall_concat, Forall_map.
    revert Hl; apply Forall_impl; intros y Hy.
    repeat (apply Forall_app; split);
      auto using newline_indent_printable, encode_basestring_printable;
      apply printable_check; reflexivity.
Qed.

End ModelFacts.

(** ** More about SRT time stamps *)

Section SrtTimeMore.

Import PyStr PyFloat PyNum Formatters.

(** The time stamp of a time that is not negative, by its fields. *)
Lemma srt_time_nonneg (s : float) :
  0 <= s < 2 ^ 57 * one ->
  _seconds_to_srt_time s
  = Return (srt_time_string (s / (3600 * one))
              (s mod (3600 * one) / (60 * one))
              (s mod (60 * one) / one)
              (to_int (mul (s mod one) (of_int 1000)))).
Proof.
  intros Hs; pose proof one_pos as H1.
  pose proof (Z.mod_pos_bound s (3600 * one) ltac:(lia)) as Hr.
  pose proof (Z.mod_pos_bound s (60 * one) ltac:(lia)) as Hs60.
  unfold _seconds_to_srt_time.
  rewrite hours_exact by lia; cbn [bind].
  rewrite of_int_3600, rem_nonneg by lia; cbn [bind].
  rewrite minutes_exact by lia; cbn [bind].
  rewrite of_int_60, rem_nonneg by lia; cbn [bind].
  rewrite of_int_1, rem_nonneg by lia; cbn [bind].
  rewrite !to_int_scaled, (to_int_nonneg (s mod (60 * one))) by lia.
  reflexivity.
Qed.

(** The fields of a time stamp are those of the whole seconds. *)
Lemma mod_div_scaled (s b k : Z) :
  0 < b -> 0 < k -> s mod (k * b) / b = (s / b) mod k.
Proof.
  intros Hb Hk.
  rewrite (Z.mul_comm k b), Z.rem_mul_r by lia.
  rewrite (Z.mul_comm b), Z.div_add by lia.
  rewrite Z.div_small by (apply Z.mod_pos_bound; lia); lia.
Qed.

Lemma whole_seconds_fields (s : float) :
  0 <= s ->
  3600 * (s / (3600 * one)) + 60 * (s mod (3600 * one) / (60 * one))
  + s mod (60 * one) / one = s / one.
Proof.
  intros Hs; pose proof one_pos as H1.
  rewrite (mod_div_scaled s one 60) by lia.
  replace (s mod (3600 * one) / (60 * one))
    with ((s / one) mod 3600 / 60).
  - rewrite (Z.mul_comm 3600 one), <- Z.div_div by lia.
    generalize (s / one); clear; intros q; Z.div_mod_to_equations; lia.
  - rewrite (Z.mul_comm 60 one), <- Z.div_div by lia.
    now rewrite (mod_div_scaled s one 3600) by lia.
Qed.

(** The milliseconds of a time stamp: those of the fraction, or one more
    when the product is rounded up to a whole number. *)
Lemma millis_close (f : Z) :
  0 <= f < one ->
  1000 * f / one <= to_int (mul f (of_int 1000)) <= 1000 * f / one + 1.
Proof.
  intros Hf; pose proof one_pos as H1.
  rewrite of_int_small by (split; [lia | vm_compute; reflexivity]).
  set (j := 1000 * f / one).
  assert (Hj : 0 <= j < 1000).
  { unfold j; split; [apply Z.div_pos; lia |].
    apply Z.div_lt_upper_bound; lia. }
  assert (Hlo : j * one <= 1000 * f)
    by (unfold j; rewrite Z.mul_comm; apply Z.mul_div_le; lia).
  assert (Hhi : 1000 * f < (j + 1) * one).
  { unfold j; pose proof (Z.mod_pos_bound (1000 * f) one H1).
    pose proof (Z.div_mod (1000 * f) one ltac:(lia)); lia. }
  assert (Hexact : forall k, 0 <= k <= 1000 -> round (k * one * one) one = k * one).
  { intros k Hk; apply round_id; [|lia | lia].
    unfold one at 1; apply binary64_scaled; [|lia].
    split; [lia|]. assert (2 ^ 10 <= 2 ^ 53) by (apply Z.pow_le_mono_r; lia).
    change (2 ^ 10) with 1024 in *; lia. }
  assert (Hge : j * one <= mul f (1000 * one)).
  { rewrite <- (Hexact j) by lia; unfold mul.
    apply round_mono; [lia | nia | nia]. }
  assert (Hle : mul f (1000 * one) <= (j + 1) * one).
  { rewrite <- (Hexact (j + 1)) by lia; unfold mul.
    apply round_mono; [lia | nia | nia]. }
  rewrite to_int_nonneg by lia.
  split.
  - apply Z.div_le_lower_bound; lia.
  - apply Z.div_le_upper_bound; lia.
Qed.

(** The number of characters of a numeral. *)
Lemma digits_value_bound (ds : str) :
  Forall (fun c => isdigit c = true) ds ->
  (digits_value ds < 10 ^ N.of_nat (List.length ds))%N.
Proof.
  induction 1 as [|c ds Hc _ IH]; [cbn; lia|].
  rewrite digits_value_cons; apply isdigit_range in Hc.
  cbn [List.length]; rewrite Nat2N.inj_succ, N.pow_succ_r'.
  set (p := (10 ^ N.of_nat (List.length ds))%N) in *.
  assert ((c - 48) * p <= 9 * p)%N by (apply N.mul_le_mono_r; lia).
  lia.
Qed.

Lemma format_d_long (z : Z) : 100 <= z -> (3 <= List.length (format_d 2 z))%nat.
Proof.
  intros Hz; rewrite format_d_nonneg, length_app by lia.
  pose proof (digits_value_bound _ (decimal_digits (Z.to_N z))) as Hb.
  rewrite decimal_value in Hb.
  unfold str, char in *.
  set (n := @List.length N (decimal (Z.to_N z))) in *; clearbody n.
  destruct (Nat.le_gt_cases 3 n) as [|Hshort]; [lia|].
  assert (10 ^ N.of_nat n <= 10 ^ 2)%N by (apply N.pow_le_mono_r; lia).
  change (10 ^ 2)%N with 100%N in *; lia.
Qed.

Lemma format_d_hours (z : Z) :
  0 <= z <= 99 -> List.length (format_d 2 z) = 2%nat.
Proof.
  intros Hz; apply (format_d_width 2 100); [vm_compute; reflexivity | lia].
Qed.

(** A small negative time: the hours are [-1]. *)
Lemma hours_negative (s : float) :
  - (3600 * one) < s < 0 -> floor_div s (of_int 3600) = Return (- one).
Proof.
  intros Hs; pose proof one_pos as H1.
  rewrite of_int_3600; unfold floor_div.
  destruct (Z.eqb_spec (3600 * one) 0); [lia|].
  assert (Hmod : fmod s (3600 * one) = s)
    by (unfold fmod; apply Z.rem_small_iff; lia).
  rewrite Hmod.
  assert (E0 : sub s s = 0) by (unfold sub; now rewrite Z.sub_diag).
  rewrite E0.
  assert (Ed : div 0 (3600 * one) = 0) by (vm_compute; reflexivity).
  rewrite Ed.
  destruct (Z.eqb_spec s 0); [lia|].
  destruct (Z.ltb_spec (3600 * one) 0); [lia|].
  destruct (Z.ltb_spec s 0); [|lia].
  cbn [negb Bool.eqb andb].
  assert (E1 : sub 0 one = - one) by (vm_compute; reflexivity).
  rewrite E1.
  destruct (Z.eqb_spec (- one) 0); [lia|]; cbn [negb].
  assert (Ef : floor (- one) = - one) by (vm_compute; reflexivity).
  rewrite Ef.
  assert (E2 : sub (- one) (- one) = 0) by (vm_compute; reflexivity).
  rewrite E2.
  destruct (Z.ltb_spec (one / 2) 0); [|reflexivity].
  assert (0 <= one / 2) by (apply Z.div_pos; lia); lia.
Qed.

End SrtTimeMore.

(* ================================================================== *)
(** * The claims of the specification *)

Section SrtTimeClaim.

Import PyStr PyFloat Formatters.

(** C4.  SRT time conversion.  For every finite binary64 number of seconds
    [s >= 0], [_seconds_to_srt_time] returns the string
    [HH:MM:SS,mmm] built from hours = [s // 3600] (the exact floor of
    [s / 3600] for every [s] below [2^57] seconds), minutes = the floor of
    [(s mod 3600) / 60], secs = the floor of [s mod 60] and millis = the floor
    of the binary64 product [(s mod 1) * 1000], the remainders being exact.
    Minutes and secs stay within 0..59 and millis within 0..999, so the three
    fields have exactly 2, 2 and 3 digits and nothing is carried into the next
    field.  In particular [0.0] gives [00:00:00,000], [3661.9994] gives
    [01:01:01,999] and [59.9996] gives [00:00:59,999]. *)
Theorem seconds_to_srt_time_fields :
  (forall s : float,
      is_binary64 s = true -> 0 <= s ->
      exists hours minutes secs millis : Z,
        _seconds_to_srt_time s
        = Return (srt_time_string hours minutes secs millis) /\
        (exists h, floor_div s (of_int 3600) = Return h /\ hours = to_int h) /\
        (s < 2 ^ 57 * one -> hours = s / (3600 * one)) /\
        minutes = (s mod (3600 * one)) / (60 * one) /\
        secs = (s mod (60 * one)) / one /\
        millis = mul (s mod one) (of_int 1000) / one /\
        0 <= minutes <= 59 /\ 0 <= secs <= 59 /\ 0 <= millis <= 999 /\
        List.length (format_d 2 minutes) = 2%nat /\
        List.length (format_d 2 secs) = 2%nat /\
        List.length (format_d 3 millis) = 3%nat) /\
  _seconds_to_srt_time (of_decimal 0 10) = Return (lit "00:00:00,000") /\
  _seconds_to_srt_time (of_decimal 36619994 10000)
  = Return (lit "01:01:01,999") /\
  _seconds_to_srt_time (of_decimal 599996 10000)
  = Return (lit "00:00:59,999").
Proof.
  split; [|split; [|split]; vm_compute; reflexivity].
  intros s Hb H0; pose proof one_pos as H1.
  assert (E3600 : of_int 3600 = 3600 * one)
    by (apply of_int_small; split; [lia | vm_compute; reflexivity]).
  assert (E60 : of_int 60 = 60 * one)
    by (apply of_int_small; split; [lia | vm_compute; reflexivity]).
  assert (E1 : of_int 1 = one)
    by (rewrite of_int_small; [lia | split; [lia | vm_compute; reflexivity]]).
  destruct (floor_div_returns s (of_int 3600)) as [h Hh]; [lia|].
  pose proof (Z.mod_pos_bound s (3600 * one) ltac:(lia)) as Hr.
  pose proof (Z.mod_pos_bound s (60 * one) ltac:(lia)) as Hs60.
  pose proof (Z.mod_pos_bound s one H1) as Hf.
  pose proof (frac_bound s Hb H0) as Hfb.
  pose proof (millis_bound (s mod one) ltac:(lia)) as Hms.
  assert (Hmin : 0 <= s mod (3600 * one) / (60 * one) <= 59).
  { split; [apply Z.div_pos; lia|].
    assert (s mod (3600 * one) / (60 * one) < 60)
      by (apply Z.div_lt_upper_bound; lia). lia. }
  assert (Hsec : 0 <= s mod (60 * one) / one <= 59).
  { split; [apply Z.div_pos; lia|].
    assert (s mod (60 * one) / one < 60)
      by (apply Z.div_lt_upper_bound; lia). lia. }
  exists (to_int h), (s mod (3600 * one) / (60 * one)),
    (s mod (60 * one) / one), (to_int (mul (s mod one) (of_int 1000))).
  split.
  { unfold _seconds_to_srt_time.
    rewrite Hh; cbn [bind].
    rewrite E3600, rem_nonneg by lia; cbn [bind].
    rewrite minutes_exact by lia; cbn [bind].
    rewrite E60, rem_nonneg by lia; cbn [bind].
    rewrite E1, rem_nonneg by lia; cbn [bind].
    rewrite to_int_scaled, (to_int_nonneg (s mod (60 * one))) by lia.
    reflexivity. }
  split; [exists h; split; [exact Hh | reflexivity]|].
  split.
  { intros Hlt. rewrite (hours_exact s) in Hh by lia.
    injection Hh as <-. apply to_int_scaled. }
  split; [reflexivity|].
  split; [reflexivity|].
  split.
  { apply to_int_nonneg. unfold mul. apply round_nonneg; [lia|].
    rewrite of_int_small by (split; [lia | vm_compute; reflexivity]). nia. }
  split; [exact Hmin|].
  split; [exact Hsec|].
  split; [exact Hms|].
  split; [apply format_d_two_digits; exact Hmin|].
  split; [apply format_d_two_digits; exact Hsec|].
  apply format_d_three_digits; exact Hms.
Qed.

Lemma seconds_to_srt_time_fields_witness :
  exists hours minutes secs millis : Z,
    _seconds_to_srt_time (of_decimal 36619994 10000)
    = Return (srt_time_string hours minutes secs millis) /\
    (exists h, floor_div (of_decimal 36619994 10000) (of_int 3600) = Return h
               /\ hours = to_int h) /\
    (of_decimal 36619994 10000 < 2 ^ 57 * one ->
     hours = of_decimal 36619994 10000 / (3600 * one)) /\
    minutes = (of_decimal 36619994 10000 mod (3600 * one)) / (60 * one) /\
    secs = (of_decimal 36619994 10000 mod (60 * one)) / one /\
    millis = mul (of_decimal 36619994 10000 mod one) (of_int 1000) / one /\
    0 <= minutes <= 59 /\ 0 <= secs <= 59 /\ 0 <= millis <= 999 /\
    List.length (format_d 2 minutes) = 2%nat /\
    List.length (format_d 2 secs) = 2%nat /\
    List.length (format_d 3 millis) = 3%nat.
Proof.
  apply (proj1 seconds_to_srt_time_fields (of_decimal 36619994 10000)).
  - vm_compute; reflexivity.
  - vm_compute; discriminate.
Defined.

End SrtTimeClaim.

Section SplitterClaims.

Import PyStr PyList Segmenter SplitterSpec.

(** The scenario of the specification, run on the code: [max_words = 2] on
    the words a, b, c gives the segments [0.0 .. 1.0 "a b"] and
    [1.0 .. 1.5 "c"]. *)
Example split_scenario :
  split_segments_by_max_words [Scenario.segment_abc] 2
  = Return
      [TranscriptSegment.mk Scenario.t00 Scenario.t10 (lit "a b")
         (Some [Scenario.word_a; Scenario.word_b]);
       TranscriptSegment.mk Scenario.t10 Scenario.t15 (lit "c")
         (Some [Scenario.word_c])].
Proof. vm_compute; reflexivity. Qed.

(** C1.  For a positive [max_words] and segments that all carry words, the
    call returns the concatenation, in input order, of one group of output
    segments per input segment; the group of a segment holds, in chunk order,
    one output segment per chunk of that segment's kept words (the words
    whose text is not empty after trimming), and each output segment has the
    start of its chunk's first word, the end of its chunk's last word, the
    trimmed texts of the chunk joined by single spaces as text, and the chunk
    itself as words. *)
Theorem split_chunks_each_segment
  (segments : list TranscriptSegment.t) (max_words : Z) :
  0 < max_words ->
  Forall (fun segment => ~ lacks_words segment) segments ->
  exists per_segment : list (list TranscriptSegment.t),
    split_segments_by_max_words segments max_words
    = Return (concat per_segment) /\
    Forall2 (fun segment outs =>
               produced_by max_words segment outs /\
               Forall2 describes
                 (chunks (Z.to_nat max_words) (kept_words segment)) outs)
            segments per_segment.
Proof.
  intros Hm Hw; apply split_returns; [exact Hm|].
  revert Hw; apply Forall_impl; intros s Hs.
  destruct (not_words (TranscriptSegment.words s)) eqn:E; [|reflexivity].
  now apply not_words_lacks in E.
Qed.

Lemma split_chunks_each_segment_witness :
  exists per_segment : list (list TranscriptSegment.t),
    split_segments_by_max_words
      [Scenario.segment_abc; Scenario.segment_blank] 2
    = Return (concat per_segment) /\
    Forall2 (fun segment outs =>
               produced_by 2 segment outs /\
               Forall2 describes
                 (chunks (Z.to_nat 2) (kept_words segment)) outs)
            [Scenario.segment_abc; Scenario.segment_blank] per_segment.
Proof.
  apply (split_chunks_each_segment
           [Scenario.segment_abc; Scenario.segment_blank] 2).
  - reflexivity.
  - repeat constructor; intros [H|H]; discriminate H.
Defined.

(** C2.  When a call with [max_words = m] returns, every output segment has
    at most [m] words, and within the output segments of one input segment
    every segment but the last has exactly [m] words. *)
Theorem split_word_count_bound
  (segments out : list TranscriptSegment.t) (max_words : Z) :
  split_segments_by_max_words segments max_words = Return out ->
  exists per_segment : list (list TranscriptSegment.t),
    out = concat per_segment /\
    Forall2 (produced_by max_words) segments per_segment /\
    (forall s, In s out -> len (words_of s) <= max_words) /\
    (forall outs pre s post,
        In outs per_segment -> outs = pre ++ s :: post -> post <> [] ->
        len (words_of s) = max_words).
Proof.
  intros Hret.
  destruct (split_return_inv _ _ _ Hret) as [Hm Hw].
  destruct (split_returns segments max_words Hm Hw) as [per [Hrun Hper]].
  rewrite Hrun in Hret; injection Hret as <-.
  exists per; split; [reflexivity|].
  assert (Hn : (0 < Z.to_nat max_words)%nat) by lia.
  assert (Hgroups : forall outs, In outs per ->
            exists segment,
              map words_of outs
              = chunks (Z.to_nat max_words) (kept_words segment)).
  { clear Hrun Hw; induction Hper as [|segment outs0 ss per [_ Hd] _ IH];
      intros outs Hin; [destruct Hin|].
    destruct Hin as [<-|Hin]; [|now apply IH].
    exists segment; now apply describes_all_words. }
  split; [|split].
  - clear Hrun Hgroups Hw; induction Hper as [|? ? ? ? [Hp _] _ IH];
      constructor; auto.
  - intros s Hin; apply in_concat in Hin as [outs [Hin Hs]].
    destruct (Hgroups outs Hin) as [segment Hc].
    pose proof (chunks_bounds (Z.to_nat max_words) (kept_words segment) Hn) as HB.
    rewrite <- Hc in HB; rewrite Forall_forall in HB.
    specialize (HB (words_of s) (in_map words_of _ _ Hs)).
    unfold len; lia.
  - intros outs pre s post Hin -> Hpost.
    destruct (Hgroups _ Hin) as [segment Hc].
    rewrite map_app in Hc; cbn [map] in Hc.
    unfold len.
    rewrite (chunks_full (Z.to_nat max_words) (kept_words segment) Hn
               (map words_of pre) (words_of s) (map words_of post));
      [lia | now symmetry | destruct post; [congruence | discriminate]].
Qed.

Lemma split_word_count_bound_witness :
  exists per_segment : list (list TranscriptSegment.t),
    [TranscriptSegment.mk Scenario.t00 Scenario.t10 (lit "a b")
       (Some [Scenario.word_a; Scenario.word_b]);
     TranscriptSegment.mk Scenario.t10 Scenario.t15 (lit "c")
       (Some [Scenario.word_c])]
    = concat per_segment /\
    Forall2 (produced_by 2) [Scenario.segment_abc] per_segment /\
    (forall s,
        In s [TranscriptSegment.mk Scenario.t00 Scenario.t10 (lit "a b")
                (Some [Scenario.word_a; Scenario.word_b]);
              TranscriptSegment.mk Scenario.t10 Scenario.t15 (lit "c")
                (Some [Scenario.word_c])] ->
        len (words_of s) <= 2) /\
    (forall outs pre s post,
        In outs per_segment -> outs = pre ++ s :: post -> post <> [] ->
        len (words_of s) = 2).
Proof.
  apply (split_word_count_bound [Scenario.segment_abc]).
  vm_compute; reflexivity.
Defined.

(** C9.  When a call returns, the words of the output segments produced from
    one input segment, concatenated in output order, are exactly that
    segment's kept words in their original order. *)
Theorem split_preserves_word_order
  (segments out : list TranscriptSegment.t) (max_words : Z) :
  split_segments_by_max_words segments max_words = Return out ->
  exists per_segment : list (list TranscriptSegment.t),
    out = concat per_segment /\
    Forall2 (fun segment outs =>
               produced_by max_words segment outs /\
               concat (map words_of outs) = kept_words segment)
            segments per_segment.
Proof.
  intros Hret.
  destruct (split_return_inv _ _ _ Hret) as [Hm Hw].
  destruct (split_returns segments max_words Hm Hw) as [per [Hrun Hper]].
  rewrite Hrun in Hret; injection Hret as <-.
  exists per; split; [reflexivity|].
  clear Hrun Hw; induction Hper as [|segment outs ss per [Hp Hd] _ IH];
    constructor; [|exact IH].
  split; [exact Hp|].
  rewrite (describes_all_words _ _ Hd).
  apply concat_chunks; lia.
Qed.

Lemma split_preserves_word_order_witness :
  exists per_segment : list (list TranscriptSegment.t),
    [TranscriptSegment.mk Scenario.t00 Scenario.t10 (lit "a b")
       (Some [Scenario.word_a; Scenario.word_b]);
     TranscriptSegment.mk Scenario.t10 Scenario.t15 (lit "c")
       (Some [Scenario.word_c])]
    = concat per_segment /\
    Forall2 (fun segment outs =>
               produced_by 2 segment outs /\
               concat (map words_of outs) = kept_words segment)
            [Scenario.segment_abc; Scenario.segment_blank] per_segment.
Proof.
  apply (split_preserves_word_order
           [Scenario.segment_abc; Scenario.segment_blank]).
  vm_compute; reflexivity.
Defined.

(** C3.  A call with [max_words <= 0] raises the invalid-argument error
    whatever the segments are; a call with a positive [max_words] on a list
    in which some segment lacks word data raises the missing-word-timestamps
    error, so that no list is returned; the two errors differ. *)
Theorem split_precondition_failures
  (segments : list TranscriptSegment.t) (max_words : Z) :
  (max_words <= 0 ->
   split_segments_by_max_words segments max_words = Raise InvalidArgument) /\
  (0 < max_words -> Exists lacks_words segments ->
   split_segments_by_max_words segments max_words
   = Raise MissingWordTimestamps) /\
  InvalidArgument <> MissingWordTimestamps.
Proof.
  unfold split_segments_by_max_words; repeat split.
  - intros Hm; destruct (Z.leb_spec max_words 0); [reflexivity | lia].
  - intros Hm HE; destruct (Z.leb_spec max_words 0); [lia|].
    apply for_segments_missing; [exact Hm|].
    revert HE; apply Exists_impl; intros s; apply not_words_lacks.
  - discriminate.
Qed.

Lemma split_precondition_failures_witness :
  split_segments_by_max_words [Scenario.segment_plain] 0
  = Raise InvalidArgument /\
  split_segments_by_max_words
    [Scenario.segment_abc; Scenario.segment_plain] 2
  = Raise MissingWordTimestamps.
Proof.
  split.
  - apply (proj1 (split_precondition_failures [Scenario.segment_plain] 0)).
    discriminate.
  - apply (proj1 (proj2 (split_precondition_failures
                           [Scenario.segment_abc; Scenario.segment_plain] 2))).
    + reflexivity.
    + apply Exists_cons_tl, Exists_cons_hd; left; reflexivity.
Defined.

(** C10.  A call with a positive [max_words] on a list that contains a
    segment whose word list is present and empty raises the
    missing-word-timestamps error: such a segment is not dropped. *)
Theorem split_empty_words_raises
  (segments : list TranscriptSegment.t) (segment : TranscriptSegment.t)
  (max_words : Z) :
  0 < max_words -> In segment segments ->
  TranscriptSegment.words segment = Some [] ->
  split_segments_by_max_words segments max_words = Raise MissingWordTimestamps.
Proof.
  intros Hm Hin Hw.
  apply (proj1 (proj2 (split_precondition_failures segments max_words)));
    [exact Hm|].
  apply Exists_exists; exists segment; split; [exact Hin | now right].
Qed.

Lemma split_empty_words_raises_witness :
  split_segments_by_max_words
    [Scenario.segment_abc; Scenario.segment_empty] 2
  = Raise MissingWordTimestamps.
Proof.
  apply (split_empty_words_raises
           [Scenario.segment_abc; Scenario.segment_empty]
           Scenario.segment_empty 2).
  - reflexivity.
  - right; left; reflexivity.
  - reflexivity.
Defined.

(** C8.  A segment that has words, all of them empty after trimming, adds no
    output segment and raises no error: the call gives what it gives on the
    list without that segment.  On such a segment alone the call returns the
    empty list, fewer segments than it was given. *)
Theorem split_drops_blank_segment
  (pre post : list TranscriptSegment.t) (segment : TranscriptSegment.t)
  (ws : list WordTimestamp.t) (max_words : Z) :
  TranscriptSegment.words segment = Some ws -> ws <> [] ->
  Forall (fun w => strip (WordTimestamp.word w) = []) ws ->
  split_segments_by_max_words (pre ++ segment :: post) max_words
  = split_segments_by_max_words (pre ++ post) max_words /\
  (0 < max_words ->
   split_segments_by_max_words [segment] max_words = Return []).
Proof.
  intros Hw Hne Hblank.
  assert (Hskip : forall acc, segment_body segment max_words acc = Return acc)
    by (intros acc; now apply (segment_body_blank segment max_words ws)).
  unfold split_segments_by_max_words; split.
  - destruct (max_words <=? 0); [reflexivity|].
    now apply for_segments_skip.
  - intros Hm; destruct (Z.leb_spec max_words 0); [lia|].
    cbn [for_segments]; now rewrite Hskip.
Qed.

Lemma split_drops_blank_segment_witness :
  split_segments_by_max_words
    ([Scenario.segment_abc] ++ Scenario.segment_blank :: []) 2
  = split_segments_by_max_words ([Scenario.segment_abc] ++ []) 2 /\
  (0 < 2 ->
   split_segments_by_max_words [Scenario.segment_blank] 2 = Return []).
Proof.
  apply (split_drops_blank_segment [Scenario.segment_abc] []
           Scenario.segment_blank
           [Scenario.word_blank; Scenario.word_blank] 2).
  - reflexivity.
  - discriminate.
  - repeat constructor.
Defined.

End SplitterClaims.

Section ModelClaims.

Import PyStr PyVal.

(** C5.  [TranscriptSegment.to_dict] has no [words] key when the segment has
    no word data and has it, holding the list of the words' dicts, whenever
    the word list is present, the empty list included; [Transcript.to_dict]
    always has the [language] key, holding [None] when no language was
    detected. *)
Theorem to_dict_words_omitted_language_null :
  (forall segment,
      TranscriptSegment.words segment = None ->
      dict_get (lit "words") (TranscriptSegment.to_dict segment) = None /\
      dict_keys (TranscriptSegment.to_dict segment)
      = [lit "start"; lit "end"; lit "text"]) /\
  (forall segment ws,
      TranscriptSegment.words segment = Some ws ->
      dict_get (lit "words") (TranscriptSegment.to_dict segment)
      = Some (VList (map (fun w => VDict (WordTimestamp.to_dict w)) ws)) /\
      dict_keys (TranscriptSegment.to_dict segment)
      = [lit "start"; lit "end"; lit "text"; lit "words"]) /\
  (forall transcript,
      dict_get (lit "language") (Transcript.to_dict transcript)
      = Some (match Transcript.language transcript with
              | Some code => VStr code
              | None => VNone
              end) /\
      dict_keys (Transcript.to_dict transcript)
      = [lit "language"; lit "segments"]).
Proof.
  split; [|split].
  - intros segment Hw; unfold TranscriptSegment.to_dict; rewrite Hw.
    split; reflexivity.
  - intros segment ws Hw; unfold TranscriptSegment.to_dict; rewrite Hw.
    split; reflexivity.
  - intros transcript; split; reflexivity.
Qed.

Lemma to_dict_words_omitted_language_null_witness :
  (dict_get (lit "words") (TranscriptSegment.to_dict Scenario.segment_hi)
   = None /\
   dict_keys (TranscriptSegment.to_dict Scenario.segment_hi)
   = [lit "start"; lit "end"; lit "text"]) /\
  (dict_get (lit "words") (TranscriptSegment.to_dict Scenario.segment_empty)
   = Some (VList []) /\
   dict_keys (TranscriptSegment.to_dict Scenario.segment_empty)
   = [lit "start"; lit "end"; lit "text"; lit "words"]).
Proof.
  split.
  - apply (proj1 to_dict_words_omitted_language_null Scenario.segment_hi).
    reflexivity.
  - apply (proj1 (proj2 to_dict_words_omitted_language_null)
             Scenario.segment_empty []).
    reflexivity.
Defined.

End ModelClaims.

Section SrtClaims.

Import PyStr Formatters SrtSpec.

(** C6, as the code has it.  [format_srt] returns, for every transcript, the
    blocks of its segments in order, numbered 1, 2, ... whatever the segments
    hold, each block being the index, a newline, the line
    [<start> --> <end>] with both times converted by [_seconds_to_srt_time],
    a newline, the text, a newline and an empty line -- without the newline
    that would end the last block: the empty line stands between entries, so
    the output ends with the single newline after the last text.  For a
    transcript without segments the output is empty. *)
Theorem format_srt_blocks (transcript : Transcript.t) :
  exists out : str,
    format_srt transcript = Return out /\
    (Transcript.segments transcript = [] -> out = []) /\
    (Transcript.segments transcript <> [] ->
     out ++ newline = blocks 1 (Transcript.segments transcript)).
Proof.
  unfold format_srt; rewrite srt_loop_lines; cbn [bind app].
  eexists; split; [reflexivity|]; split.
  - intros ->; reflexivity.
  - intros Hne; now apply join_lines_blocks.
Qed.

(** C6 as stated fails: the output for one segment is not its block, the
    final newline of the block is missing. *)
Lemma format_srt_last_block_counterexample :
  format_srt Scenario.transcript_hi
  = Return (lit "1" ++ newline ++ lit "00:00:00,000 --> 00:00:01,199"
            ++ newline ++ lit "hi" ++ newline) /\
  blocks 1 (Transcript.segments Scenario.transcript_hi)
  = lit "1" ++ newline ++ lit "00:00:00,000 --> 00:00:01,199"
    ++ newline ++ lit "hi" ++ newline ++ newline /\
  lit "1" ++ newline ++ lit "00:00:00,000 --> 00:00:01,199"
  ++ newline ++ lit "hi" ++ newline
  <> blocks 1 (Transcript.segments Scenario.transcript_hi).
Proof.
  split; [vm_compute; reflexivity|].
  split; [vm_compute; reflexivity|].
  vm_compute; discriminate.
Qed.

End SrtClaims.

Section JsonClaims.

Import PyStr PyVal.

(** C7.  For a transcript whose times are binary64 values, [json.loads]
    reads the text of [format_json] as the dict of [Transcript.to_dict]; the
    text is laid out with every item on a line of its own, two spaces deeper
    for every level of nesting; a character that is not ASCII is written as
    it is, and the text of a segment that holds no control character, quote
    or backslash stands in the output between quotes, unchanged. *)
Theorem format_json_round_trip (t : Transcript.t) :
  JsonSpec.binary64_times t = true ->
  Json.loads (JsonFormatter.format_json t)
  = Return (VDict (Transcript.to_dict t))
  /\ JsonFormatter.format_json t = JsonSpec.transcript_text t
  /\ (forall c : char, (127 < c)%N -> Json.escape_char c = [c])
  /\ (forall seg,
         In seg (Transcript.segments t) ->
         forallb JsonSpec.literal (TranscriptSegment.text seg) = true ->
         JsonSpec.within (JsonSpec.quoted (TranscriptSegment.text seg))
                         (JsonFormatter.format_json t)).
Proof.
  intros Htimes; split; [|split; [|split]].
  - apply loads_dumps, to_dict_well_formed, Htimes.
  - apply transcript_text_encode.
  - intros c Hc; apply escape_literal; unfold JsonSpec.literal.
    destruct (N.leb_spec 32 c); [|lia].
    destruct (N.eqb_spec c 34); [lia|].
    destruct (N.eqb_spec c 92); [lia | reflexivity].
  - intros seg; apply segment_text_within.
Qed.

Lemma format_json_round_trip_witness :
  Json.loads (JsonFormatter.format_json Scenario.transcript_cafe)
  = Return (VDict (Transcript.to_dict Scenario.transcript_cafe))
  /\ JsonSpec.within (JsonSpec.quoted Scenario.cafe)
                     (JsonFormatter.format_json Scenario.transcript_cafe).
Proof.
  assert (Htimes : JsonSpec.binary64_times Scenario.transcript_cafe = true)
    by (vm_compute; reflexivity).
  destruct (format_json_round_trip Scenario.transcript_cafe Htimes)
    as (Hloads & _ & _ & Hin).
  split; [exact Hloads|].
  apply (Hin Scenario.segment_cafe); [left; reflexivity | reflexivity].
Defined.

End JsonClaims.

(** * Further properties of the splitter *)

Section SplitterProperties.

Import PyStr PyList Segmenter SplitterSpec TimeSpec.

(** X1.  Splitting a concatenation of two segment lists gives the
    concatenation of what splitting each of them gives; it raises what the
    first list raises, and otherwise what the second one raises. *)
Theorem split_of_concatenation (a b : list TranscriptSegment.t) (max_words : Z) :
  split_segments_by_max_words (a ++ b) max_words
  = (x <- split_segments_by_max_words a max_words ;;
     y <- split_segments_by_max_words b max_words ;;
     Return (x ++ y)).
Proof.
  unfold split_segments_by_max_words.
  destruct (max_words <=? 0); [reflexivity|].
  rewrite for_segments_app.
  destruct (for_segments a max_words []) as [x|e]; cbn [bind]; [|reflexivity].
  apply for_segments_acc.
Qed.

(** X2.  Splitting is idempotent: splitting the output of a call once more,
    with the same or a larger [max_words], returns it unchanged. *)
Theorem split_again_unchanged
  (segments out : list TranscriptSegment.t) (max_words larger : Z) :
  split_segments_by_max_words segments max_words = Return out ->
  max_words <= larger ->
  split_segments_by_max_words out larger = Return out.
Proof.
  intros Hret Hle.
  pose proof (split_outputs _ _ _ Hret) as Hout.
  destruct (split_return_inv _ _ _ Hret) as [Hm _].
  unfold split_segments_by_max_words.
  destruct (Z.leb_spec larger 0); [lia|].
  assert (Hall : forall acc, for_segments out larger acc = Return (acc ++ out)).
  { clear Hret; induction Hout as [|s out (chunk & Hd & Hne & Hnb & Hlen) _ IH];
      intros acc; cbn [for_segments]; [now rewrite app_nil_r|].
    rewrite (segment_body_fixed chunk s larger Hd Hne Hnb ltac:(lia) acc).
    cbn [bind]; rewrite IH, <- app_assoc; reflexivity. }
  apply (Hall []).
Qed.

Lemma split_again_unchanged_witness :
  split_segments_by_max_words
    [TranscriptSegment.mk Scenario.t00 Scenario.t10 (lit "a b")
       (Some [Scenario.word_a; Scenario.word_b]);
     TranscriptSegment.mk Scenario.t10 Scenario.t15 (lit "c")
       (Some [Scenario.word_c])] 3
  = Return
      [TranscriptSegment.mk Scenario.t00 Scenario.t10 (lit "a b")
         (Some [Scenario.word_a; Scenario.word_b]);
       TranscriptSegment.mk Scenario.t10 Scenario.t15 (lit "c")
         (Some [Scenario.word_c])].
Proof.
  apply (split_again_unchanged [Scenario.segment_abc] _ 2 3).
  - vm_compute; reflexivity.
  - discriminate.
Defined.

(** X3.  No output segment is empty: each has at least one word, none of
    its words is empty after trimming, and its text is not empty and neither
    starts nor ends with white space. *)
Theorem split_outputs_not_blank
  (segments out : list TranscriptSegment.t) (max_words : Z) :
  split_segments_by_max_words segments max_words = Return out ->
  Forall (fun s =>
            words_of s <> [] /\
            Forall (fun w => strip (WordTimestamp.word w) <> []) (words_of s) /\
            trimmed (TranscriptSegment.text s)) out.
Proof.
  intros Hret; pose proof (split_outputs _ _ _ Hret) as Hout.
  revert Hout; apply Forall_impl.
  intros s (chunk & Hd & Hne & Hnb & _).
  rewrite (describes_words chunk s Hd).
  destruct Hd as (f & l & _ & _ & _ & _ & Ht & _).
  split; [exact Hne | split].
  - revert Hnb; apply Forall_impl; intros w Hw E.
    unfold nonblank in Hw; rewrite E in Hw; discriminate.
  - rewrite Ht; unfold chunk_text; apply join_trimmed.
    + destruct chunk; [congruence | discriminate].
    + apply Forall_map; revert Hnb; apply Forall_impl.
      intros w; apply nonblank_trimmed.
Qed.

Lemma split_outputs_not_blank_witness :
  Forall (fun s =>
            words_of s <> [] /\
            Forall (fun w => strip (WordTimestamp.word w) <> []) (words_of s) /\
            trimmed (TranscriptSegment.text s))
    [TranscriptSegment.mk Scenario.t00 Scenario.t10 (lit "a b")
       (Some [Scenario.word_a; Scenario.word_b]);
     TranscriptSegment.mk Scenario.t10 Scenario.t15 (lit "c")
       (Some [Scenario.word_c])].
Proof.
  apply (split_outputs_not_blank
           [Scenario.segment_abc; Scenario.segment_blank] _ 2).
  vm_compute; reflexivity.
Defined.

(** X4.  The number of output segments: every input segment with [k] kept
    words gives [k / max_words] segments, rounded up. *)
Theorem split_output_count
  (segments out : list TranscriptSegment.t) (max_words : Z) :
  split_segments_by_max_words segments max_words = Return out ->
  len out
  = fold_right Z.add 0
      (map (fun s => (len (kept_words s) + max_words - 1) / max_words)
           segments).
Proof.
  intros Hret.
  destruct (split_return_inv _ _ _ Hret) as [Hm Hw].
  destruct (split_returns segments max_words Hm Hw) as [per [Hrun Hper]].
  rewrite Hrun in Hret; injection Hret as <-.
  assert (Hn : (0 < Z.to_nat max_words)%nat) by lia.
  clear Hrun Hw; unfold len.
  induction Hper as [|s outs ss per [_ Hd] _ IH]; [reflexivity|].
  cbn [concat map fold_right]; rewrite length_app, Nat2Z.inj_add, IH.
  f_equal.
  apply describes_all_words in Hd.
  apply (f_equal (@List.length _)) in Hd.
  rewrite length_map, chunks_length in Hd by exact Hn.
  rewrite Hd, range_count_ceil by exact Hn.
  now rewrite Z2Nat.id by lia.
Qed.

Lemma split_output_count_witness :
  len [TranscriptSegment.mk Scenario.t00 Scenario.t10 (lit "a b")
         (Some [Scenario.word_a; Scenario.word_b]);
       TranscriptSegment.mk Scenario.t10 Scenario.t15 (lit "c")
         (Some [Scenario.word_c])]
  = fold_right Z.add 0
      (map (fun s => (len (kept_words s) + 2 - 1) / 2)
           [Scenario.segment_abc; Scenario.segment_blank]).
Proof.
  apply (split_output_count [Scenario.segment_abc; Scenario.segment_blank]).
  vm_compute; reflexivity.
Defined.

(** X5.  With [max_words = 1] every kept word becomes a segment of its own,
    with the word's start and end and its trimmed text. *)
Theorem split_one_word_each (segments : list TranscriptSegment.t) :
  Forall (fun segment => ~ lacks_words segment) segments ->
  split_segments_by_max_words segments 1
  = Return
      (map (fun w => TranscriptSegment.mk (WordTimestamp.start w)
                       (WordTimestamp.end_ w) (strip (WordTimestamp.word w))
                       (Some [w]))
           (concat (map kept_words segments))).
Proof.
  intros Hw.
  assert (HF : Forall (fun s => not_words (TranscriptSegment.words s) = false)
                 segments).
  { revert Hw; apply Forall_impl; intros s Hs.
    destruct (not_words (TranscriptSegment.words s)) eqn:E; [|reflexivity].
    now apply not_words_lacks in E. }
  destruct (split_returns segments 1 ltac:(lia) HF) as [per [Hrun Hper]].
  rewrite Hrun; f_equal.
  clear Hrun Hw HF; induction Hper as [|s outs ss per [_ Hd] _ IH];
    [reflexivity|].
  cbn [concat map]; rewrite map_app, IH; f_equal.
  change (Z.to_nat 1) with 1%nat in Hd; rewrite chunks_single in Hd.
  clear IH; revert outs Hd; induction (kept_words s) as [|w l IHl];
    intros outs Hd; inversion Hd as [|? s' ? outs' Hs Hrest]; subst;
    [reflexivity|].
  cbn [map]; f_equal; [|now apply IHl].
  apply (describes_same [w]); [exact Hs|].
  exists w, w; repeat split.
Qed.

Lemma split_one_word_each_witness :
  split_segments_by_max_words [Scenario.segment_abc] 1
  = Return
      (map (fun w => TranscriptSegment.mk (WordTimestamp.start w)
                       (WordTimestamp.end_ w) (strip (WordTimestamp.word w))
                       (Some [w]))
           (concat (map kept_words [Scenario.segment_abc]))).
Proof.
  apply (split_one_word_each [Scenario.segment_abc]).
  repeat constructor; intros [H|H]; discriminate H.
Defined.

(** X6.  The splitter reads nothing of a segment but its words: the start,
    the end and the text of the input segments do not matter. *)
Theorem split_reads_words_only (a b : list TranscriptSegment.t) (max_words : Z) :
  map TranscriptSegment.words a = map TranscriptSegment.words b ->
  split_segments_by_max_words a max_words
  = split_segments_by_max_words b max_words.
Proof.
  intros Hab; unfold split_segments_by_max_words.
  destruct (max_words <=? 0); [reflexivity|].
  generalize (@nil TranscriptSegment.t) as acc.
  revert b Hab; induction a as [|s a IH]; intros [|s' b] Hab acc;
    try discriminate; [reflexivity|].
  injection Hab as Hs Hab; cbn [for_segments].
  assert (E : segment_body s max_words acc = segment_body s' max_words acc)
    by (unfold segment_body; now rewrite Hs).
  rewrite E; destruct (segment_body s' max_words acc); cbn [bind];
    [now apply IH | reflexivity].
Qed.

Lemma split_reads_words_only_witness :
  split_segments_by_max_words [Scenario.segment_abc] 2
  = split_segments_by_max_words
      [TranscriptSegment.mk Scenario.t15 Scenario.t00 (lit "other")
         (Some [Scenario.word_a; Scenario.word_b; Scenario.word_c])] 2.
Proof.
  apply (split_reads_words_only [Scenario.segment_abc]).
  reflexivity.
Defined.

(** X7.  Ordered, non-overlapping words give ordered, non-overlapping
    segments: when the words of the input, taken in order over all segments,
    are in sequence (none ends before it starts, each starts no earlier than
    the one before it ends), so are the output segments. *)
Theorem split_keeps_sequence
  (segments out : list TranscriptSegment.t) (max_words : Z) :
  split_segments_by_max_words segments max_words = Return out ->
  in_sequence (map word_span (concat (map words_of segments))) = true ->
  in_sequence (map segment_span out) = true.
Proof.
  intros Hret Hseq.
  destruct (split_described _ _ _ Hret) as (cs & Hd & Hcs & Hne).
  apply (described_in_sequence cs out Hd Hne).
  rewrite Hcs.
  replace (concat (map kept_words segments))
    with (filter nonblank (concat (map words_of segments))).
  - now apply in_sequence_filter.
  - rewrite filter_concat, map_map; f_equal.
    apply map_ext; intros s; symmetry; apply kept_words_filter.
Qed.

Lemma split_keeps_sequence_witness :
  in_sequence
    (map segment_span
       [TranscriptSegment.mk Scenario.t00 Scenario.t10 (lit "a b")
          (Some [Scenario.word_a; Scenario.word_b]);
        TranscriptSegment.mk Scenario.t10 Scenario.t15 (lit "c")
          (Some [Scenario.word_c])]) = true.
Proof.
  apply (split_keeps_sequence [Scenario.segment_abc] _ 2).
  - vm_compute; reflexivity.
  - vm_compute; reflexivity.
Defined.

End SplitterProperties.

(** * Further properties of the formatter *)

Section FormatterProperties.

Import PyStr PyVal Formatters Json JsonSpec TranscriptFormatter FileSystem.






(** X11.  The file is opened before the text is encoded: when the text of a
    segment holds a surrogate code point, [save_to_file] raises
    [UnicodeEncodeError] in either format, and the file, which it has
    emptied, is left empty. *)
Theorem save_to_file_surrogate_empties_file
  (t : Transcript.t) (path : str) (f : OutputFormat.t) (fs : FileSystem.t)
  (seg : TranscriptSegment.t) (c : char) :
  writable fs path = true ->
  In seg (Transcript.segments t) ->
  In c (TranscriptSegment.text seg) ->
  surrogate c = true ->
  (exists msg,
      fst (save_to_file t path (Member f) fs) = Raise (UnicodeEncodeError msg)) /\
  read (snd (save_to_file t path (Member f) fs)) path = Some [].
Proof.
  intros Hw Hseg Hc Hsur.
  assert (Hcontent : exists content,
             format t (Member f) = Return content /\ In c content).
  { destruct f; cbn.
    - eexists; split; [reflexivity|].
      apply (format_json_holds_text t seg c Hseg Hc).
      unfold surrogate in Hsur; apply andb_true_iff in Hsur as [H _].
      apply N.leb_le in H; lia.
    - now apply (format_srt_holds_text t seg c). }
  destruct Hcontent as (content & Hf & Hin).
  assert (He : encodable content = false).
  { unfold encodable; destruct (forallb _ content) eqn:E; [|reflexivity].
    rewrite forallb_forall in E; specialize (E c Hin).
    now rewrite Hsur in E. }
  unfold save_to_file, open_w, write; rewrite Hf, Hw; cbn [fst snd].
  rewrite He; cbn [fst snd update read]; rewrite str_eqb_refl.
  split; [eexists; reflexivity | reflexivity].
Qed.

Lemma save_to_file_surrogate_empties_file_witness :
  (exists msg,
      fst (save_to_file Scenario.transcript_surrogate FileScenario.out_json
             (Member OutputFormat.SRT) FileScenario.old_files)
      = Raise (UnicodeEncodeError msg)) /\
  read (snd (save_to_file Scenario.transcript_surrogate FileScenario.out_json
               (Member OutputFormat.SRT) FileScenario.old_files))
       FileScenario.out_json
  = Some [].
Proof.
  apply (save_to_file_surrogate_empties_file Scenario.transcript_surrogate
           FileScenario.out_json OutputFormat.SRT FileScenario.old_files
           (TranscriptSegment.mk Scenario.t00 Scenario.t05 [104; 55357]%N None)
           55357%N).
  - reflexivity.
  - left; reflexivity.
  - right; left; reflexivity.
  - reflexivity.
Defined.

(** X12.  [to_dict] keeps every field: transcripts with the same dict are
    the same transcript, in the language, the times, texts and word lists of
    their segments, and in whether a segment has a word list at all. *)
Theorem to_dict_keeps_every_field (t1 t2 : Transcript.t) :
  Transcript.to_dict t1 = Transcript.to_dict t2 -> t1 = t2.
Proof. apply transcript_to_dict_injective. Qed.

Lemma to_dict_keeps_every_field_witness :
  Transcript.mk [Scenario.segment_cafe; Scenario.segment_hi]
    (Some [102; 114]%N)
  = Scenario.transcript_cafe.
Proof.
  apply (to_dict_keeps_every_field
           (Transcript.mk [Scenario.segment_cafe; Scenario.segment_hi]
              (Some [102; 114]%N))
           Scenario.transcript_cafe).
  reflexivity.
Defined.

(** X13.  The JSON text loses nothing: two transcripts with binary64 times
    and the same JSON text are the same transcript. *)
Theorem format_json_injective (t1 t2 : Transcript.t) :
  binary64_times t1 = true -> binary64_times t2 = true ->
  JsonFormatter.format_json t1 = JsonFormatter.format_json t2 -> t1 = t2.
Proof.
  intros H1 H2 E.
  pose proof (loads_dumps _ (to_dict_well_formed t1 H1)) as L1.
  pose proof (loads_dumps _ (to_dict_well_formed t2 H2)) as L2.
  unfold JsonFormatter.format_json in E; rewrite E, L2 in L1.
  apply transcript_to_dict_injective; congruence.
Qed.

Lemma format_json_injective_witness :
  Transcript.mk [Scenario.segment_cafe; Scenario.segment_hi]
    (Some [102; 114]%N)
  = Scenario.transcript_cafe.
Proof.
  apply (format_json_injective
           (Transcript.mk [Scenario.segment_cafe; Scenario.segment_hi]
              (Some [102; 114]%N))
           Scenario.transcript_cafe).
  - vm_compute; reflexivity.
  - vm_compute; reflexivity.
  - reflexivity.
Defined.

(** X14.  The JSON text holds no control character but the line feeds of
    its layout, whatever the texts of the transcript hold: every character
    of the output is a line feed or no control character. *)
Theorem format_json_no_control_characters (t : Transcript.t) :
  Forall (fun c => (32 <= c)%N \/ c = 10%N) (JsonFormatter.format_json t).
Proof. apply encode_printable. Qed.

(** X15.  [format_srt] reads the start, the end and the text of the segments
    and nothing else: the words of the segments and the language do not
    matter. *)
Theorem format_srt_reads_times_and_text (t1 t2 : Transcript.t) :
  map (fun s => (TranscriptSegment.start s, TranscriptSegment.end_ s,
                 TranscriptSegment.text s)) (Transcript.segments t1)
  = map (fun s => (TranscriptSegment.start s, TranscriptSegment.end_ s,
                   TranscriptSegment.text s)) (Transcript.segments t2) ->
  format_srt t1 = format_srt t2.
Proof.
  intros H; unfold format_srt.
  assert (E : forall index lines,
             srt_loop index (Transcript.segments t1) lines
             = srt_loop index (Transcript.segments t2) lines).
  { revert H; generalize (Transcript.segments t2) as r.
    induction (Transcript.segments t1) as [|s l IH]; intros [|s' r] H;
      try discriminate; intros index lines; [reflexivity|].
    injection H as Hs He Ht H; cbn [srt_loop]; unfold srt_entry.
    rewrite Hs, He, Ht.
    destruct (_seconds_to_srt_time (TranscriptSegment.start s'));
      cbn [bind]; [|reflexivity].
    destruct (_seconds_to_srt_time (TranscriptSegment.end_ s'));
      cbn [bind]; [|reflexivity].
    now apply IH. }
  now rewrite E.
Qed.

Lemma format_srt_reads_times_and_text_witness :
  format_srt (Transcript.mk [Scenario.segment_plain] None)
  = format_srt (Transcript.mk [Scenario.segment_empty] (Some (lit "en"))).
Proof.
  apply (format_srt_reads_times_and_text
           (Transcript.mk [Scenario.segment_plain] None)
           (Transcript.mk [Scenario.segment_empty] (Some (lit "en")))).
  reflexivity.
Defined.

End FormatterProperties.

(** * Further properties of the SRT time stamps *)

Section SrtTimeProperties.

Import PyStr PyFloat PyNum Formatters.

(** X16.  The shape [HH:MM:SS,mmm]: for a binary64 time that is not
    negative the time stamp is made of four groups of digits separated by a
    colon, a colon and a comma; the last three groups have two, two and
    three digits; the hours have two digits below 100 hours and more from
    100 hours on, so that the time stamp has twelve characters exactly when
    the time is below 100 hours. *)
Theorem srt_time_shape (s : float) :
  is_binary64 s = true -> 0 <= s < 2 ^ 57 * one ->
  exists hh mm ss mmm : str,
    _seconds_to_srt_time s
    = Return (hh ++ lit ":" ++ mm ++ lit ":" ++ ss ++ lit "," ++ mmm) /\
    Forall (fun c => isdigit c = true) (hh ++ mm ++ ss ++ mmm) /\
    List.length mm = 2%nat /\ List.length ss = 2%nat /\
    List.length mmm = 3%nat /\
    (s < 360000 * one -> List.length hh = 2%nat) /\
    (360000 * one <= s -> (2 < List.length hh)%nat).
Proof.
  intros Hb Hs; pose proof one_pos as H1.
  pose proof (Z.mod_pos_bound s (3600 * one) ltac:(lia)) as Hr.
  pose proof (Z.mod_pos_bound s (60 * one) ltac:(lia)) as Hs60.
  pose proof (Z.mod_pos_bound s one H1) as Hf.
  pose proof (millis_bound (s mod one)
                ltac:(pose proof (frac_bound s Hb ltac:(lia)); lia)) as Hms.
  assert (Hh : 0 <= s / (3600 * one)) by (apply Z.div_pos; lia).
  assert (Hmin : 0 <= s mod (3600 * one) / (60 * one) <= 59).
  { split; [apply Z.div_pos; lia|].
    assert (s mod (3600 * one) / (60 * one) < 60)
      by (apply Z.div_lt_upper_bound; lia). lia. }
  assert (Hsec : 0 <= s mod (60 * one) / one <= 59).
  { split; [apply Z.div_pos; lia|].
    assert (s mod (60 * one) / one < 60)
      by (apply Z.div_lt_upper_bound; lia). lia. }
  exists (format_d 2 (s / (3600 * one))),
    (format_d 2 (s mod (3600 * one) / (60 * one))),
    (format_d 2 (s mod (60 * one) / one)),
    (format_d 3 (to_int (mul (s mod one) (of_int 1000)))).
  split; [now apply srt_time_nonneg|].
  split.
  { apply Forall_app; split; [apply format_d_digits; lia|].
    apply Forall_app; split; [apply format_d_digits; lia|].
    apply Forall_app; split; apply format_d_digits; lia. }
  split; [apply format_d_two_digits; exact Hmin|].
  split; [apply format_d_two_digits; exact Hsec|].
  split; [apply format_d_three_digits; exact Hms|].
  split.
  - intros Hlt; apply format_d_hours; split; [exact Hh|].
    assert (s / (3600 * one) < 100) by (apply Z.div_lt_upper_bound; lia).
    lia.
  - intros Hge; apply format_d_long.
    apply Z.div_le_lower_bound; lia.
Qed.

Lemma srt_time_shape_witness :
  exists hh mm ss mmm : str,
    _seconds_to_srt_time (of_decimal 36619994 10000)
    = Return (hh ++ lit ":" ++ mm ++ lit ":" ++ ss ++ lit "," ++ mmm) /\
    Forall (fun c => isdigit c = true) (hh ++ mm ++ ss ++ mmm) /\
    List.length mm = 2%nat /\ List.length ss = 2%nat /\
    List.length mmm = 3%nat /\
    (of_decimal 36619994 10000 < 360000 * one -> List.length hh = 2%nat) /\
    (360000 * one <= of_decimal 36619994 10000 -> (2 < List.length hh)%nat).
Proof.
  apply (srt_time_shape (of_decimal 36619994 10000)).
  - vm_compute; reflexivity.
  - split; [vm_compute; discriminate | vm_compute; reflexivity].
Defined.

(** X17.  The time shown is the time truncated to milliseconds, or one
    millisecond more: the hours, minutes and seconds are those of the whole
    seconds, and the milliseconds, taken from the rounded product
    [(seconds % 1) * 1000], are the true ones or one more, never fewer.
    [0.29] is shown as [00:00:00,290] although it lies below 0.290. *)
Theorem srt_time_within_a_millisecond :
  (forall s : float,
      is_binary64 s = true -> 0 <= s < 2 ^ 57 * one ->
      exists hours minutes secs millis : Z,
        _seconds_to_srt_time s
        = Return (srt_time_string hours minutes secs millis) /\
        3600 * hours + 60 * minutes + secs = s / one /\
        1000 * s / one
        <= 1000 * (3600 * hours + 60 * minutes + secs) + millis
        <= 1000 * s / one + 1) /\
  _seconds_to_srt_time (of_decimal 29 100) = Return (lit "00:00:00,290") /\
  1000 * of_decimal 29 100 / one = 289.
Proof.
  split; [|split; vm_compute; reflexivity].
  intros s Hb Hs; pose proof one_pos as H1.
  pose proof (Z.mod_pos_bound s one H1) as Hf.
  pose proof (millis_close (s mod one) Hf) as Hms.
  pose proof (whole_seconds_fields s ltac:(lia)) as Hq.
  do 4 eexists; split; [now apply srt_time_nonneg|].
  split; [exact Hq|].
  rewrite Hq.
  assert (E : 1000 * s / one = 1000 * (s / one) + 1000 * (s mod one) / one).
  { rewrite (Z.div_mod s one) at 1 by lia.
    replace (1000 * (one * (s / one) + s mod one))
      with (1000 * (s mod one) + 1000 * (s / one) * one) by ring.
    rewrite Z.div_add by lia; lia. }
  rewrite E; lia.
Qed.

Lemma srt_time_within_a_millisecond_witness :
  exists hours minutes secs millis : Z,
    _seconds_to_srt_time (of_decimal 29 100)
    = Return (srt_time_string hours minutes secs millis) /\
    3600 * hours + 60 * minutes + secs = of_decimal 29 100 / one /\
    1000 * of_decimal 29 100 / one
    <= 1000 * (3600 * hours + 60 * minutes + secs) + millis
    <= 1000 * of_decimal 29 100 / one + 1.
Proof.
  apply (proj1 srt_time_within_a_millisecond (of_decimal 29 100)).
  - vm_compute; reflexivity.
  - split; [vm_compute; discriminate | vm_compute; reflexivity].
Defined.

(** X18.  A negative time is not rejected: for a time between -3600 and 0
    seconds the call returns a time stamp whose hours are [-1]; [-0.5] gives
    [-1:59:59,500]. *)
Theorem srt_time_negative_seconds :
  (forall s : float,
      - (3600 * one) < s < 0 ->
      exists rest : str, _seconds_to_srt_time s = Return (lit "-1:" ++ rest)) /\
  _seconds_to_srt_time (- of_decimal 5 10) = Return (lit "-1:59:59,500").
Proof.
  split; [|vm_compute; reflexivity].
  intros s Hs; pose proof one_pos as H1.
  unfold _seconds_to_srt_time.
  rewrite hours_negative by exact Hs; cbn [bind].
  destruct (rem_returns s (of_int 3600)) as [r Hr];
    [rewrite of_int_3600; lia|].
  rewrite Hr; cbn [bind].
  destruct (floor_div_returns r (of_int 60)) as [m Hm];
    [rewrite of_int_60; lia|].
  rewrite Hm; cbn [bind].
  destruct (rem_returns s (of_int 60)) as [r60 Hr60];
    [rewrite of_int_60; lia|].
  rewrite Hr60; cbn [bind].
  destruct (rem_returns s (of_int 1)) as [f Hf]; [rewrite of_int_1; lia|].
  rewrite Hf; cbn [bind].
  assert (E : to_int (- one) = -1) by (vm_compute; reflexivity).
  rewrite E; unfold srt_time_string.
  change (format_d 2 (-1)) with (lit "-1").
  eexists; reflexivity.
Qed.

Lemma srt_time_negative_seconds_witness :
  exists rest : str,
    _seconds_to_srt_time (- of_decimal 5 10) = Return (lit "-1:" ++ rest).
Proof.
  apply (proj1 srt_time_negative_seconds (- of_decimal 5 10)).
  split; vm_compute; reflexivity.
Defined.

End SrtTimeProperties.
